(** * multiNER: the aggregation core of [ner.py]

    A shallow embedding of the pure part of [ner.py]: the context extractor
    [context], the type resolution [max_class], the offset-keyed merge
    [intergrate_results], the literal lookup [manual_find], and the
    result-hand-over protocol of the in-process adapters [Flair] and [Spacy].

    Python values are modelled as follows.
    - [str] is a list of Unicode code points ([pystr]); [int] is [Z].
    - a [dict] is an association list in insertion order whose keys are
      unique ([dict_set] overwrites in place, as Python does); the order is
      kept because [max] and [list(d)[0]] depend on it;
    - a statement that can raise returns an [outcome]; [try]/[except Exception]
      is [try_except]. *)

From Stdlib Require Import String Ascii.
From Stdlib Require Import List ZArith NArith Bool Lia.
From Stdlib Require Import Sorting.Sorted Sorting.Permutation.
From Stdlib Require Floats.SpecFloat.
Import ListNotations.

Local Open Scope Z_scope.

(** ** Python strings *)

Definition char := N.
Definition pystr := list char.

(** An ASCII literal as a Python [str]. *)
Definition u (s : string) : pystr :=
  map N_of_ascii (list_ascii_of_string s).

Definition pystr_eq_dec : forall a b : pystr, {a = b} + {a <> b} :=
  list_eq_dec N.eq_dec.

Definition len {A} (l : list A) : Z := Z.of_nat (length l).

(** Keys of a Python container are integers or strings here. *)
Inductive pykey :=
| KInt (z : Z)
| KStr (s : pystr).

(** ** Exceptions *)

Inductive exn :=
| KeyError (k : pykey)
| IndexError
| TypeError
| ValueError
| UnboundLocalError (v : pystr)
| AttributeError (a : pystr)
| EngineError.

Inductive outcome (A : Type) :=
| Ret (a : A)
| Raise (e : exn).
Arguments Ret {A} a.
Arguments Raise {A} e.

Definition bind {A B} (m : outcome A) (k : A -> outcome B) : outcome B :=
  match m with
  | Ret a => k a
  | Raise e => Raise e
  end.

Notation "x <- m ;; k" := (bind m (fun x => k))
  (at level 61, m at next level, right associativity).
Notation "' p <- m ;; k" := (bind m (fun x => match x with p => k end))
  (at level 61, p pattern, m at next level, right associativity).

(** [try: body except Exception: handler] *)
Definition try_except {A} (body handler : outcome A) : outcome A :=
  match body with
  | Ret a => Ret a
  | Raise _ => handler
  end.

(** ** Slicing and indexing with Python's index conventions *)

(** The bound a slice index [i] denotes on a sequence of length [n]:
    negative indices count from the end, and everything is clamped. *)
Definition clamp (n : nat) (i : Z) : nat :=
  if i <? 0 then Z.to_nat (Z.max 0 (Z.of_nat n + i))
  else Nat.min (Z.to_nat i) n.

(** [l[i:]] *)
Definition slice_from {A} (l : list A) (i : Z) : list A :=
  skipn (clamp (length l) i) l.

(** [l[:j]] *)
Definition slice_to {A} (l : list A) (j : Z) : list A :=
  firstn (clamp (length l) j) l.

(** [l[i]]: raises IndexError out of range. *)
Definition getitem {A} (l : list A) (i : Z) : outcome A :=
  let j := if i <? 0 then len l + i else i in
  if j <? 0 then Raise IndexError
  else match nth_error l (Z.to_nat j) with
       | Some x => Ret x
       | None => Raise IndexError
       end.

(** ** [str.strip], [str.split], [str.join], [str.find] *)

(** The characters [str.isspace] accepts; [strip()] and [split()] without
    arguments work on exactly these. *)
Definition is_space (c : char) : bool :=
  (((9 <=? c) && (c <=? 13)) || ((28 <=? c) && (c <=? 32))
   || (c =? 133) || (c =? 160) || (c =? 5760)
   || ((8192 <=? c) && (c <=? 8202))
   || (c =? 8232) || (c =? 8233) || (c =? 8239) || (c =? 8287)
   || (c =? 12288))%N.

Fixpoint lstrip (s : pystr) : pystr :=
  match s with
  | [] => []
  | c :: s' => if is_space c then lstrip s' else s
  end.

Definition rstrip (s : pystr) : pystr := rev (lstrip (rev s)).

Definition strip (s : pystr) : pystr := rstrip (lstrip s).

(** Used by [scan]: a finished token is emitted only when it is not empty. *)
Definition push (tok : pystr) (rest : list pystr) : list pystr :=
  match tok with
  | [] => rest
  | _ => tok :: rest
  end.

(** [scan s] reads [s] from the right: the token that is still open at the
    left end of [s], and the tokens after it. *)
Fixpoint scan (s : pystr) : pystr * list pystr :=
  match s with
  | [] => ([], [])
  | c :: s' =>
      let (tok, rest) := scan s' in
      if is_space c then ([], push tok rest) else (c :: tok, rest)
  end.

(** [s.split()]: the maximal runs of non-whitespace characters. *)
Definition split (s : pystr) : list pystr :=
  let (tok, rest) := scan s in push tok rest.

(** [sep.join(l)] *)
Fixpoint join (sep : pystr) (l : list pystr) : pystr :=
  match l with
  | [] => []
  | [x] => x
  | x :: l' => x ++ sep ++ join sep l'
  end.

Fixpoint starts_with (s sub : pystr) : bool :=
  match sub, s with
  | [], _ => true
  | _ :: _, [] => false
  | a :: sub', b :: s' => (a =? b)%N && starts_with s' sub'
  end.

Fixpoint find_from (s sub : pystr) (i : Z) : Z :=
  if starts_with s sub then i
  else match s with
       | [] => -1
       | _ :: s' => find_from s' sub (i + 1)
       end.

(** [s.find(sub)] *)
Definition find (s sub : pystr) : Z := find_from s sub 0.

(** [c in s] for a one-character [c]. *)
Definition char_in (c : char) (s : pystr) : bool :=
  existsb (N.eqb c) s.

(** ** [context] *)

(** The literal of line 139: right and low double quotation marks, then
    [!,'], the double quote, [,`<>?-+] and the backslash. *)
Definition CONTEXT_TOKENS : pystr :=
  [8221; 8222]%N ++ u "!,'" ++ [34%N] ++ u ",`<>?-+" ++ [92%N].

Definition space : pystr := u " ".

Definition context (text_org ne : pystr) (pos : Z) (context : Z)
  : outcome (pystr * pystr * pystr) :=
  let leftof := strip (slice_to text_org pos) in
  let l_context := join space (slice_from (split leftof) (- context)) in
  let rightof := strip (slice_from text_org (pos + len ne)) in
  let r_context := join space (slice_to (split rightof) context) in
  let ne_context := ne in
  ne_context <-
    try_except
      (c <- getitem l_context (-1) ;;
       Ret (if char_in c CONTEXT_TOKENS then c :: ne_context else ne_context))
      (Ret ne_context) ;;
  ne_context <-
    try_except
      (c <- getitem r_context 0 ;;
       Ret (if char_in c CONTEXT_TOKENS then ne_context ++ [c] else ne_context))
      (Ret ne_context) ;;
  Ret (l_context, r_context, ne_context).

(** ** Dictionaries

    Association lists in insertion order.  [dict_set] keeps the position of
    a key that is already there, so keys stay unique. *)

Section Dict.
Context {K V : Type} (K_eq_dec : forall a b : K, {a = b} + {a <> b}).

Fixpoint dict_get (d : list (K * V)) (k : K) : option V :=
  match d with
  | [] => None
  | (k', v) :: d' => if K_eq_dec k k' then Some v else dict_get d' k
  end.

Fixpoint dict_set (d : list (K * V)) (k : K) (v : V) : list (K * V) :=
  match d with
  | [] => [(k, v)]
  | (k', v') :: d' =>
      if K_eq_dec k k' then (k, v) :: d' else (k', v') :: dict_set d' k v
  end.

Definition dict_keys (d : list (K * V)) : list K := map fst d.
End Dict.

(** [d[k]] on a dict with [str] keys. *)
Definition dict_getitem {V} (d : list (pystr * V)) (k : pystr) : outcome V :=
  match dict_get pystr_eq_dec d k with
  | Some v => Ret v
  | None => Raise (KeyError (KStr k))
  end.

(** [for x in l: s = body(s, x)], stopping at the first exception. *)
Fixpoint foreach {S A} (l : list A) (body : S -> A -> outcome S) (s : S)
  : outcome S :=
  match l with
  | [] => Ret s
  | a :: l' => s' <- body s a ;; foreach l' body s'
  end.

(** [sorted(l, key=key)]: a stable sort on an integer key. *)
Fixpoint insert_by {A} (key : A -> Z) (x : A) (l : list A) : list A :=
  match l with
  | [] => [x]
  | y :: l' => if key x <=? key y then x :: l else y :: insert_by key x l'
  end.

Fixpoint py_sorted {A} (key : A -> Z) (l : list A) : list A :=
  match l with
  | [] => []
  | x :: l' => insert_by key x (py_sorted key l')
  end.

(** ** [max_class] *)

(** A type histogram: type label to number of backends. *)
Definition hist := list (pystr * Z).

Fixpoint max_from (best : pystr) (best_val : Z) (items : hist) : pystr :=
  match items with
  | [] => best
  | (k, v) :: items' =>
      if best_val <? v then max_from k v items'
      else max_from best best_val items'
  end.

(** [max(input_type, key=input_type.get)]: the first key, in iteration
    order, whose value is the largest; ValueError on an empty dict.  The keys
    of a dict are unique, so [input_type.get(k)] is the value stored with
    [k]. *)
Definition py_max_key (input_type : hist) : outcome pystr :=
  match input_type with
  | [] => Raise ValueError
  | (k, v) :: items => Ret (max_from k v items)
  end.

(** [input_type.get(k) == n] *)
Definition get_is (input_type : hist) (k : pystr) (n : Z) : bool :=
  match dict_get pystr_eq_dec input_type k with
  | Some v => v =? n
  | None => false
  end.

(** The local [sure] is unbound until one of the four tests assigns it. *)
Definition max_class (input_type : hist) (pref_type : pystr)
  : outcome (pystr * Z) :=
  mc <- py_max_key input_type ;;
  let sure : option Z := None in
  let '(mc, sure) :=
    if get_is input_type mc 1 then (pref_type, Some 1) else (mc, sure) in
  let sure := if get_is input_type mc 2 then Some 2 else sure in
  let sure := if get_is input_type mc 3 then Some 3 else sure in
  let sure := if get_is input_type mc 4 then Some 4 else sure in
  match sure with
  | Some s => Ret (mc, s)
  | None => Raise (UnboundLocalError (u "sure"))
  end.

(** ** [intergrate_results] *)

(** What a backend reports: [{"ne": .., "pos": .., "type": ..}]. *)
Record raw_entity := mk_raw {
  r_ne : pystr;
  r_pos : Z;
  r_type : pystr
}.

(** The dispatcher's map from backend name to that backend's entities. *)
Definition backend_results := list (pystr * list raw_entity).

(** A value of [new_result]: the keys "count", "ne", "ner_src" and "type"
    are always there, "pref_type" and "alt_ne" only when set. *)
Record entry := mk_entry {
  e_count : Z;
  e_ne : pystr;
  e_ner_src : list pystr;
  e_type : hist;
  e_pref_type : option pystr;
  e_alt_ne : option pystr
}.

(** [new_result]: offset to entry. *)
Definition registry := list (Z * entry).

(** An element of the returned list. *)
Record aggregated := mk_aggregated {
  o_count : Z;
  o_ne : pystr;
  o_ner_src : list pystr;
  o_alt_ne : option pystr;
  o_types : list pystr;
  o_type : pystr;
  o_type_certainty : Z;
  o_left_context : pystr;
  o_right_context : pystr;
  o_ne_context : pystr;
  o_pos : Z;
  o_source : pystr
}.

Definition stanford : pystr := u "stanford".
Definition spotlight : pystr := u "spotlight".
Definition spacy : pystr := u "spacy".
Definition polyglot : pystr := u "polyglot".
Definition flair : pystr := u "flair".

(** The local [res]: the list [[]] it starts as, or the dict built last. *)
Inductive res_value :=
| ResList
| ResDict (e : entry).

Definition pykey_eqb (a b : pykey) : bool :=
  match a, b with
  | KInt x, KInt y => x =? y
  | KStr x, KStr y => if pystr_eq_dec x y then true else false
  | _, _ => false
  end.

Definition entry_keys (e : entry) : list pykey :=
  [KStr (u "count"); KStr (u "ne"); KStr (u "ner_src"); KStr (u "type")]
  ++ (match e_pref_type e with Some _ => [KStr (u "pref_type")] | None => [] end)
  ++ (match e_alt_ne e with Some _ => [KStr (u "alt_ne")] | None => [] end).

(** [k in res] *)
Definition res_contains (k : pykey) (res : res_value) : bool :=
  match res with
  | ResList => false
  | ResDict e => existsb (pykey_eqb k) (entry_keys e)
  end.

(** [h[t] = 1] when [t] is not a key of [h], else [h[t] += 1]. *)
Definition hist_incr (h : hist) (t : pystr) : hist :=
  match dict_get pystr_eq_dec h t with
  | None => dict_set pystr_eq_dec h t 1
  | Some n => dict_set pystr_eq_dec h t (n + 1)
  end.

(** Lines 491-498. *)
Definition stanford_step (st : registry * res_value) (ne : raw_entity)
  : registry * res_value :=
  let (new_result, _) := st in
  let res := {| e_count := 1;
                e_ne := r_ne ne;
                e_ner_src := [stanford];
                e_type := [(r_type ne, 1)];
                e_pref_type := Some (r_type ne);
                e_alt_ne := None |} in
  (dict_set Z.eq_dec new_result (r_pos ne) res, ResDict res).

(** [new_result[pos]] as used by the in-place updates. *)
Definition registry_getitem (new_result : registry) (pos : Z) : outcome entry :=
  match dict_get Z.eq_dec new_result pos with
  | Some e => Ret e
  | None => Raise (KeyError (KInt pos))
  end.

(** Lines 500-516.  The membership test is on [res], not on [new_result].
    [res] may be the very dict stored in [new_result]; the updates of the
    [else] branch change values of that dict and none of its keys, and [res]
    is only ever tested for membership. *)
Definition spotlight_step (st : registry * res_value) (ne : raw_entity)
  : outcome (registry * res_value) :=
  let (new_result, res) := st in
  if negb (res_contains (KInt (r_pos ne)) res) then
    let res := {| e_count := 1;
                  e_ne := r_ne ne;
                  e_ner_src := [spotlight];
                  e_type := [(r_type ne, 1)];
                  e_pref_type := Some (r_type ne);
                  e_alt_ne := None |} in
    Ret (dict_set Z.eq_dec new_result (r_pos ne) res, ResDict res)
  else
    e <- registry_getitem new_result (r_pos ne) ;;
    let e := {| e_count := e_count e + 1;
                e_ne := e_ne e;
                e_ner_src := e_ner_src e ++ [spotlight];
                e_type := hist_incr (e_type e) (r_type ne);
                e_pref_type := e_pref_type e;
                e_alt_ne := e_alt_ne e |} in
    Ret (dict_set Z.eq_dec new_result (r_pos ne) e, res).

(** [x in l] for a list of strings. *)
Definition str_in (x : pystr) (l : list pystr) : bool :=
  if in_dec pystr_eq_dec x l then true else false.

(** Lines 523-545, for one entity of backend [parser]. *)
Definition parser_step (parser : pystr) (new_result : registry)
  (ne : raw_entity) : registry :=
  match dict_get Z.eq_dec new_result (r_pos ne) with
  | Some e =>
      if str_in parser (e_ner_src e) then new_result
      else
        dict_set Z.eq_dec new_result (r_pos ne)
          {| e_count := e_count e + 1;
             e_ne := e_ne e;
             e_ner_src := e_ner_src e ++ [parser];
             e_type := hist_incr (e_type e) (r_type ne);
             e_pref_type := e_pref_type e;
             e_alt_ne := if pystr_eq_dec (r_ne ne) (e_ne e)
                         then e_alt_ne e else Some (r_ne ne) |}
  | None =>
      dict_set Z.eq_dec new_result (r_pos ne)
        {| e_count := 1;
           e_ne := r_ne ne;
           e_ner_src := [parser];
           e_type := [(r_type ne, 1)];
           e_pref_type := None;
           e_alt_ne := None |}
  end.

(** Lines 520-545, for one backend: skipped when [result.get(parser)] is
    None. *)
Definition parser_pass (result : backend_results) (new_result : registry)
  (parser : pystr) : registry :=
  match dict_get pystr_eq_dec result parser with
  | None => new_result
  | Some l => fold_left (parser_step parser) l new_result
  end.

(** [for ne in x] where [x] may be None. *)
Definition iterate {A} (x : option (list A)) : outcome (list A) :=
  match x with
  | Some l => Ret l
  | None => Raise TypeError
  end.

(** Lines 491-545: the three passes that build [new_result]. *)
Definition merge (result : backend_results) : outcome registry :=
  let new_result : registry := [] in
  let res := ResList in
  l <- iterate (dict_get pystr_eq_dec result stanford) ;;
  let '(new_result, res) := fold_left stanford_step l (new_result, res) in
  l <- iterate (dict_get pystr_eq_dec result spotlight) ;;
  ' (new_result, res) <- foreach l spotlight_step (new_result, res) ;;
  let parsers := [spacy; polyglot; flair] in
  Ret (fold_left (parser_pass result) parsers new_result).

(** Truth value of [d.get("pref_type")]: None and the empty string are
    false. *)
Definition truthy (x : option pystr) : bool :=
  match x with
  | Some (_ :: _) => true
  | _ => false
  end.

(** The test of lines 549-550. *)
Definition survives (e : entry) : bool :=
  truthy (e_pref_type e) || (len (e_ner_src e) =? 2).

(** Lines 551-561: the call of [max_class]. *)
Definition resolve_type (e : entry) : outcome (pystr * Z) :=
  match e_pref_type e with
  | Some p => max_class (e_type e) p
  | None =>
      first <- getitem (dict_keys (e_type e)) 0 ;;
      max_class (e_type e) first
  end.

(** Lines 548-572, for the entry [e] stored at offset [ne]. *)
Definition finalize (source source_text : pystr) (context_len : Z)
  (final_result : list aggregated) (item : Z * entry)
  : outcome (list aggregated) :=
  let (ne, e) := item in
  if survives e then
    ne_type <- resolve_type e ;;
    ' (l, r, n) <- context source_text (e_ne e) ne context_len ;;
    Ret (final_result ++
         [{| o_count := e_count e;
             o_ne := e_ne e;
             o_ner_src := e_ner_src e;
             o_alt_ne := e_alt_ne e;
             o_types := dict_keys (e_type e);
             o_type := fst ne_type;
             o_type_certainty := snd ne_type;
             o_left_context := l;
             o_right_context := r;
             o_ne_context := n;
             o_pos := ne;
             o_source := source |}])
  else Ret final_result.

Definition intergrate_results (result : backend_results)
  (source source_text : pystr) (context_len : Z) : outcome (list aggregated) :=
  new_result <- merge result ;;
  final_result <- foreach new_result (finalize source source_text context_len) [] ;;
  Ret (py_sorted o_pos final_result).

(** ** [manual_find] *)

Inductive pyval :=
| VInt (z : Z)
| VStr (s : pystr)
| VTuple (items : list pystr).

(** The dict [manual_find] builds. *)
Definition manual_record := list (pystr * pyval).

Definition manual_find (input_str source_text source : pystr)
  (context_len : Z) : outcome manual_record :=
  let result : manual_record := [] in
  let pos := find source_text input_str in
  let result := dict_set pystr_eq_dec result (u "pos") (VInt pos) in
  let result := dict_set pystr_eq_dec result (u "ne") (VStr input_str) in
  let result := dict_set pystr_eq_dec result (u "source") (VStr source) in
  let result := dict_set pystr_eq_dec result (u "type") (VStr (u "manual")) in
  if negb (pos =? -1) then
    (* lines 594 and 595 are expression statements: each reads a key *)
    _ <- dict_getitem result (u "left_context") ;;
    _ <- dict_getitem result (u "right_context") ;;
    ' (l, r, n) <- context source_text input_str pos context_len ;;
    Ret (dict_set pystr_eq_dec result (u "ne_context")
           (VTuple [l; r; n]))
  else
    let result := dict_set pystr_eq_dec result (u "left_context") (VStr []) in
    let result := dict_set pystr_eq_dec result (u "right_context") (VStr []) in
    let result := dict_set pystr_eq_dec result (u "ne_context") (VStr input_str) in
    Ret result.

(** ** The values the services deliver

    The answer of spotlight is JSON of any shape, and spaCy's entries may
    lack their offset.  So the entities [index] hands to
    [intergrate_results] are not all of the shape the functions above take:
    a surface form may be any value, and "pos" may be missing.  Such
    values are modelled here; [Spotlight.run], [intergrate_results] and
    [context] are embedded once more on them further down, for [index]. *)

(** What [response.json()] returns. *)
#[warnings="-register-all"] Inductive json :=
| JNone
| JBool (b : bool)
| JInt (z : Z)
| JFloat (f : SpecFloat.spec_float)
| JStr (s : pystr)
| JList (items : list json)
| JDict (items : list (pystr * json)).

(** Truth value of a value. *)
Definition json_truthy (x : json) : bool :=
  match x with
  | JNone => false
  | JBool b => b
  | JInt z => negb (z =? 0)
  | JFloat f => match f with SpecFloat.S754_zero _ => false | _ => true end
  | JStr s => negb (len s =? 0)
  | JList items => negb (len items =? 0)
  | JDict items => negb (len items =? 0)
  end.

(** [x.get(key)]: a dict answers, with None for a missing key, and no other
    value has the method. *)
Definition json_get (x : json) (key : pystr) : outcome json :=
  match x with
  | JDict items =>
      Ret (match dict_get pystr_eq_dec items key with
           | Some v => v
           | None => JNone
           end)
  | _ => Raise (AttributeError (u "get"))
  end.

(** [for item in x]: the elements of a list, the characters of a string,
    the keys of a dict. *)
Definition json_iter (x : json) : outcome (list json) :=
  match x with
  | JList items => Ret items
  | JStr s => Ret (map (fun c => JStr [c]) s)
  | JDict items => Ret (map (fun kv => JStr (fst kv)) items)
  | _ => Raise TypeError
  end.

(** [len(x)] *)
Definition json_len (x : json) : outcome Z :=
  match x with
  | JStr s => Ret (len s)
  | JList items => Ret (len items)
  | JDict items => Ret (len items)
  | _ => Raise TypeError
  end.

(** [a + b] where one of the two is a string: the other must be one. *)
Definition json_add (a b : json) : outcome json :=
  match a, b with
  | JStr x, JStr y => Ret (JStr (x ++ y))
  | _, _ => Raise TypeError
  end.

(** An entity as a backend hands it over: a dict with "ne", "type" and,
    unless the offset loop did not reach it, "pos". *)
Record pyentity := mk_pyentity {
  p_ne : json;
  p_pos : option Z;
  p_type : pystr
}.

(** The dispatcher's map, on these entities. *)
Definition results_any := list (pystr * list pyentity).

(** The entities of the adapters above are such dicts. *)
Definition lift (ne : raw_entity) : pyentity :=
  mk_pyentity (JStr (r_ne ne)) (Some (r_pos ne)) (r_type ne).

(** What a [join] returned, its entities seen as such dicts. *)
Definition as_any {A} (f : A -> pyentity)
  (joined : outcome (list (pystr * list A))) : outcome results_any :=
  r <- joined ;;
  Ret (map (fun kv => (fst kv, map f (snd kv))) r).

(** An entry of a [result] list that the offset loop has not reached: "ne"
    and "type" only. *)
Definition unlocated (ne : json * pystr) : pyentity :=
  mk_pyentity (fst ne) None (snd ne).

(** The offset loop of lines 405-410 on entries whose "ne" may be any
    value: [find] raises TypeError on a value that is no string, and the
    entries from that one on keep no "pos". *)
Fixpoint locate_any (parsed_text : pystr) (offset : Z)
  (result : list (json * pystr)) : list pyentity * option exn :=
  match result with
  | [] => ([], None)
  | (JStr ne, ty) :: rest =>
      let pos := find (slice_from parsed_text offset) ne in
      let (located, raised) :=
        locate_any parsed_text (offset + (pos + len ne)) rest in
      (mk_pyentity (JStr ne) (Some (pos + offset)) ty :: located, raised)
  | _ :: _ => (map unlocated result, Some TypeError)
  end.

(** ** Backend adapters

    Each adapter is a thread object: [run] executes in the thread and may set
    the attribute [self.result]; an exception that leaves [run] ends the
    thread and is not seen by the caller; [join] waits for the thread and
    then reads [self.result].  The attribute is [None] here while it has not
    been assigned.  The recognizer engines are parameters. *)

(** What flair reports for one entity; a falsy item is [None]. *)
Record flair_span := mk_flair_span {
  f_text : pystr;
  f_start_pos : Z;
  f_type : pystr
}.

(** Lines 405-410: offsets by scanning forward from a cursor. *)
Fixpoint locate (parsed_text : pystr) (offset : Z) (result : list (pystr * pystr))
  : list raw_entity :=
  match result with
  | [] => []
  | (ne, ty) :: rest =>
      let pos := find (slice_from parsed_text offset) ne in
      mk_raw ne (pos + offset) ty
        :: locate parsed_text (offset + (pos + len ne)) rest
  end.

(** The retry loop of [Spotlight.run], lines 458-480; [fuel] is
    [max_retry - retry]. *)
Fixpoint Spotlight_loop (attempt : Z -> outcome (list raw_entity))
  (fuel : nat) (retry : Z) (self_result : option backend_results)
  : option backend_results :=
  match fuel with
  | O => self_result
  | S fuel' =>
      match attempt retry with
      | Ret result => Some [(spotlight, result)]
      | Raise _ =>
          Spotlight_loop attempt fuel' (retry + 1) (Some [(spotlight, [])])
      end
  end.

Section Adapters.
(** [str.lower] *)
Variable lower : pystr -> pystr.
(** Lines 283-288, the [Sentence] built, [nlp_flair.predict] and [to_dict]:
    the entities of each sentence, or the exception one of the calls
    raises. *)
Variable flair_engine : pystr -> outcome (list (list (option flair_span))).
(** [nlp_spacy], [doc.ents] and the attributes [text] and [label_] of each
    entity: the text and label of the entities read before the first
    exception, and that exception if there is one. *)
Variable spacy_engine : pystr -> list (json * json) * option exn.
(** One [requests.get] with its JSON decoding, by attempt number. *)
Variable spotlight_attempt : Z -> outcome (list raw_entity).

Definition translate (input_str : pystr) : pystr :=
  let input_str := lower input_str in
  if pystr_eq_dec input_str (u "org") then u "organisation"
  else if pystr_eq_dec input_str (u "per") then u "person"
  else if pystr_eq_dec input_str (u "misc") then u "other"
  else if pystr_eq_dec input_str (u "gpe") then u "location"
  else if pystr_eq_dec input_str (u "loc") then u "location"
  else input_str.

(** [Flair.run]: [self.result] is assigned only after [predict] returned. *)
Definition Flair_run (parsed_text : pystr)
  (self_result : option (list raw_entity)) : option (list raw_entity) :=
  match flair_engine parsed_text with
  | Raise _ => self_result
  | Ret tagged_items =>
      Some (fold_left
              (fun acc item =>
                 fold_left
                   (fun acc i =>
                      match i with
                      | None => acc
                      | Some i =>
                          acc ++ [mk_raw (f_text i) (f_start_pos i)
                                    (translate (f_type i))]
                      end) item acc)
              tagged_items [])
  end.

Definition Flair_join (self_result : option (list raw_entity))
  : outcome backend_results :=
  match self_result with
  | Some result => Ret [(flair, result)]
  | None => Raise (AttributeError (u "result"))
  end.

(** [start()] then [join()] on a fresh [Flair] object. *)
Definition Flair (parsed_text : pystr) : outcome backend_results :=
  Flair_join (Flair_run parsed_text None).

(** [translate(x)] on any value: only a string has [lower]. *)
Definition translate_any (x : json) : outcome pystr :=
  match x with
  | JStr s => Ret (translate s)
  | _ => Raise (AttributeError (u "lower"))
  end.

(** Lines 402-403 over the entities read: the entries appended, and the
    exception that ended the loop if there is one, that of [translate] on a
    label that is no string or, after the last entity read, the engine's. *)
Fixpoint spacy_append (ents : list (json * json)) (raised : option exn)
  : list (json * pystr) * option exn :=
  match ents with
  | [] => ([], raised)
  | (text, label) :: ents' =>
      match translate_any label with
      | Ret ty =>
          let (result, raised) := spacy_append ents' raised in
          ((text, ty) :: result, raised)
      | Raise e => ([], Some e)
      end
  end.

(** [Spacy.run].  The [try] block covers the engine call, the loop that
    appends one entry per entity (lines 402-403) and the offset loop (lines
    405-410); [except Exception: pass] leaves [result] as the block left it.
    So the entries appended before an exception are handed over, without
    "pos" when the offset loop did not reach them. *)
Definition Spacy_run (parsed_text : pystr)
  (self_result : option results_any) : option results_any :=
  let (ents, raised) := spacy_engine parsed_text in
  let (result, raised) := spacy_append ents raised in
  let result :=
    match raised with
    | Some _ => map unlocated result
    | None => fst (locate_any parsed_text 0 result)
    end in
  Some [(spacy, result)].

Definition Spacy_join (self_result : option results_any)
  : outcome results_any :=
  match self_result with
  | Some result => Ret result
  | None => Raise (AttributeError (u "result"))
  end.

Definition Spacy (parsed_text : pystr) : outcome results_any :=
  Spacy_join (Spacy_run parsed_text None).

Definition Spotlight_run (self_result : option backend_results)
  : option backend_results :=
  Spotlight_loop spotlight_attempt 10 0 self_result.

Definition Spotlight_join (self_result : option backend_results)
  : outcome backend_results :=
  match self_result with
  | Some result => Ret result
  | None => Raise (AttributeError (u "result"))
  end.

Definition Spotlight : outcome backend_results :=
  Spotlight_join (Spotlight_run None).
End Adapters.

(** ** Notions used to state the properties *)

Definition nonspace (c : char) : bool := negb (is_space c).

(** A token of [split]: not empty, no whitespace inside. *)
Definition token (t : pystr) : Prop :=
  t <> [] /\ Forall (fun c => is_space c = false) t.

(** Last and first character of a string that is not whitespace. *)
Definition last_nonspace (s : pystr) : option char :=
  hd_error (rev (filter nonspace s)).

Definition first_nonspace (s : pystr) : option char :=
  hd_error (filter nonspace s).

(** The two windows [context] computes (lines 141-145). *)
Definition left_window (text_org : pystr) (pos context : Z) : pystr :=
  join space (slice_from (split (strip (slice_to text_org pos))) (- context)).

Definition right_window (text_org ne : pystr) (pos context : Z) : pystr :=
  join space
    (slice_to (split (strip (slice_from text_org (pos + len ne)))) context).

(** The boundary character [context] attaches, if any. *)
Definition boundary (c : option char) : pystr :=
  match c with
  | Some c => if char_in c CONTEXT_TOKENS then [c] else []
  | None => []
  end.

(** [k] is the key [max] selects in [h], and [c] its count, the largest. *)
Definition highest_count (h : hist) (k : pystr) (c : Z) : Prop :=
  py_max_key h = Ret k /\
  dict_get pystr_eq_dec h k = Some c /\
  forall k' c', In (k', c') h -> c' <= c.

(** [sub] occurs in [s] at index [i]. *)
Definition occurs_at (s sub : pystr) (i : Z) : Prop :=
  0 <= i /\ starts_with (skipn (Z.to_nat i) s) sub = true /\ i <= len s.

(** ** Well-formed registries *)

Definition sum_counts (h : hist) : Z :=
  fold_right (fun kv acc => snd kv + acc) 0 h.

(** The backends of the third pass. *)
Definition corroborating : list pystr := [spacy; polyglot; flair].

(** What every value of [new_result] satisfies: the histogram is a dict of
    positive counts that add up to the number of sources, and the sources
    after the first are distinct backends of the third pass. *)
Record entry_ok (e : entry) : Prop := {
  ok_keys : NoDup (dict_keys (e_type e));
  ok_counts : Forall (fun kv => 1 <= snd kv) (e_type e);
  ok_total : sum_counts (e_type e) = len (e_ner_src e);
  ok_src : exists first rest,
      e_ner_src e = first :: rest /\ NoDup rest /\ incl rest corroborating;
  ok_pref : forall p, e_pref_type e = Some p ->
                      exists c, dict_get pystr_eq_dec (e_type e) p = Some c
}.

Definition registry_ok (new_result : registry) : Prop :=
  NoDup (dict_keys new_result) /\ Forall (fun it => entry_ok (snd it)) new_result.

(** [o] is what lines 551-572 append for the entry [e] stored at [pos]. *)
Definition finalized_from (source source_text : pystr) (context_len : Z)
  (item : Z * entry) (o : aggregated) : Prop :=
  exists t c l r n,
    resolve_type (snd item) = Ret (t, c) /\
    context source_text (e_ne (snd item)) (fst item) context_len = Ret (l, r, n) /\
    o = {| o_count := e_count (snd item);
           o_ne := e_ne (snd item);
           o_ner_src := e_ner_src (snd item);
           o_alt_ne := e_alt_ne (snd item);
           o_types := dict_keys (e_type (snd item));
           o_type := t;
           o_type_certainty := c;
           o_left_context := l;
           o_right_context := r;
           o_ne_context := n;
           o_pos := fst item;
           o_source := source |}.

(** ** The example of the doctests *)

Definition sample_text : pystr :=
  u "Deze iets langere test bevat de naam Albert Einstein.".

Definition sample_entity : raw_entity :=
  mk_raw (u "Albert Einstein") 37 (u "person").

(** "stanford" and one corroborating backend report the same entity. *)
Definition sample_results : backend_results :=
  [(stanford, [sample_entity]); (spotlight, []); (spacy, [sample_entity])].

Definition sample_entry : entry :=
  {| e_count := 2;
     e_ne := u "Albert Einstein";
     e_ner_src := [stanford; spacy];
     e_type := [(u "person", 2)];
     e_pref_type := Some (u "person");
     e_alt_ne := None |}.

(** No seed backend reports the entity, all three corroborating ones do. *)
Definition corroborated_results : backend_results :=
  [(stanford, []); (spotlight, []); (spacy, [sample_entity]);
   (polyglot, [sample_entity]); (flair, [sample_entity])].

Definition corroborated_entry : entry :=
  {| e_count := 3;
     e_ne := u "Albert Einstein";
     e_ner_src := [spacy; polyglot; flair];
     e_type := [(u "person", 3)];
     e_pref_type := None;
     e_alt_ne := None |}.

(** The entry the first two passes create for [ne] reported by [backend]. *)
Definition seed_entry (backend : pystr) (ne : raw_entity) : entry :=
  {| e_count := 1;
     e_ne := r_ne ne;
     e_ner_src := [backend];
     e_type := [(r_type ne, 1)];
     e_pref_type := Some (r_type ne);
     e_alt_ne := None |}.

(** ** The other adapters

    [Stanford] and [Polyglot] follow the protocol of the adapters above.  The
    engines are parameters: what the telnet exchange and the XML parser
    deliver, and the sentences polyglot finds. *)

(** [s.replace(old, new)] for a one-character [old]. *)
Definition replace_char (old : char) (new : pystr) (s : pystr) : pystr :=
  flat_map (fun c => if (c =? old)%N then new else [c]) s.

(** [s.split(sep)] for a one-character [sep]: at least one piece. *)
Fixpoint split_on (sep : char) (s : pystr) : list pystr :=
  match s with
  | [] => [[]]
  | c :: s' =>
      if (c =? sep)%N then [] :: split_on sep s'
      else match split_on sep s' with
           | [] => [[c]]
           | piece :: pieces => (c :: piece) :: pieces
           end
  end.

(** The hyphen of the tags "B-PER", "I-LOC". *)
Definition hyphen : char := 45%N.

(** [a + b] on two values that are a string or None. *)
Definition str_add (a b : option pystr) : outcome pystr :=
  match a, b with
  | Some x, Some y => Ret (x ++ y)
  | _, _ => Raise TypeError
  end.

(** [l[-1] = x] *)
Definition set_last {A} (l : list A) (x : A) : list A := removelast l ++ [x].

(** [l.pop()] *)
Definition pop {A} (l : list A) : outcome (list A) :=
  match l with
  | [] => Raise IndexError
  | _ => Ret (removelast l)
  end.

(** An element delivered by [iter()]: its tag, and its text or None. *)
Definition xml_item := (pystr * option pystr)%type.

(** An entry of Stanford's [result] before its offset is known: "ne", which
    is the element's text, and "type". *)
Definition tagged := (option pystr * pystr)%type.

(** The offset loop of lines 247-252 over entries whose "ne" may be None:
    [find] and [len] raise TypeError on None. *)
Fixpoint locate_tagged (parsed_text : pystr) (offset : Z) (result : list tagged)
  : outcome (list raw_entity) :=
  match result with
  | [] => Ret []
  | (None, _) :: _ => Raise TypeError
  | (Some ne, ty) :: rest =>
      let pos := find (slice_from parsed_text offset) ne in
      located <- locate_tagged parsed_text (offset + (pos + len ne)) rest ;;
      Ret (mk_raw ne (pos + offset) ty :: located)
  end.

(** The loop of lines 214-221: [fuel] is [max_retry - retry]; true when a
    connection was opened. *)
Fixpoint connect_loop (connect : Z -> outcome unit) (fuel : nat) (retry : Z)
  : bool :=
  match fuel with
  | O => false
  | S fuel' =>
      match connect retry with
      | Ret _ => true
      | Raise _ => connect_loop connect fuel' (retry + 1)
      end
  end.

(** What polyglot reports for one entity: [entity.start], the words
    [ast.literal_eval(str(entity))] yields or the exception it raises, and
    [entity.tag]. *)
Record polyglot_entity := mk_polyglot_entity {
  pe_start : Z;
  pe_words : outcome (list pystr);
  pe_tag : pystr
}.

Section MoreAdapters.
(** [str.lower] *)
Variable lower : pystr -> pystr.
(** [telnetlib.Telnet(...)], by attempt number. *)
Variable stanford_connect : Z -> outcome unit.
(** Lines 227-232 and [data.iter()]: the text is sent, the answer read and
    parsed, and the elements are delivered in document order, the root
    first; or one of the calls raises. *)
Variable stanford_exchange : pystr -> outcome (list xml_item).
(** [Text(...).sentences] with the entities of each sentence, or the
    exception raised on the way. *)
Variable polyglot_engine : pystr -> outcome (list (list polyglot_entity)).
(** [==] on polyglot's entities, as [in] applies it. *)
Variable entity_eqb : polyglot_entity -> polyglot_entity -> bool.

(** Lines 237-245, for one element. *)
Definition stanford_tag_step (st : list tagged * pystr) (item : xml_item)
  : outcome (list tagged * pystr) :=
  let (result, p_tag) := st in
  if pystr_eq_dec (fst item) (u "root") then Ret (result, p_tag)
  else
    tag <- getitem (split_on hyphen (fst item)) 1 ;;
    prefix <- getitem (split_on hyphen (fst item)) 0 ;;
    if (if pystr_eq_dec prefix (u "I") then true else false)
       && (if pystr_eq_dec p_tag tag then true else false)
    then
      last <- getitem result (-1) ;;
      ne <- str_add (fst last) (Some space) ;;
      ne <- str_add (Some ne) (snd item) ;;
      Ret (set_last result (Some ne, snd last), p_tag)
    else
      Ret (result ++ [(snd item, translate lower tag)], tag).

(** Lines 227-254: everything after the connection is open. *)
Definition Stanford_body (parsed_text text : pystr) : outcome (list raw_entity) :=
  items <- stanford_exchange text ;;
  st <- foreach items stanford_tag_step ([], []) ;;
  locate_tagged parsed_text 0 (fst st).

(** [Stanford.run]: [self.result] is assigned first; an exception after the
    connection ends the thread and leaves it as it is. *)
Definition Stanford_run (parsed_text : pystr)
  (self_result : option backend_results) : option backend_results :=
  let self_result := Some [(stanford, [])] in
  let text := replace_char 10%N space parsed_text in
  if negb (connect_loop stanford_connect 10 0) then Some [(stanford, [])]
  else
    match Stanford_body parsed_text text with
    | Ret result => Some [(stanford, result)]
    | Raise _ => self_result
    end.

Definition Stanford_join (self_result : option backend_results)
  : outcome backend_results :=
  match self_result with
  | Some result => Ret result
  | None => Raise (AttributeError (u "result"))
  end.

Definition Stanford (parsed_text : pystr) : outcome backend_results :=
  Stanford_join (Stanford_run parsed_text None).

(** Lines 338-346, for one entity of a sentence. *)
Definition polyglot_buffer_step (st : list polyglot_entity * Z)
  (entity : polyglot_entity) : outcome (list polyglot_entity * Z) :=
  let (entity_buffer, prev_entity_start) := st in
  if negb (existsb (fun e => entity_eqb e entity) entity_buffer) then
    if negb (prev_entity_start =? pe_start entity) then
      Ret (entity_buffer ++ [entity], pe_start entity)
    else
      entity_buffer <- pop entity_buffer ;;
      Ret (entity_buffer ++ [entity], prev_entity_start)
  else Ret (entity_buffer, prev_entity_start).

(** Lines 335-349, for one sentence. *)
Definition polyglot_sentence_step (buffer_all : list polyglot_entity)
  (sent : list polyglot_entity) : outcome (list polyglot_entity) :=
  st <- foreach sent polyglot_buffer_step ([], -1) ;;
  Ret (buffer_all ++ fst st).

(** Lines 352-357, for one entity of [buffer_all]. *)
Definition polyglot_result_step (result : list (pystr * pystr))
  (entity : polyglot_entity) : outcome (list (pystr * pystr)) :=
  words <- pe_words entity ;;
  tag <- getitem (split_on hyphen (pe_tag entity)) 1 ;;
  Ret (result ++ [(join space words, translate lower tag)]).

(** The [try] block of [Polyglot.run]. *)
Definition Polyglot_body (parsed_text : pystr) : outcome (list raw_entity) :=
  sentences <- polyglot_engine parsed_text ;;
  buffer_all <- foreach sentences polyglot_sentence_step [] ;;
  result <- foreach buffer_all polyglot_result_step [] ;;
  Ret (locate parsed_text 0 result).

Definition Polyglot_run (parsed_text : pystr)
  (self_result : option backend_results) : option backend_results :=
  let result :=
    match Polyglot_body parsed_text with
    | Ret result => result
    | Raise _ => []
    end in
  Some [(polyglot, result)].

Definition Polyglot_join (self_result : option backend_results)
  : outcome backend_results :=
  match self_result with
  | Some result => Ret result
  | None => Raise (AttributeError (u "result"))
  end.

Definition Polyglot (parsed_text : pystr) : outcome backend_results :=
  Polyglot_join (Polyglot_run parsed_text None).
End MoreAdapters.

(** ** [ocr_to_dict] *)

(** Lines 733-735: the three replacements, in this order. *)
Definition escape (text : pystr) : pystr :=
  replace_char 60%N (u "&lt;")
    (replace_char 62%N (u "&gt;")
       (replace_char 38%N (u "&amp;") text)).

(** Lines 738-740 and 742-744: the list under [key] is created when it is
    missing, and [text] is appended to it. *)
Definition ocr_append (parsed_text : list (pystr * list pystr))
  (key text : pystr) : list (pystr * list pystr) :=
  let parsed_text :=
    match dict_get pystr_eq_dec parsed_text key with
    | None => dict_set pystr_eq_dec parsed_text key []
    | Some _ => parsed_text
    end in
  match dict_get pystr_eq_dec parsed_text key with
  | Some texts => dict_set pystr_eq_dec parsed_text key (texts ++ [text])
  | None => parsed_text
  end.

Section Ocr.
(** What [requests.get] returns: the status code and the content. *)
Variable content : Type.
(** The calls of [requests.get], numbered from 0. *)
Variable http_get : nat -> outcome (Z * content).
(** Lines 718-725: the content decoded and parsed, the elements in document
    order. *)
Variable parse : content -> outcome (list xml_item).
(** The assignment [item.text = s] on an element of lxml: the library
    refuses a string that XML cannot hold (a control character, say) with
    ValueError; [item.text] then reads [s] back. *)
Variable set_text : pystr -> outcome unit.

(** Lines 733-735 on one element: each replacement is assigned to
    [item.text]. *)
Definition ocr_escape (text : pystr) : outcome pystr :=
  let text := replace_char 38%N (u "&amp;") text in
  _ <- set_text text ;;
  let text := replace_char 62%N (u "&gt;") text in
  _ <- set_text text ;;
  let text := replace_char 60%N (u "&lt;") text in
  _ <- set_text text ;;
  Ret text.

(** Lines 729-744, for one element: an element without text, or with the
    empty text, is skipped. *)
Definition ocr_step (parsed_text : list (pystr * list pystr))
  (item : xml_item) : outcome (list (pystr * list pystr)) :=
  match snd item with
  | Some (c :: text) =>
      text <- ocr_escape (c :: text) ;;
      if pystr_eq_dec (fst item) (u "title")
      then Ret (ocr_append parsed_text (u "title") text)
      else Ret (ocr_append parsed_text (u "p") text)
  | _ => Ret parsed_text
  end.

(** Lines 727-749: from the elements to the dict of joined texts. *)
Definition ocr_collect (items : list xml_item)
  : outcome (list (pystr * pystr)) :=
  parsed_text <- foreach items ocr_step [] ;;
  Ret (map (fun kv => (fst kv, concat (snd kv))) parsed_text).

(** The loop of lines 707-716, from call number [call] on; None when [fuel]
    calls did not end it. *)
Fixpoint fetch_loop (fuel : nat) (call : nat) (retry : Z)
  : option (Z * content) :=
  match fuel with
  | O => None
  | S fuel' =>
      match http_get call with
      | Raise _ => fetch_loop fuel' (S call) retry
      | Ret req =>
          if (fst req =? 200) || (50 <? retry + 1) then Some req
          else fetch_loop fuel' (S call) (retry + 1)
      end
  end.

(** [ocr_to_dict]; None when [fuel] calls did not end the loop. *)
Definition ocr_to_dict (fuel : nat) : option (outcome (list (pystr * pystr))) :=
  match fetch_loop fuel 0 0 with
  | None => None
  | Some req => Some (items <- parse (snd req) ;; ocr_collect items)
  end.
End Ocr.

(** ** [Spotlight.run], [intergrate_results] and [index] on these values *)

Section SpotlightJson.
(** [int(x)] *)
Variable int_of : json -> outcome Z.
(** [requests.get] and [response.json()] of one attempt, by its number. *)
Variable spotlight_get : Z -> outcome json.

(** Lines 470-474, for one item of the resources. *)
Definition spotlight_item (result : list pyentity) (item : json)
  : outcome (list pyentity) :=
  surface_form <- json_get item (u "@surfaceForm") ;;
  offset <- json_get item (u "@offset") ;;
  pos <- int_of offset ;;
  Ret (result ++ [mk_pyentity surface_form (Some pos) (u "other")]).

(** Lines 466-474 on the decoded answer. *)
Definition spotlight_resources (data : json) : outcome (list pyentity) :=
  let result := [] in
  if json_truthy data then
    resources <- json_get data (u "Resources") ;;
    if json_truthy resources then
      items <- json_iter resources ;;
      foreach items spotlight_item result
    else Ret result
  else Ret result.

(** The retry loop of [Spotlight.run], lines 458-480, on the decoded
    answers; [fuel] is [max_retry - retry]. *)
Fixpoint Spotlight_json_loop (fuel : nat) (retry : Z)
  (self_result : option results_any) : option results_any :=
  match fuel with
  | O => self_result
  | S fuel' =>
      match (data <- spotlight_get retry ;; spotlight_resources data) with
      | Ret result => Some [(spotlight, result)]
      | Raise _ =>
          Spotlight_json_loop fuel' (retry + 1) (Some [(spotlight, [])])
      end
  end.

Definition Spotlight_json_run (self_result : option results_any)
  : option results_any :=
  Spotlight_json_loop 10 0 self_result.

Definition Spotlight_json_join (self_result : option results_any)
  : outcome results_any :=
  match self_result with
  | Some result => Ret result
  | None => Raise (AttributeError (u "result"))
  end.

Definition Spotlight_json : outcome results_any :=
  Spotlight_json_join (Spotlight_json_run None).
End SpotlightJson.

(** A value of [new_result], with any value for "ne" and "alt_ne". *)
Record entry_any := mk_entry_any {
  a_count : Z;
  a_ne : json;
  a_ner_src : list pystr;
  a_type : hist;
  a_pref_type : option pystr;
  a_alt_ne : option json
}.

(** [new_result]: a key is an offset, or None for entities without "pos". *)
Definition registry_any := list (option Z * entry_any).

Definition key_eq_dec (a b : option Z) : {a = b} + {a <> b} :=
  match a as a', b as b' return {a' = b'} + {a' <> b'} with
  | Some x, Some y =>
      match Z.eq_dec x y with
      | left e => left (f_equal Some e)
      | right n =>
          right (fun H : Some x = Some y =>
                   n (f_equal (fun k => match k with
                                        | Some z => z
                                        | None => x
                                        end) H))
      end
  | None, None => left eq_refl
  | Some x, None =>
      right (fun H : Some x = None =>
               eq_ind (Some x)
                 (fun k => match k with Some _ => True | None => False end)
                 I None H)
  | None, Some y =>
      right (fun H : None = Some y =>
               eq_ind None
                 (fun k => match k with Some _ => False | None => True end)
                 I (Some y) H)
  end.

(** An element of the returned list. *)
Record aggregated_any := mk_aggregated_any {
  g_count : Z;
  g_ne : json;
  g_ner_src : list pystr;
  g_alt_ne : option json;
  g_types : list pystr;
  g_type : pystr;
  g_type_certainty : Z;
  g_left_context : pystr;
  g_right_context : pystr;
  g_ne_context : json;
  g_pos : option Z;
  g_source : pystr
}.

(** The local [res]. *)
Inductive res_any :=
| ResListAny
| ResDictAny (e : entry_any).

Definition entry_any_keys (e : entry_any) : list pykey :=
  [KStr (u "count"); KStr (u "ne"); KStr (u "ner_src"); KStr (u "type")]
  ++ (match a_pref_type e with Some _ => [KStr (u "pref_type")] | None => [] end)
  ++ (match a_alt_ne e with Some _ => [KStr (u "alt_ne")] | None => [] end).

(** [k in res] for an integer or a string [k]. *)
Definition res_any_contains (k : pykey) (res : res_any) : bool :=
  match res with
  | ResListAny => false
  | ResDictAny e => existsb (pykey_eqb k) (entry_any_keys e)
  end.

(** The dict lines 492-497 and 502-507 build for an entity of a seed. *)
Definition seed_any (backend : pystr) (ne : pyentity) : entry_any :=
  {| a_count := 1;
     a_ne := p_ne ne;
     a_ner_src := [backend];
     a_type := [(p_type ne, 1)];
     a_pref_type := Some (p_type ne);
     a_alt_ne := None |}.

(** Lines 491-498. *)
Definition stanford_step_any (st : registry_any * res_any) (ne : pyentity)
  : registry_any * res_any :=
  let (new_result, _) := st in
  let res := seed_any stanford ne in
  (dict_set key_eq_dec new_result (p_pos ne) res, ResDictAny res).

(** Lines 500-516.  None is no key of [res], whose keys are strings, so an
    entity without "pos" takes the first branch. *)
Definition spotlight_step_any (st : registry_any * res_any) (ne : pyentity)
  : outcome (registry_any * res_any) :=
  let (new_result, res) := st in
  let fresh := seed_any spotlight ne in
  match p_pos ne with
  | None => Ret (dict_set key_eq_dec new_result None fresh, ResDictAny fresh)
  | Some pos =>
      if negb (res_any_contains (KInt pos) res) then
        Ret (dict_set key_eq_dec new_result (Some pos) fresh, ResDictAny fresh)
      else
        e <- match dict_get key_eq_dec new_result (Some pos) with
             | Some e => Ret e
             | None => Raise (KeyError (KInt pos))
             end ;;
        let e := {| a_count := a_count e + 1;
                    a_ne := a_ne e;
                    a_ner_src := a_ner_src e ++ [spotlight];
                    a_type := hist_incr (a_type e) (p_type ne);
                    a_pref_type := a_pref_type e;
                    a_alt_ne := a_alt_ne e |} in
        Ret (dict_set key_eq_dec new_result (Some pos) e, res)
  end.

Section AggregateAny.
(** [a == b] on two values none of which is a string. *)
Variable eq_other : json -> json -> bool.

(** [a == b]: a string equals the same string and nothing else. *)
Definition json_eqb (a b : json) : bool :=
  match a, b with
  | JStr x, JStr y => if pystr_eq_dec x y then true else false
  | JStr _, _ => false
  | _, JStr _ => false
  | _, _ => eq_other a b
  end.

(** Lines 523-545, for one entity of backend [parser]. *)
Definition parser_step_any (parser : pystr) (new_result : registry_any)
  (ne : pyentity) : registry_any :=
  match dict_get key_eq_dec new_result (p_pos ne) with
  | Some e =>
      if str_in parser (a_ner_src e) then new_result
      else
        dict_set key_eq_dec new_result (p_pos ne)
          {| a_count := a_count e + 1;
             a_ne := a_ne e;
             a_ner_src := a_ner_src e ++ [parser];
             a_type := hist_incr (a_type e) (p_type ne);
             a_pref_type := a_pref_type e;
             a_alt_ne := if json_eqb (p_ne ne) (a_ne e)
                         then a_alt_ne e else Some (p_ne ne) |}
  | None =>
      dict_set key_eq_dec new_result (p_pos ne)
        {| a_count := 1;
           a_ne := p_ne ne;
           a_ner_src := [parser];
           a_type := [(p_type ne, 1)];
           a_pref_type := None;
           a_alt_ne := None |}
  end.

(** Lines 520-545, for one backend. *)
Definition parser_pass_any (result : results_any) (new_result : registry_any)
  (parser : pystr) : registry_any :=
  match dict_get pystr_eq_dec result parser with
  | None => new_result
  | Some l => fold_left (parser_step_any parser) l new_result
  end.

(** Lines 491-545. *)
Definition merge_any (result : results_any) : outcome registry_any :=
  let new_result : registry_any := [] in
  let res := ResListAny in
  l <- iterate (dict_get pystr_eq_dec result stanford) ;;
  let '(new_result, res) := fold_left stanford_step_any l (new_result, res) in
  l <- iterate (dict_get pystr_eq_dec result spotlight) ;;
  ' (new_result, res) <- foreach l spotlight_step_any (new_result, res) ;;
  let parsers := [spacy; polyglot; flair] in
  Ret (fold_left (parser_pass_any result) parsers new_result).

(** The test of lines 549-550. *)
Definition survives_any (e : entry_any) : bool :=
  truthy (a_pref_type e) || (len (a_ner_src e) =? 2).

(** Lines 551-561: the call of [max_class]. *)
Definition resolve_type_any (e : entry_any) : outcome (pystr * Z) :=
  match a_pref_type e with
  | Some p => max_class (a_type e) p
  | None =>
      first <- getitem (dict_keys (a_type e)) 0 ;;
      max_class (a_type e) first
  end.

(** [context] on a surface form that may be any value, at a key that may
    be None: [text_org[:None]] is the whole text, and [len(ne)] and
    [pos + len(ne)] raise TypeError on a value without length and on
    None. *)
Definition context_any (text_org : pystr) (ne : json) (pos : option Z)
  (context : Z) : outcome (pystr * pystr * json) :=
  let leftof := strip (match pos with
                       | Some p => slice_to text_org p
                       | None => text_org
                       end) in
  let l_context := join space (slice_from (split leftof) (- context)) in
  n <- json_len ne ;;
  start <- match pos with
           | Some p => Ret (p + n)
           | None => Raise TypeError
           end ;;
  let rightof := strip (slice_from text_org start) in
  let r_context := join space (slice_to (split rightof) context) in
  let ne_context := ne in
  ne_context <-
    try_except
      (c <- getitem l_context (-1) ;;
       if char_in c CONTEXT_TOKENS then json_add (JStr [c]) ne_context
       else Ret ne_context)
      (Ret ne_context) ;;
  ne_context <-
    try_except
      (c <- getitem r_context 0 ;;
       if char_in c CONTEXT_TOKENS then json_add ne_context (JStr [c])
       else Ret ne_context)
      (Ret ne_context) ;;
  Ret (l_context, r_context, ne_context).

(** Lines 548-572, for the entry [e] stored under the key [ne]. *)
Definition finalize_any (source source_text : pystr) (context_len : Z)
  (final_result : list aggregated_any) (item : option Z * entry_any)
  : outcome (list aggregated_any) :=
  let (ne, e) := item in
  if survives_any e then
    ne_type <- resolve_type_any e ;;
    ' (l, r, n) <- context_any source_text (a_ne e) ne context_len ;;
    Ret (final_result ++
         [{| g_count := a_count e;
             g_ne := a_ne e;
             g_ner_src := a_ner_src e;
             g_alt_ne := a_alt_ne e;
             g_types := dict_keys (a_type e);
             g_type := fst ne_type;
             g_type_certainty := snd ne_type;
             g_left_context := l;
             g_right_context := r;
             g_ne_context := n;
             g_pos := ne;
             g_source := source |}])
  else Ret final_result.

(** The offset of an element that has one. *)
Definition pos_key (a : aggregated_any) : Z :=
  match g_pos a with
  | Some pos => pos
  | None => 0
  end.

Definition has_pos (a : aggregated_any) : bool :=
  match g_pos a with
  | Some _ => true
  | None => false
  end.

(** [sorted(l, key=operator.itemgetter('pos'))]: None cannot be compared
    with anything, and of two elements or more each is compared. *)
Definition sorted_any (l : list aggregated_any)
  : outcome (list aggregated_any) :=
  if forallb has_pos l then Ret (py_sorted pos_key l)
  else match l with
       | [_] => Ret l
       | _ => Raise TypeError
       end.

Definition intergrate_results_any (result : results_any)
  (source source_text : pystr) (context_len : Z)
  : outcome (list aggregated_any) :=
  new_result <- merge_any result ;;
  final_result <-
    foreach new_result (finalize_any source source_text context_len) [] ;;
  sorted_any final_result.
End AggregateAny.

(** ** [index]: dispatch and aggregation of one request *)

(** Line 672: the mapping a [join] returned is stored under its first key. *)
Definition collect (result : results_any)
  (join_result : outcome results_any) : outcome results_any :=
  ner_result <- join_result ;;
  k <- getitem (dict_keys ner_result) 0 ;;
  v <- dict_getitem ner_result k ;;
  Ret (dict_set pystr_eq_dec result k v).

(** Lines 670-672 over the joined tasks, in the order they were started. *)
Definition dispatch (tasks : list (outcome results_any))
  : outcome results_any :=
  foreach tasks collect [].

(** An element of [fresult]. *)
Inductive entity_json :=
| Manual (r : manual_record)
| Aggregated (a : aggregated_any).

(** What [index] answers. *)
Inductive response :=
| MissingUrl
| FailedToFetch (url : pystr)
| Entities (fresult : list entity_json) (parsed_text : list (pystr * pystr)).

Section Index.
Variable lower : pystr -> pystr.
(** The engines, by segment text. *)
Variable polyglot_engine : pystr -> outcome (list (list polyglot_entity)).
Variable entity_eqb : polyglot_entity -> polyglot_entity -> bool.
Variable spacy_engine : pystr -> list (json * json) * option exn.
Variable spotlight_get : pystr -> Z -> outcome json.
Variable stanford_connect : pystr -> Z -> outcome unit.
Variable stanford_exchange : pystr -> outcome (list xml_item).
(** [int(x)] *)
Variable int_of : json -> outcome Z.
(** [a == b] on two values none of which is a string. *)
Variable eq_other : json -> json -> bool.
(** [requests.get] on a URL, by call number; the parser and the setter of
    lxml. *)
Variable content : Type.
Variable http_get : pystr -> nat -> outcome (Z * content).
Variable parse : content -> outcome (list xml_item).
Variable set_text : pystr -> outcome unit.

(** The tasks of lines 666-668, in the order of the dict [parsers]. *)
Definition tasks (text : pystr) : list (outcome results_any) :=
  [as_any lift (Polyglot lower polyglot_engine entity_eqb text);
   Spacy lower spacy_engine text;
   Spotlight_json int_of (spotlight_get text);
   as_any lift (Stanford lower (stanford_connect text) stanford_exchange text)].

(** Lines 656-677, for one segment. *)
Definition index_part (manual : option pystr) (context_len : Z)
  (st : list entity_json * list (pystr * list aggregated_any))
  (part : pystr * pystr)
  : outcome (list entity_json * list (pystr * list aggregated_any)) :=
  let (fresult, result_all) := st in
  fresult <-
    match manual with
    | Some (c :: m) =>
        r <- manual_find (c :: m) (snd part) (fst part) context_len ;;
        Ret (fresult ++ [Manual r])
    | _ => Ret fresult
    end ;;
  result <- dispatch (tasks (snd part)) ;;
  items <- intergrate_results_any eq_other result (fst part) (snd part)
             context_len ;;
  Ret (fresult, dict_set pystr_eq_dec result_all (fst part) items).

(** Lines 653-682. *)
Definition index_entities (manual : option pystr) (context_len : Z)
  (parsed_text : list (pystr * pystr)) : outcome (list entity_json) :=
  st <- foreach parsed_text (index_part manual context_len) ([], []) ;;
  Ret (fst st ++ flat_map (fun kv => map Aggregated (snd kv)) (snd st)).

(** [index], with the three request arguments; None when [fuel] calls of
    [requests.get] did not end the loop of [ocr_to_dict]. *)
Definition index (fuel : nat) (url manual context_arg : option pystr)
  : option (outcome response) :=
  match
    match context_arg with
    | Some (c :: s) => int_of (JStr (c :: s))
    | _ => Ret 5
    end
  with
  | Raise e => Some (Raise e)
  | Ret context_len =>
      match url with
      | Some (c :: s) =>
          match ocr_to_dict content (http_get (c :: s)) parse set_text fuel with
          | None => None
          | Some (Raise _) => Some (Ret (FailedToFetch (c :: s)))
          | Some (Ret parsed_text) =>
              Some (fresult <- index_entities manual context_len parsed_text ;;
                    Ret (Entities fresult parsed_text))
          end
      | _ => Some (Ret MissingUrl)
      end
  end.
End Index.

(** ** Notions used to state further properties *)

(** The entities are at or after [cursor], one after the other, without
    overlap. *)
Fixpoint in_order (cursor : Z) (l : list raw_entity) : Prop :=
  match l with
  | [] => True
  | e :: l' => cursor <= r_pos e /\ in_order (r_pos e + len (r_ne e)) l'
  end.

(** Each entity is at the first occurrence of its surface form at or after
    the end of the one before it. *)
Fixpoint first_occurrences (text : pystr) (cursor : Z) (l : list raw_entity)
  : Prop :=
  match l with
  | [] => True
  | e :: l' =>
      occurs_at text (r_ne e) (r_pos e) /\
      r_pos e + len (r_ne e) <= len text /\
      (forall j, cursor <= j -> occurs_at text (r_ne e) j -> r_pos e <= j) /\
      first_occurrences text (r_pos e + len (r_ne e)) l'
  end.

(** [backend] reports [ne] in [result]. *)
Definition reported (result : backend_results) (backend : pystr)
  (ne : raw_entity) : Prop :=
  exists l, dict_get pystr_eq_dec result backend = Some l /\ In ne l.

(** The two backends whose entities set "pref_type". *)
Definition seeds : list pystr := [stanford; spotlight].

(** The five backends [intergrate_results] reads. *)
Definition backends : list pystr := seeds ++ corroborating.

(** What the entry [e] stored at [pos] owes to the reports of [result]. *)
Record entry_sound (result : backend_results) (pos : Z) (e : entry) : Prop := {
  es_count : e_count e = len (e_ner_src e);
  es_nodup : NoDup (e_ner_src e);
  es_alt : forall a, e_alt_ne e = Some a -> a <> e_ne e;
  es_src : forall b, In b (e_ner_src e) ->
                     In b backends /\
                     exists ne, reported result b ne /\ r_pos ne = pos;
  es_ne : exists b ne, hd_error (e_ner_src e) = Some b /\
                       reported result b ne /\ r_pos ne = pos /\
                       r_ne ne = e_ne e;
  es_type : forall t, In t (dict_keys (e_type e)) ->
                      exists b ne, In b (e_ner_src e) /\ reported result b ne /\
                                   r_pos ne = pos /\ r_type ne = t;
  es_pref : forall p, e_pref_type e = Some p ->
                      exists b, hd_error (e_ner_src e) = Some b /\ In b seeds
}.

Definition registry_sound (result : backend_results) (new_result : registry)
  : Prop :=
  forall pos e, In (pos, e) new_result -> entry_sound result pos e.

(** Two adjacent entities of the buffer never start at the same place. *)
Fixpoint starts_differ (l : list polyglot_entity) : Prop :=
  match l with
  | a :: ((b :: _) as l') => pe_start a <> pe_start b /\ starts_differ l'
  | _ => True
  end.

(** The texts of the elements that [ocr_step] files under [key], escaped. *)
Definition escaped_texts (key : pystr) (items : list xml_item) : list pystr :=
  flat_map
    (fun item =>
       match snd item with
       | Some (c :: text) =>
           if pystr_eq_dec
                (if pystr_eq_dec (fst item) (u "title") then u "title" else u "p")
                key
           then [escape (c :: text)] else []
       | _ => []
       end) items.

(** The texts of the elements other than the root, None when one has none. *)
Definition item_texts (items : list xml_item) : list (option pystr) :=
  map snd (filter (fun item => if pystr_eq_dec (fst item) (u "root")
                               then false else true) items).


(** What [intergrate_results] returns on [sample_results]. *)
Definition sample_output : aggregated :=
  {| o_count := 2;
     o_ne := u "Albert Einstein";
     o_ner_src := [stanford; spacy];
     o_alt_ne := None;
     o_types := [u "person"];
     o_type := u "person";
     o_type_certainty := 2;
     o_left_context := u "langere test bevat de naam";
     o_right_context := u ".";
     o_ne_context := u "Albert Einstein";
     o_pos := 37;
     o_source := u "p" |}.

(** The list under a key of [parsed_text], None for no text at all. *)
Definition filed (texts : list pystr) : option (list pystr) :=
  match texts with
  | [] => None
  | _ => Some texts
  end.

(** The setter takes the three strings that lines 733-735 assign for
    [text]. *)
Definition assignable (set_text : pystr -> outcome unit) (text : pystr)
  : Prop :=
  set_text (replace_char 38%N (u "&amp;") text) = Ret tt /\
  set_text (replace_char 62%N (u "&gt;")
              (replace_char 38%N (u "&amp;") text)) = Ret tt /\
  set_text (escape text) = Ret tt.

(** Every text of [items] that the loop does not skip can be assigned. *)
Definition texts_assignable (set_text : pystr -> outcome unit)
  (items : list xml_item) : Prop :=
  Forall (fun item => forall c text, snd item = Some (c :: text) ->
                                     assignable set_text (c :: text)) items.

(** A setter that refuses the control characters below 32 other than tab,
    line feed and carriage return. *)
Definition sample_set_text (s : pystr) : outcome unit :=
  if forallb (fun c => (c =? 9) || (c =? 10) || (c =? 13) || (32 <=? c))%N s
  then Ret tt else Raise ValueError.

(** A title and two paragraphs under an element without text. *)
Definition sample_items : list xml_item :=
  [(u "text", None); (u "title", Some (u "EERSTE"));
   (u "p", Some (u "a<b")); (u "p", Some (u "c"))].

(** [backend] reports an entity at [pos]. *)
Definition reports (result : backend_results) (backend : pystr) (pos : Z)
  : bool :=
  match dict_get pystr_eq_dec result backend with
  | Some l => existsb (fun ne => r_pos ne =? pos) l
  | None => false
  end.

(** The "ner_src" of the entry at [pos], empty when there is none. *)
Definition sources_at (new_result : registry) (pos : Z) : list pystr :=
  match dict_get Z.eq_dec new_result pos with
  | Some e => e_ner_src e
  | None => []
  end.

(** The seed whose entry stands at [pos] after the first two passes,
    followed by the backends of the third pass that report [pos]. *)
Definition counted_sources (result : backend_results) (pos : Z) : list pystr :=
  (if reports result spotlight pos then [spotlight]
   else if reports result stanford pos then [stanford]
   else [])
  ++ filter (fun b => reports result b pos) corroborating.

(** [parser] joins the sources unless it is among them. *)
Definition add_source (parser : pystr) (sources : list pystr) : list pystr :=
  if str_in parser sources then sources else sources ++ [parser].

(** The surface form is a string. *)
Definition str_form (ne : pyentity) : Prop := exists s, p_ne ne = JStr s.

(** The offset loop has reached the entry: it has an offset, of at least
    -1, and its surface form is a string. *)
Definition located (ne : pyentity) : Prop :=
  str_form ne /\ exists pos, p_pos ne = Some pos /\ -1 <= pos.

(** The entries before the first whose "ne" is no string. *)
Fixpoint str_prefix (result : list (json * pystr)) : list (pystr * pystr) :=
  match result with
  | (JStr ne, ty) :: rest => (ne, ty) :: str_prefix rest
  | _ => []
  end.

(** *** The entities of the functions above among those of the services *)

Definition lift_entry (e : entry) : entry_any :=
  {| a_count := e_count e;
     a_ne := JStr (e_ne e);
     a_ner_src := e_ner_src e;
     a_type := e_type e;
     a_pref_type := e_pref_type e;
     a_alt_ne := option_map JStr (e_alt_ne e) |}.

Definition lift_registry (new_result : registry) : registry_any :=
  map (fun it => (Some (fst it), lift_entry (snd it))) new_result.

Definition lift_res (res : res_value) : res_any :=
  match res with
  | ResList => ResListAny
  | ResDict e => ResDictAny (lift_entry e)
  end.

Definition lift_out (o : aggregated) : aggregated_any :=
  {| g_count := o_count o;
     g_ne := JStr (o_ne o);
     g_ner_src := o_ner_src o;
     g_alt_ne := option_map JStr (o_alt_ne o);
     g_types := o_types o;
     g_type := o_type o;
     g_type_certainty := o_type_certainty o;
     g_left_context := o_left_context o;
     g_right_context := o_right_context o;
     g_ne_context := JStr (o_ne_context o);
     g_pos := Some (o_pos o);
     g_source := o_source o |}.

(** The key is an offset. *)
Definition keyed (it : option Z * entry_any) : bool :=
  match fst it with
  | Some _ => true
  | None => false
  end.

(** [new_result] holds under its offsets what [reg] holds, and under None
    at most an entry that spaCy alone reported. *)
Definition simulates (new_result : registry_any) (reg : registry) : Prop :=
  filter keyed new_result = lift_registry reg /\
  Forall (fun it => fst it = None ->
                    a_pref_type (snd it) = None /\
                    a_ner_src (snd it) = [spacy]) new_result.

(** What [Spotlight.run] gives each entity: an integer offset and the type
    "other". *)
Definition spotlight_made (ne : pyentity) : Prop :=
  (exists pos, p_pos ne = Some pos) /\ p_type ne = u "other".

(** The list of spaCy: the entries the offset loop reached, as [typed] gives
    them, and then entries without offset. *)
Definition spacy_shape (ls : list pyentity) (typed : list raw_entity)
  : Prop :=
  exists rest,
    ls = map lift typed ++ rest /\ Forall (fun e => p_pos e = None) rest.

(** Both elements have an offset, the first the smaller one. *)
Definition pos_lt (a b : aggregated_any) : Prop :=
  match g_pos a, g_pos b with
  | Some x, Some y => x < y
  | _, _ => False
  end.

(** An [int] for the examples: an integer is itself, a string of decimal
    digits its value. *)
Definition sample_int (x : json) : outcome Z :=
  match x with
  | JInt z => Ret z
  | JStr (c :: s) =>
      if forallb (fun d => (48 <=? d) && (d <=? 57))%N (c :: s)
      then Ret (fold_left (fun acc d => 10 * acc + (Z.of_N d - 48)) (c :: s) 0)
      else Raise ValueError
  | JStr [] => Raise ValueError
  | _ => Raise TypeError
  end.

(** An answer of spotlight with one resource. *)
Definition sample_answer (surface_form : json) : json :=
  JDict [(u "Resources",
          JList [JDict [(u "@URI", JStr (u "http://nl.dbpedia.org/resource/Albert_Einstein"));
                        (u "@surfaceForm", surface_form);
                        (u "@offset", JStr (u "37"))]])].

(** Lines 111-112. *)
Definition EXAMPLE_URL : pystr :=
  u "http://resolver.kb.nl/resolve?urn=ddd:010381561:mpeg21:a0049:ocr".

(** A service on a one-segment document, fetched at the second call: spaCy
    fails after one entity, polyglot fails, stanford cannot be reached, and
    spotlight answers at its third attempt, with [surface_form]. *)
Definition sample_index (surface_form : json) (fuel : nat)
  (url manual context_arg : option pystr) : option (outcome response) :=
  index (fun s => s)
    (fun _ => Raise EngineError) (fun _ _ => false)
    (fun _ => ([(JStr (u "Albert Einstein"), JStr (u "per"))], Some EngineError))
    (fun _ n => if n <? 2 then Raise EngineError
                else Ret (sample_answer surface_form))
    (fun _ _ => Raise EngineError) (fun _ => Raise EngineError)
    sample_int (fun _ _ => false)
    (list xml_item)
    (fun _ k => Ret (if (k =? 1)%nat then 200 else 503,
                     [(u "p", Some sample_text)]))
    (fun c => Ret c) sample_set_text
    fuel url manual context_arg.

(** What the four joins hand over in that service. *)
Definition sample_dispatched (surface_form : json) : results_any :=
  [(polyglot, []);
   (spacy, [mk_pyentity (JStr (u "Albert Einstein")) None (u "person")]);
   (spotlight, [mk_pyentity surface_form (Some 37) (u "other")]);
   (stanford, [])].


(** The tasks of that service. *)
Definition sample_tasks (surface_form : json) (text : pystr)
  : list (outcome results_any) :=
  tasks (fun s => s)
    (fun _ => Raise EngineError) (fun _ _ => false)
    (fun _ => ([(JStr (u "Albert Einstein"), JStr (u "per"))], Some EngineError))
    (fun _ n => if n <? 2 then Raise EngineError
                else Ret (sample_answer surface_form))
    (fun _ _ => Raise EngineError) (fun _ => Raise EngineError)
    sample_int text.

(** [len] raises on the value. *)
Definition unsized (x : json) : Prop := json_len x = Raise TypeError.

(** The entry under the key [k] is one of a seed, with a surface form
    that has no length. *)
Definition unsized_seed_at (k : option Z) (new_result : registry_any) : Prop :=
  exists e,
    dict_get key_eq_dec new_result k = Some e /\
    unsized (a_ne e) /\ truthy (a_pref_type e) = true.

(** * Properties *)

(** ** Whitespace tokens *)

Lemma scan_spaces (ws : pystr) :
  Forall (fun c => is_space c = true) ws -> scan ws = ([], []).
Proof.
  induction 1 as [|c ws Hc _ IH]; simpl; [reflexivity|].
  now rewrite IH, Hc.
Qed.

Lemma scan_app_spaces (a ws : pystr) :
  Forall (fun c => is_space c = true) ws -> scan (a ++ ws) = scan a.
Proof.
  intros H. induction a as [|c a IH]; simpl.
  - now apply scan_spaces.
  - now rewrite IH.
Qed.

Lemma split_cons_space (c : char) (s : pystr) :
  is_space c = true -> split (c :: s) = split s.
Proof.
  intros Hc. unfold split. simpl. destruct (scan s) as [tok rest].
  now rewrite Hc.
Qed.

Lemma lstrip_decomp (s : pystr) :
  exists ws, s = ws ++ lstrip s /\ Forall (fun c => is_space c = true) ws.
Proof.
  induction s as [|c s (ws & E & F)]; simpl.
  - now exists [].
  - destruct (is_space c) eqn:Hc.
    + exists (c :: ws). split; [simpl; congruence|now constructor].
    + now exists [].
Qed.

Lemma split_lstrip (s : pystr) : split (lstrip s) = split s.
Proof.
  induction s as [|c s IH]; simpl; [reflexivity|].
  destruct (is_space c) eqn:Hc; [|reflexivity].
  now rewrite split_cons_space.
Qed.

Lemma split_rstrip (s : pystr) : split (rstrip s) = split s.
Proof.
  unfold rstrip.
  destruct (lstrip_decomp (rev s)) as (ws & E & F).
  assert (Hs : s = rev (lstrip (rev s)) ++ rev ws).
  { rewrite <- rev_app_distr, <- E. now rewrite rev_involutive. }
  rewrite Hs at 2. unfold split.
  rewrite scan_app_spaces; [reflexivity|].
  apply Forall_rev, F.
Qed.

Lemma split_strip (s : pystr) : split (strip s) = split s.
Proof. unfold strip. now rewrite split_rstrip, split_lstrip. Qed.

Lemma push_tokens (tok : pystr) (rest : list pystr) :
  Forall (fun c => is_space c = false) tok -> Forall token rest ->
  Forall token (push tok rest).
Proof.
  intros Ht Hr. destruct tok; simpl; [assumption|].
  constructor; [|assumption]. split; [discriminate|assumption].
Qed.

Lemma scan_tokens (s : pystr) :
  Forall (fun c => is_space c = false) (fst (scan s)) /\
  Forall token (snd (scan s)).
Proof.
  induction s as [|c s [IH1 IH2]]; simpl; [now split|].
  destruct (scan s) as [tok rest]; simpl in *.
  destruct (is_space c) eqn:Hc; simpl; split; auto.
  now apply push_tokens.
Qed.

Lemma split_tokens (s : pystr) : Forall token (split s).
Proof.
  unfold split. destruct (scan_tokens s) as [H1 H2].
  destruct (scan s). now apply push_tokens.
Qed.

Lemma scan_app_token (t s : pystr) :
  Forall (fun c => is_space c = false) t ->
  scan (t ++ s) = (t ++ fst (scan s), snd (scan s)).
Proof.
  induction 1 as [|c t Hc _ IH]; simpl.
  - now destruct (scan s).
  - now rewrite IH, Hc.
Qed.

Lemma is_space_32 : is_space 32%N = true.
Proof. reflexivity. Qed.

Lemma scan_cons_space (c : char) (s : pystr) :
  is_space c = true -> scan (c :: s) = ([], split s).
Proof.
  intros Hc. unfold split. simpl. destruct (scan s). now rewrite Hc.
Qed.

Lemma split_join (ts : list pystr) :
  Forall token ts -> split (join space ts) = ts.
Proof.
  induction 1 as [|t ts [Hne Ht] Hts IH]; [reflexivity|].
  destruct ts as [|t' ts'].
  - simpl. unfold split. rewrite <- (app_nil_r t) at 1.
    rewrite scan_app_token by assumption. simpl. rewrite app_nil_r.
    destruct t; [contradiction|reflexivity].
  - change (join space (t :: t' :: ts'))
      with (t ++ 32%N :: join space (t' :: ts')).
    unfold split at 1. rewrite scan_app_token by assumption.
    rewrite scan_cons_space by apply is_space_32.
    cbn [fst snd]. rewrite app_nil_r, IH.
    destruct t; [contradiction|reflexivity].
Qed.

Lemma concat_push (tok : pystr) (rest : list pystr) :
  concat (push tok rest) = tok ++ concat rest.
Proof. now destruct tok. Qed.

Lemma concat_split (s : pystr) : concat (split s) = filter nonspace s.
Proof.
  unfold split.
  assert (H : fst (scan s) ++ concat (snd (scan s)) = filter nonspace s).
  { induction s as [|c s IH]; [reflexivity|]. simpl.
    destruct (scan s) as [tok rest]. unfold nonspace at 1.
    destruct (is_space c); simpl in *.
    - now rewrite concat_push.
    - now rewrite IH. }
  destruct (scan s). now rewrite concat_push.
Qed.

(** ** Indexing *)

Lemma getitem_last {A} (l : list A) :
  getitem l (-1) =
  match hd_error (rev l) with
  | Some x => Ret x
  | None => Raise IndexError
  end.
Proof.
  unfold getitem, len. destruct l as [|a l'] using rev_ind; [reflexivity|].
  rewrite rev_app_distr, length_app. simpl.
  replace (Z.of_nat (length l' + 1) + -1) with (Z.of_nat (length l')) by lia.
  destruct (Z.ltb_spec (Z.of_nat (length l')) 0); [lia|].
  rewrite Nat2Z.id, nth_error_app2, Nat.sub_diag by lia. reflexivity.
Qed.

Lemma getitem_first {A} (l : list A) :
  getitem l 0 =
  match hd_error l with
  | Some x => Ret x
  | None => Raise IndexError
  end.
Proof. now destruct l. Qed.

(** ** The shape of what [context] returns *)

Lemma context_eq (text_org ne : pystr) (pos W : Z) :
  context text_org ne pos W =
  Ret (left_window text_org pos W,
       right_window text_org ne pos W,
       boundary (hd_error (rev (left_window text_org pos W))) ++ ne
       ++ boundary (hd_error (right_window text_org ne pos W))).
Proof.
  unfold context. fold (left_window text_org pos W).
  fold (right_window text_org ne pos W).
  rewrite getitem_last, getitem_first.
  cbv [bind try_except boundary].
  destruct (hd_error (rev (left_window text_org pos W))) as [c|];
    destruct (hd_error (right_window text_org ne pos W)) as [d|];
    try destruct (char_in c CONTEXT_TOKENS);
    try destruct (char_in d CONTEXT_TOKENS);
    cbn [app]; rewrite ?app_nil_r; reflexivity.
Qed.

Lemma Forall_skipn {A} (P : A -> Prop) (n : nat) (l : list A) :
  Forall P l -> Forall P (skipn n l).
Proof.
  intros H. rewrite <- (firstn_skipn n l) in H.
  now apply Forall_app in H.
Qed.

Lemma Forall_firstn {A} (P : A -> Prop) (n : nat) (l : list A) :
  Forall P l -> Forall P (firstn n l).
Proof.
  intros H. rewrite <- (firstn_skipn n l) in H.
  now apply Forall_app in H.
Qed.

Lemma split_left_window (text_org : pystr) (pos W : Z) :
  split (left_window text_org pos W) =
  slice_from (split (slice_to text_org pos)) (- W).
Proof.
  unfold left_window. rewrite split_strip.
  apply split_join, Forall_skipn, split_tokens.
Qed.

Lemma split_right_window (text_org ne : pystr) (pos W : Z) :
  split (right_window text_org ne pos W) =
  slice_to (split (slice_from text_org (pos + len ne))) W.
Proof.
  unfold right_window. rewrite split_strip.
  apply split_join, Forall_firstn, split_tokens.
Qed.

Lemma slice_to_in_range {A} (l : list A) (i : Z) :
  0 <= i <= len l -> slice_to l i = firstn (Z.to_nat i) l.
Proof.
  unfold slice_to, clamp, len. intros H.
  destruct (Z.ltb_spec i 0); [lia|]. f_equal. lia.
Qed.

Lemma slice_from_nonneg {A} (l : list A) (i : Z) :
  0 <= i -> slice_from l i = skipn (Z.to_nat i) l.
Proof.
  unfold slice_from, clamp. intros H.
  destruct (Z.ltb_spec i 0); [lia|].
  destruct (Nat.le_gt_cases (Z.to_nat i) (length l)).
  - f_equal. lia.
  - rewrite Nat.min_r by lia. now rewrite !skipn_all2 by lia.
Qed.

Lemma len_slice_from_neg {A} (l : list A) (W : Z) :
  0 <= W -> len (slice_from l (- W)) <= W \/ W = 0.
Proof.
  unfold slice_from, clamp, len. intros H.
  destruct (Z.ltb_spec (- W) 0); [left|right; lia].
  rewrite length_skipn. lia.
Qed.

Lemma len_slice_to {A} (l : list A) (W : Z) :
  0 <= W -> len (slice_to l W) <= W.
Proof.
  unfold slice_to, clamp, len. intros H.
  destruct (Z.ltb_spec W 0); [lia|].
  rewrite length_firstn. lia.
Qed.

(** ** The boundary characters *)

Lemma hd_error_app_ne {A} (a b : list A) :
  a <> [] -> hd_error (a ++ b) = hd_error a.
Proof. destruct a; [contradiction|reflexivity]. Qed.

Lemma join_snoc (sep : pystr) (ts : list pystr) (t : pystr) :
  exists pre, join sep (ts ++ [t]) = pre ++ t.
Proof.
  induction ts as [|a ts (pre & E)].
  - now exists [].
  - destruct ts as [|b ts'].
    + exists (a ++ sep). simpl. now rewrite <- app_assoc.
    + exists (a ++ sep ++ pre).
      change (join sep ((a :: b :: ts') ++ [t]))
        with (a ++ sep ++ join sep ((b :: ts') ++ [t])).
      rewrite E. now rewrite <- !app_assoc.
Qed.

Lemma join_cons (sep : pystr) (t : pystr) (ts : list pystr) :
  exists post, join sep (t :: ts) = t ++ post.
Proof.
  destruct ts as [|b ts'].
  - exists []. simpl. now rewrite app_nil_r.
  - now exists (sep ++ join sep (b :: ts')).
Qed.

Lemma last_of_left_window (s : pystr) (W : Z) :
  1 <= W ->
  hd_error (rev (join space (slice_from (split s) (- W)))) = last_nonspace s.
Proof.
  intros HW. unfold last_nonspace. rewrite <- concat_split.
  pose proof (split_tokens s) as Htok.
  destruct (split s) as [|t ts _] using rev_ind;
    [unfold slice_from; now rewrite skipn_nil|].
  apply Forall_app in Htok. destruct Htok as [_ Ht].
  inversion Ht as [|? ? [Hne _] _]; subst.
  unfold slice_from, clamp. destruct (Z.ltb_spec (- W) 0); [|lia].
  rewrite length_app. simpl.
  rewrite skipn_app.
  replace (Z.to_nat (Z.max 0 (Z.of_nat (length ts + 1) + - W)) - length ts)%nat
    with 0%nat by lia.
  simpl skipn.
  destruct (join_snoc space
              (skipn (Z.to_nat (Z.max 0 (Z.of_nat (length ts + 1) + - W))) ts) t)
    as (pre & E).
  rewrite E, rev_app_distr, concat_app, rev_app_distr. simpl concat.
  rewrite app_nil_r.
  rewrite !hd_error_app_ne; [reflexivity| |];
    intros C; apply (f_equal (@rev char)) in C;
    rewrite rev_involutive in C; now apply Hne.
Qed.

Lemma first_of_right_window (s : pystr) (W : Z) :
  1 <= W ->
  hd_error (join space (slice_to (split s) W)) = first_nonspace s.
Proof.
  intros HW. unfold first_nonspace. rewrite <- concat_split.
  pose proof (split_tokens s) as Htok.
  destruct (split s) as [|t ts]; [unfold slice_to; now rewrite firstn_nil|].
  inversion Htok as [|? ? [Hne _] _]; subst.
  unfold slice_to, clamp. destruct (Z.ltb_spec W 0); [lia|].
  destruct (Nat.min (Z.to_nat W) (length (t :: ts))) as [|n] eqn:En;
    [simpl in En; lia|].
  simpl firstn. destruct (join_cons space t (firstn n ts)) as (post & E).
  rewrite E. simpl concat. now rewrite !hd_error_app_ne.
Qed.

(** ** The context extractor *)

Lemma slice_from_past_end {A} (l : list A) (i : Z) :
  len l <= i -> slice_from l i = [].
Proof.
  unfold slice_from, clamp, len. intros H.
  destruct (Z.ltb_spec i 0); [lia|]. apply skipn_all2. lia.
Qed.

Lemma slice_to_before_start {A} (l : list A) (i : Z) :
  i <= - len l -> slice_to l i = [].
Proof.
  unfold slice_to, clamp, len. intros H.
  replace (if i <? 0 then Z.to_nat (Z.max 0 (Z.of_nat (length l) + i))
           else Nat.min (Z.to_nat i) (length l)) with 0%nat
    by (destruct (Z.ltb_spec i 0); lia).
  reflexivity.
Qed.

(** C6, as amended: [context] returns for every text, surface form, window
    size and integer offset and never raises.  For an offset at or past the
    end of the text the right context is the empty string, and for an offset
    at or below [-len(text)] the left context is the empty string; the other
    context of an out-of-range offset need not be empty. *)
Theorem context_total (text_org ne : pystr) (pos W : Z) :
  exists l r n,
    context text_org ne pos W = Ret (l, r, n) /\
    (len text_org <= pos -> r = []) /\
    (pos <= - len text_org -> l = []).
Proof.
  rewrite context_eq. do 3 eexists. split; [reflexivity|]. split.
  - intros H. unfold right_window.
    rewrite slice_from_past_end by (unfold len in *; lia).
    unfold slice_to. cbn. now rewrite firstn_nil.
  - intros H. unfold left_window. rewrite slice_to_before_start by assumption.
    unfold slice_from. cbn. now rewrite skipn_nil.
Qed.

(** Offset 10 in the three-character text "a b". *)
Lemma context_total_witness :
  exists l r n,
    context (u "a b") (u "x") 10 5 = Ret (l, r, n) /\ r = [].
Proof.
  destruct (context_total (u "a b") (u "x") 10 5) as (l & r & n & E & Hr & _).
  exists l, r, n. split; [exact E|]. apply Hr. vm_compute. discriminate.
Defined.

(** C6 as stated fails: offset 10 is outside the three-character text
    "a b", and the left context returned is "a b", not the empty string. *)
Lemma context_out_of_range_counterexample :
  context (u "a b") (u "x") 10 5 = Ret (u "a b", [], u "x")
  /\ ~ (0 <= 10 < len (u "a b"))
  /\ u "a b" <> [].
Proof.
  split; [reflexivity|]. split; [vm_compute; intros [_ H]; discriminate H|].
  discriminate.
Qed.

(** For an offset inside the text, the left context is made of tokens that
    are the last tokens of T[:P], at most W of them when the window size W
    is at least 1, and the right context of tokens that are the first tokens
    of T[P+len(S):], at most W of them when W is at least 0; each context is
    its tokens joined by single spaces, so neither holds a character of the
    span. *)
Lemma context_windows (T S : pystr) (P W : Z) :
  0 <= P < len T ->
  exists l r n,
    context T S P W = Ret (l, r, n) /\
    l = join space (split l) /\
    (exists before, split (firstn (Z.to_nat P) T) = before ++ split l) /\
    (1 <= W -> len (split l) <= W) /\
    r = join space (split r) /\
    (exists after,
       split (skipn (Z.to_nat (P + len S)) T) = split r ++ after) /\
    (0 <= W -> len (split r) <= W).
Proof.
  intros HP. rewrite context_eq. do 3 eexists. split; [reflexivity|].
  rewrite split_left_window, split_right_window.
  rewrite (slice_to_in_range T P) by lia.
  rewrite (slice_from_nonneg T (P + len S)) by (unfold len in *; lia).
  repeat split.
  - unfold left_window. rewrite split_strip.
    now rewrite (slice_to_in_range T P) by lia.
  - unfold slice_from. eexists. symmetry. apply firstn_skipn.
  - intros HW.
    destruct (len_slice_from_neg (split (firstn (Z.to_nat P) T)) W); lia.
  - unfold right_window. rewrite split_strip.
    now rewrite (slice_from_nonneg T (P + len S)) by (unfold len in *; lia).
  - unfold slice_to. eexists. symmetry. apply firstn_skipn.
  - apply len_slice_to.
Qed.

(** The window of one token around "Albert Einstein". *)
Lemma context_windows_example :
  exists l r n,
    context (u "de naam Albert Einstein . Hij") (u "Albert Einstein") 8 1
    = Ret (l, r, n) /\ len (split l) <= 1 /\ len (split r) <= 1.
Proof.
  destruct (context_windows (u "de naam Albert Einstein . Hij")
              (u "Albert Einstein") 8 1)
    as (l & r & n & E & _ & _ & Hl & _ & _ & Hr).
  - vm_compute. split; [discriminate|reflexivity].
  - exists l, r, n. split; [exact E|]. split; [apply Hl|apply Hr]; lia.
Qed.

(** C7 fails on the code for the window size 0.  The slice [[-context:]] of
    line 142 is then [[-0:]], which is [[0:]] and keeps every token: for every
    offset inside the text the left context holds all the tokens of T[:P],
    not at most 0 of them, while the right context, cut by [[:0]], is
    empty. *)
Theorem context_zero_window_keeps_left_tokens (T S : pystr) (P : Z) :
  0 <= P < len T ->
  exists l n,
    context T S P 0 = Ret (l, [], n) /\
    split l = split (firstn (Z.to_nat P) T).
Proof.
  intros HP. rewrite context_eq.
  assert (Hr : right_window T S P 0 = []) by reflexivity.
  rewrite Hr. do 2 eexists. split; [reflexivity|].
  rewrite split_left_window, (slice_to_in_range T P) by lia.
  reflexivity.
Qed.

(** The left context of "X" at offset 4 of "a b X" has two tokens for the
    window size 0. *)
Lemma context_zero_window_keeps_left_tokens_witness :
  exists l n,
    context (u "a b X") (u "X") 4 0 = Ret (l, [], n) /\
    len (split l) = 2 /\ ~ (len (split l) <= 0).
Proof.
  destruct (context_zero_window_keeps_left_tokens (u "a b X") (u "X") 4)
    as (l & n & E & H).
  - vm_compute. split; [discriminate|reflexivity].
  - exists l, n. split; [exact E|]. rewrite H.
    split; [reflexivity|]. vm_compute. intros C. now apply C.
Defined.

(** C8, as amended: for every window size, [ne_context] is S, prefixed with
    the last character of the returned left context exactly when that context
    is not empty and the character is in CONTEXT_TOKENS, and suffixed with the
    first character of the returned right context exactly when that context
    is not empty and the character is in CONTEXT_TOKENS; nothing else is
    attached.  For a window size of at least 1 these two characters are the
    last non-whitespace character of the text before P and the first
    non-whitespace character of the text from P+len(S) on. *)
Theorem ne_context_boundaries (T S : pystr) (P W : Z) :
  exists l r,
    context T S P W =
    Ret (l, r, boundary (hd_error (rev l)) ++ S ++ boundary (hd_error r)) /\
    (1 <= W ->
     hd_error (rev l) = last_nonspace (slice_to T P) /\
     hd_error r = first_nonspace (slice_from T (P + len S))).
Proof.
  rewrite context_eq. do 2 eexists. split; [reflexivity|]. intros HW.
  unfold left_window, right_window. rewrite !split_strip.
  now rewrite last_of_left_window, first_of_right_window by assumption.
Qed.

(** In "a, Bob" the comma is the last non-whitespace character before
    offset 3. *)
Lemma ne_context_boundaries_witness :
  exists l r,
    context (u "a, Bob") (u "Bob") 3 5
    = Ret (l, r, boundary (hd_error (rev l)) ++ u "Bob" ++ boundary (hd_error r))
    /\ hd_error (rev l) = Some 44%N.
Proof.
  destruct (ne_context_boundaries (u "a, Bob") (u "Bob") 3 5) as (l & r & E & H).
  exists l, r. split; [exact E|].
  destruct H as [Hl _]; [lia|]. rewrite Hl. reflexivity.
Defined.

(** C8 as stated fails.  In "a, Bob" the character just before offset 3 is a
    space, which is not in CONTEXT_TOKENS, and yet the comma is prefixed.
    With the window size 0 the right context is empty, and the comma that
    follows "Bob" in "Bob, a" is not suffixed although it is in
    CONTEXT_TOKENS. *)
Lemma ne_context_counterexample :
  context (u "a, Bob") (u "Bob") 3 5 = Ret (u "a,", [], u ",Bob")
  /\ nth_error (u "a, Bob") 2 = Some 32%N
  /\ char_in 32%N CONTEXT_TOKENS = false
  /\ u ",Bob" <> u "Bob"
  /\ context (u "Bob, a") (u "Bob") 0 0 = Ret ([], [], u "Bob")
  /\ nth_error (u "Bob, a") 3 = Some 44%N
  /\ char_in 44%N CONTEXT_TOKENS = true.
Proof. repeat split; try reflexivity. discriminate. Qed.

(** ** Dictionaries *)

Section DictFacts.
Context {K V : Type} (K_eq_dec : forall a b : K, {a = b} + {a <> b}).
Implicit Types (d : list (K * V)) (k : K) (v : V).

Lemma dict_get_set_same d k v :
  dict_get K_eq_dec (dict_set K_eq_dec d k v) k = Some v.
Proof.
  induction d as [|[k' v'] d IH]; simpl.
  - now destruct (K_eq_dec k k).
  - destruct (K_eq_dec k k') as [E|N]; simpl.
    + now destruct (K_eq_dec k k).
    + now destruct (K_eq_dec k k').
Qed.

Lemma dict_get_set_other d k k' v :
  k' <> k ->
  dict_get K_eq_dec (dict_set K_eq_dec d k v) k' = dict_get K_eq_dec d k'.
Proof.
  intros Hn. induction d as [|[k0 v0] d IH]; simpl.
  - now destruct (K_eq_dec k' k).
  - destruct (K_eq_dec k k0) as [E|N]; simpl.
    + subst. now destruct (K_eq_dec k' k0).
    + now rewrite IH.
Qed.

Lemma dict_get_In d k v : dict_get K_eq_dec d k = Some v -> In (k, v) d.
Proof.
  induction d as [|[k' v'] d IH]; simpl; [discriminate|].
  destruct (K_eq_dec k k') as [E|N].
  - intros [= ->]. subst. now left.
  - intros H. right. now apply IH.
Qed.

Lemma dict_get_None d k : dict_get K_eq_dec d k = None -> ~ In k (dict_keys d).
Proof.
  induction d as [|[k' v'] d IH]; simpl; [tauto|].
  destruct (K_eq_dec k k') as [E|N]; [discriminate|].
  intros H [E|I]; [congruence|]. now apply IH.
Qed.

Lemma In_dict_get d k v :
  NoDup (dict_keys d) -> In (k, v) d -> dict_get K_eq_dec d k = Some v.
Proof.
  induction d as [|[k' v'] d IH]; simpl; [tauto|].
  intros Hnd [E|I].
  - injection E as -> ->. now destruct (K_eq_dec k k).
  - inversion Hnd as [|? ? Hk Hd]; subst.
    destruct (K_eq_dec k k') as [E|N].
    + subst. exfalso. apply Hk. change k' with (fst (k', v)).
      now apply in_map.
    + now apply IH.
Qed.

Lemma dict_keys_set d k v :
  dict_keys (dict_set K_eq_dec d k v) =
  match dict_get K_eq_dec d k with
  | Some _ => dict_keys d
  | None => dict_keys d ++ [k]
  end.
Proof.
  induction d as [|[k' v'] d IH]; simpl; [reflexivity|].
  destruct (K_eq_dec k k') as [E|N]; simpl.
  - now subst.
  - rewrite IH. now destruct (dict_get K_eq_dec d k).
Qed.

Lemma NoDup_keys_set d k v :
  NoDup (dict_keys d) -> NoDup (dict_keys (dict_set K_eq_dec d k v)).
Proof.
  intros H. rewrite dict_keys_set.
  destruct (dict_get K_eq_dec d k) eqn:E; [assumption|].
  apply dict_get_None in E.
  apply NoDup_rev in H. rewrite <- (rev_involutive (dict_keys d ++ [k])).
  apply NoDup_rev. rewrite rev_app_distr. simpl. constructor; [|assumption].
  now rewrite <- in_rev.
Qed.

Lemma Forall_dict_set (P : K * V -> Prop) d k v :
  Forall P d -> P (k, v) -> Forall P (dict_set K_eq_dec d k v).
Proof.
  intros H Hk. induction H as [|[k' v'] d Hx Hd IH]; simpl.
  - now constructor.
  - destruct (K_eq_dec k k'); now constructor.
Qed.
End DictFacts.

(** ** Type resolution *)

Lemma max_from_spec (items : hist) (best : pystr) (best_val : Z) :
  (max_from best best_val items = best /\
   forall k v, In (k, v) items -> v <= best_val)
  \/
  (exists v, In (max_from best best_val items, v) items /\ best_val < v /\
             forall k' v', In (k', v') items -> v' <= v).
Proof.
  revert best best_val.
  induction items as [|[k v] items IH]; intros best best_val; simpl.
  - left. split; [reflexivity|tauto].
  - destruct (Z.ltb_spec best_val v) as [Hlt|Hge].
    + right. destruct (IH k v) as [[E Hall]|(w & Hin & Hw & Hall)].
      * exists v. rewrite E. split; [now left|]. split; [assumption|].
        intros k' v' [[= <- <-]|I]; [lia|eauto].
      * exists w. split; [now right|]. split; [lia|].
        intros k' v' [[= <- <-]|I]; [lia|eauto].
    + destruct (IH best best_val) as [[E Hall]|(w & Hin & Hw & Hall)].
      * left. split; [assumption|].
        intros k' v' [[= <- <-]|I]; [lia|eauto].
      * right. exists w. split; [now right|]. split; [assumption|].
        intros k' v' [[= <- <-]|I]; [lia|eauto].
Qed.

(** On a non-empty dict [max] returns a key whose count is the largest. *)
Lemma py_max_key_highest (h : hist) :
  NoDup (dict_keys h) -> h <> [] -> exists k c, highest_count h k c.
Proof.
  intros Hnd Hne. destruct h as [|[k0 v0] items]; [contradiction|].
  unfold highest_count. simpl py_max_key.
  destruct (max_from_spec items k0 v0) as [[E Hall]|(w & Hin & Hw & Hall)].
  - exists k0, v0. rewrite E. split; [reflexivity|]. split.
    + simpl. now destruct (pystr_eq_dec k0 k0).
    + intros k' c' [[= <- <-]|I]; [lia|eauto].
  - exists (max_from k0 v0 items), w. split; [reflexivity|]. split.
    + apply In_dict_get; [assumption|now right].
    + intros k' c' [[= <- <-]|I]; [lia|eauto].
Qed.

(** With positive counts and a largest count of 1, [max] returns the first
    key. *)
Lemma highest_count_one_first (h : hist) (k : pystr) :
  Forall (fun kv => 1 <= snd kv) h -> highest_count h k 1 ->
  hd_error (dict_keys h) = Some k.
Proof.
  intros Hpos (Hmax & _ & Hall).
  destruct h as [|[k0 v0] items]; [discriminate|].
  simpl in Hmax. injection Hmax as <-. simpl. f_equal.
  destruct (max_from_spec items k0 v0) as [[E _]|(w & Hin & Hw & _)];
    [now symmetry|].
  inversion Hpos as [|? ? H0 _]; subst. simpl in H0.
  assert (w <= 1) by (apply (Hall (max_from k0 v0 items)); now right). lia.
Qed.

Lemma get_is_true (h : hist) (k : pystr) (n : Z) :
  get_is h k n = true <-> dict_get pystr_eq_dec h k = Some n.
Proof.
  unfold get_is. destruct (dict_get pystr_eq_dec h k) as [v|].
  - rewrite Z.eqb_eq. split; congruence.
  - split; discriminate.
Qed.

Lemma get_is_above (h : hist) (k : pystr) (n c : Z) :
  (forall k' c', In (k', c') h -> c' <= c) -> c < n -> get_is h k n = false.
Proof.
  intros Hall Hlt. destruct (get_is h k n) eqn:E; [|reflexivity].
  apply get_is_true, dict_get_In, Hall in E. lia.
Qed.

Lemma get_is_other (h : hist) (k : pystr) (n c : Z) :
  dict_get pystr_eq_dec h k = Some c -> c <> n -> get_is h k n = false.
Proof.
  intros E Hn. unfold get_is. rewrite E. now apply Z.eqb_neq.
Qed.

(** What [max_class] returns, by the largest count [c]. *)
Lemma max_class_spec (h : hist) (pref_type k : pystr) (c : Z) :
  highest_count h k c ->
  max_class h pref_type =
  if c =? 1 then Ret (pref_type, 1)
  else if (2 <=? c) && (c <=? 4) then Ret (k, c)
  else Raise (UnboundLocalError (u "sure")).
Proof.
  intros (Hmax & Hget & Hall). unfold max_class. rewrite Hmax. simpl bind.
  destruct (Z.eqb_spec c 1) as [->|H1].
  - rewrite (proj2 (get_is_true h k 1) Hget).
    now rewrite !(get_is_above h pref_type _ 1 Hall) by lia.
  - rewrite (get_is_other h k 1 c Hget H1).
    destruct (Z.eqb_spec c 2) as [->|H2].
    { rewrite (proj2 (get_is_true h k 2) Hget).
      now rewrite !(get_is_above h k _ 2 Hall) by lia. }
    rewrite (get_is_other h k 2 c Hget H2).
    destruct (Z.eqb_spec c 3) as [->|H3].
    { rewrite (proj2 (get_is_true h k 3) Hget).
      now rewrite !(get_is_above h k _ 3 Hall) by lia. }
    rewrite (get_is_other h k 3 c Hget H3).
    destruct (Z.eqb_spec c 4) as [->|H4].
    { now rewrite (proj2 (get_is_true h k 4) Hget). }
    rewrite (get_is_other h k 4 c Hget H4).
    destruct (Z.leb_spec 2 c), (Z.leb_spec c 4); simpl; try reflexivity; lia.
Qed.

Lemma foreach_raises_at {S A} (body : S -> A -> outcome S) (l : list A)
  (a : A) :
  In a l -> (forall s, exists e, body s a = Raise e) ->
  forall s, exists e, foreach l body s = Raise e.
Proof.
  intros Hin Hr. induction l as [|b l IH]; [contradiction|]. intros s. simpl.
  destruct Hin as [->|Hin].
  - destruct (Hr s) as (e & ->). now exists e.
  - destruct (body s b) as [s'|e]; simpl; [now apply IH|now exists e].
Qed.

(** C10: when some count of the histogram is 5 or more, so that the largest
    is, [max_class] reaches its [return] with [sure] unbound and raises
    UnboundLocalError; [finalize] then raises for a surviving entry with that
    histogram, and the loop over a registry that holds such an entry does not
    complete. *)
Theorem max_class_unbound_above_four (input_type : hist) (pref_type k : pystr)
  (c : Z) :
  NoDup (dict_keys input_type) -> In (k, c) input_type -> 5 <= c ->
  max_class input_type pref_type = Raise (UnboundLocalError (u "sure")) /\
  forall e pos source source_text context_len,
    e_type e = input_type -> survives e = true ->
    (forall final_result,
        finalize source source_text context_len final_result (pos, e)
        = Raise (UnboundLocalError (u "sure"))) /\
    (forall new_result,
        In (pos, e) new_result ->
        exists ex,
          foreach new_result (finalize source source_text context_len) []
          = Raise ex).
Proof.
  intros Hnd Hin Hc.
  destruct (py_max_key_highest input_type Hnd) as (k' & c' & Hh).
  { intros ->. contradiction. }
  assert (Hc' : 5 <= c').
  { destruct Hh as (_ & _ & Hall). specialize (Hall k c Hin). lia. }
  assert (Hraise : forall p,
             max_class input_type p = Raise (UnboundLocalError (u "sure"))).
  { intros p. rewrite (max_class_spec input_type p k' c' Hh).
    destruct (Z.eqb_spec c' 1); [lia|].
    destruct (Z.leb_spec 2 c'), (Z.leb_spec c' 4); simpl; try reflexivity; lia. }
  split; [apply Hraise|].
  intros e pos source source_text context_len He Hs.
  assert (Hfin : forall final_result,
             finalize source source_text context_len final_result (pos, e)
             = Raise (UnboundLocalError (u "sure"))).
  { intros final_result. unfold finalize. rewrite Hs. unfold resolve_type.
    rewrite He. destruct (e_pref_type e) as [p|].
    - now rewrite Hraise.
    - destruct input_type as [|[k0 v0] items]; [contradiction|].
      simpl. now rewrite Hraise. }
  split; [exact Hfin|].
  intros new_result Hreg.
  apply (foreach_raises_at _ new_result (pos, e) Hreg).
  intros s. eexists. apply Hfin.
Qed.

(** The default histogram of [max_class] with "MISC" raised to 5. *)
Lemma max_class_unbound_above_four_witness :
  max_class [(u "LOC", 2); (u "MISC", 5)] (u "LOC")
  = Raise (UnboundLocalError (u "sure")).
Proof.
  apply (max_class_unbound_above_four
           [(u "LOC", 2); (u "MISC", 5)] (u "LOC") (u "MISC") 5).
  - repeat constructor; simpl; intuition discriminate.
  - right. now left.
  - lia.
Defined.

(** ** Histograms *)

Lemma sum_counts_set (h : hist) (t : pystr) (v : Z) :
  sum_counts (dict_set pystr_eq_dec h t v) =
  match dict_get pystr_eq_dec h t with
  | Some n => sum_counts h - n + v
  | None => sum_counts h + v
  end.
Proof.
  induction h as [|[k n] h IH]; simpl; [lia|].
  destruct (pystr_eq_dec t k) as [E|N]; simpl; [lia|].
  rewrite IH. destruct (dict_get pystr_eq_dec h t); lia.
Qed.

Lemma sum_counts_incr (h : hist) (t : pystr) :
  sum_counts (hist_incr h t) = sum_counts h + 1.
Proof.
  unfold hist_incr. destruct (dict_get pystr_eq_dec h t) eqn:E;
    rewrite sum_counts_set, E; lia.
Qed.

Lemma hist_incr_keys (h : hist) (t : pystr) :
  NoDup (dict_keys h) -> NoDup (dict_keys (hist_incr h t)).
Proof.
  intros H. unfold hist_incr.
  destruct (dict_get pystr_eq_dec h t); now apply NoDup_keys_set.
Qed.

Lemma hist_incr_counts (h : hist) (t : pystr) :
  Forall (fun kv => 1 <= snd kv) h ->
  Forall (fun kv => 1 <= snd kv) (hist_incr h t).
Proof.
  intros H. unfold hist_incr. destruct (dict_get pystr_eq_dec h t) eqn:E;
    apply Forall_dict_set; try assumption; simpl; [|lia].
  apply dict_get_In in E. rewrite Forall_forall in H.
  specialize (H _ E). simpl in H. lia.
Qed.

Lemma hist_incr_get (h : hist) (t p : pystr) (c : Z) :
  dict_get pystr_eq_dec h p = Some c ->
  exists c', dict_get pystr_eq_dec (hist_incr h t) p = Some c'.
Proof.
  intros H. unfold hist_incr.
  destruct (pystr_eq_dec p t) as [->|N].
  - rewrite H. eexists. apply dict_get_set_same.
  - destruct (dict_get pystr_eq_dec h t);
      rewrite dict_get_set_other by assumption; eauto.
Qed.

Lemma count_le_sum (h : hist) (k : pystr) (c : Z) :
  Forall (fun kv => 1 <= snd kv) h -> In (k, c) h -> c <= sum_counts h.
Proof.
  induction 1 as [|[k' c'] h Hx Hh IH]; [contradiction|].
  simpl in *. intros [[= -> ->]|I].
  - assert (0 <= sum_counts h); [|lia].
    clear -Hh. induction Hh as [|[? ?] ? ? ? ?]; simpl in *; lia.
  - specialize (IH I). lia.
Qed.

(** ** The registry invariant *)

Lemma res_contains_int (z : Z) (res : res_value) :
  res_contains (KInt z) res = false.
Proof.
  destruct res as [|e]; [reflexivity|]. unfold res_contains, entry_keys.
  now destruct (e_pref_type e), (e_alt_ne e).
Qed.

(** The entry the first two passes build for an entity of [backend]. *)
Lemma seed_entry_ok (backend ne t : pystr) (pref : option pystr) :
  (forall p, pref = Some p -> p = t) ->
  entry_ok {| e_count := 1; e_ne := ne; e_ner_src := [backend];
              e_type := [(t, 1)]; e_pref_type := pref; e_alt_ne := None |}.
Proof.
  intros Hp. constructor; simpl.
  - repeat constructor. tauto.
  - repeat constructor. simpl. lia.
  - reflexivity.
  - exists backend, []. repeat split; [constructor|intros x []].
  - intros p E. apply Hp in E. subst. exists 1.
    now destruct (pystr_eq_dec t t).
Qed.

Lemma str_in_false (x : pystr) (l : list pystr) :
  str_in x l = false -> ~ In x l.
Proof. unfold str_in. now destruct (in_dec pystr_eq_dec x l). Qed.

(** The update of the third pass keeps an entry well-formed. *)
Lemma corroborated_entry_ok (e : entry) (parser t : pystr)
  (alt : option pystr) :
  entry_ok e -> In parser corroborating -> str_in parser (e_ner_src e) = false ->
  entry_ok {| e_count := e_count e + 1; e_ne := e_ne e;
              e_ner_src := e_ner_src e ++ [parser];
              e_type := hist_incr (e_type e) t;
              e_pref_type := e_pref_type e; e_alt_ne := alt |}.
Proof.
  intros [Hk Hc Ht (first & rest & Es & Hnd & Hincl) Hp] Hin Hnot.
  apply str_in_false in Hnot. constructor; simpl.
  - now apply hist_incr_keys.
  - now apply hist_incr_counts.
  - rewrite sum_counts_incr, Ht. unfold len. rewrite length_app. simpl. lia.
  - exists first, (rest ++ [parser]). rewrite Es. split; [reflexivity|]. split.
    + apply NoDup_rev in Hnd. rewrite <- (rev_involutive (rest ++ [parser])).
      apply NoDup_rev. rewrite rev_app_distr. simpl.
      constructor; [|assumption]. rewrite <- in_rev. intros I. apply Hnot.
      rewrite Es. now right.
    + intros x I. apply in_app_or in I. destruct I as [I|[<-|[]]]; auto.
  - intros p E. destruct (Hp p E) as (c & Hc'). eapply hist_incr_get, Hc'.
Qed.

Lemma registry_ok_set (new_result : registry) (pos : Z) (e : entry) :
  registry_ok new_result -> entry_ok e ->
  registry_ok (dict_set Z.eq_dec new_result pos e).
Proof.
  intros [Hk Hf] He. split.
  - now apply NoDup_keys_set.
  - now apply Forall_dict_set.
Qed.

Lemma registry_ok_get (new_result : registry) (pos : Z) (e : entry) :
  registry_ok new_result -> dict_get Z.eq_dec new_result pos = Some e ->
  entry_ok e.
Proof.
  intros [_ Hf] E. apply dict_get_In in E. rewrite Forall_forall in Hf.
  apply (Hf _ E).
Qed.

Lemma stanford_pass_ok (l : list raw_entity) (st : registry * res_value) :
  registry_ok (fst st) -> registry_ok (fst (fold_left stanford_step l st)).
Proof.
  revert st. induction l as [|ne l IH]; intros [nr res] H; [assumption|].
  simpl fold_left. apply IH. simpl.
  apply registry_ok_set; [assumption|]. apply seed_entry_ok. congruence.
Qed.

Lemma spotlight_step_eq (new_result : registry) (res : res_value)
  (ne : raw_entity) :
  spotlight_step (new_result, res) ne =
  let res := {| e_count := 1; e_ne := r_ne ne; e_ner_src := [spotlight];
                e_type := [(r_type ne, 1)]; e_pref_type := Some (r_type ne);
                e_alt_ne := None |} in
  Ret (dict_set Z.eq_dec new_result (r_pos ne) res, ResDict res).
Proof. unfold spotlight_step. now rewrite res_contains_int. Qed.

Lemma spotlight_pass_ok (l : list raw_entity) (st : registry * res_value) :
  registry_ok (fst st) ->
  exists st', foreach l spotlight_step st = Ret st' /\ registry_ok (fst st').
Proof.
  revert st. induction l as [|ne l IH]; intros [nr res] H; cbn [foreach].
  - now eexists.
  - rewrite spotlight_step_eq. simpl. apply IH. simpl.
    apply registry_ok_set; [assumption|]. apply seed_entry_ok. congruence.
Qed.

Lemma parser_step_ok (parser : pystr) (new_result : registry) (ne : raw_entity) :
  In parser corroborating -> registry_ok new_result ->
  registry_ok (parser_step parser new_result ne).
Proof.
  intros Hin H. unfold parser_step.
  destruct (dict_get Z.eq_dec new_result (r_pos ne)) as [e|] eqn:E.
  - destruct (str_in parser (e_ner_src e)) eqn:Hs; [assumption|].
    apply registry_ok_set; [assumption|].
    apply corroborated_entry_ok; try assumption.
    eapply registry_ok_get; eassumption.
  - apply registry_ok_set; [assumption|]. apply seed_entry_ok. discriminate.
Qed.

Lemma parser_pass_ok (result : backend_results) (new_result : registry)
  (parser : pystr) :
  In parser corroborating -> registry_ok new_result ->
  registry_ok (parser_pass result new_result parser).
Proof.
  intros Hin H. unfold parser_pass.
  destruct (dict_get pystr_eq_dec result parser) as [l|]; [|assumption].
  revert new_result H. induction l as [|ne l IH]; intros nr H; [assumption|].
  simpl. apply IH. now apply parser_step_ok.
Qed.

(** [merge] returns exactly when both seed lists are there, and what it
    returns is well-formed. *)
Lemma merge_spec (result : backend_results) :
  match merge result with
  | Ret new_result =>
      registry_ok new_result /\
      dict_get pystr_eq_dec result stanford <> None /\
      dict_get pystr_eq_dec result spotlight <> None
  | Raise e =>
      e = TypeError /\
      (dict_get pystr_eq_dec result stanford = None \/
       dict_get pystr_eq_dec result spotlight = None)
  end.
Proof.
  unfold merge.
  destruct (dict_get pystr_eq_dec result stanford) as [l1|];
    cbn [iterate bind]; [|auto].
  match goal with
  | |- context [fold_left stanford_step l1 ?s] =>
      pose proof (stanford_pass_ok l1 s) as H1;
      destruct (fold_left stanford_step l1 s) as [nr res]
  end.
  destruct (dict_get pystr_eq_dec result spotlight) as [l2|];
    cbn [iterate bind]; [|auto].
  destruct (spotlight_pass_ok l2 (nr, res)) as ([nr' res'] & E & H2).
  { apply H1. split; constructor. }
  rewrite E. cbn [bind]. split; [|split; discriminate].
  cbn [fold_left]. repeat apply parser_pass_ok; simpl; auto.
Qed.

(** ** Finalization *)

(** On a well-formed entry the largest count is between 1 and 4 and
    [resolve_type] returns. *)
Lemma resolve_type_ok (e : entry) :
  entry_ok e ->
  exists k c,
    highest_count (e_type e) k c /\ 1 <= c <= 4 /\
    resolve_type e =
    Ret (if c =? 1
         then match e_pref_type e with Some p => p | None => k end
         else k, c).
Proof.
  intros [Hk Hc Ht (first & rest & Es & Hnd & Hincl) _].
  assert (Hlen : 1 <= len (e_ner_src e) <= 4).
  { rewrite Es. unfold len. simpl.
    pose proof (NoDup_incl_length Hnd Hincl) as L. simpl in L. lia. }
  destruct (py_max_key_highest (e_type e) Hk) as (k & c & Hh).
  { intros E. rewrite E in Ht. simpl in Ht. lia. }
  exists k, c. split; [assumption|].
  assert (Hin : In (k, c) (e_type e)).
  { destruct Hh as (_ & G & _). now apply dict_get_In in G. }
  assert (Hrange : 1 <= c <= 4).
  { split.
    - rewrite Forall_forall in Hc. apply (Hc _ Hin).
    - pose proof (count_le_sum _ _ _ Hc Hin). lia. }
  split; [assumption|]. unfold resolve_type.
  destruct (e_pref_type e) as [p|].
  - rewrite (max_class_spec _ p k c Hh).
    destruct (Z.eqb_spec c 1) as [->|N]; [reflexivity|].
    destruct (Z.leb_spec 2 c), (Z.leb_spec c 4); simpl; try reflexivity; lia.
  - rewrite getitem_first.
    destruct (hd_error (dict_keys (e_type e))) as [k0|] eqn:E0.
    + simpl bind. rewrite (max_class_spec _ k0 k c Hh).
      destruct (Z.eqb_spec c 1) as [->|N].
      * rewrite (highest_count_one_first _ _ Hc Hh) in E0.
        now injection E0 as ->.
      * destruct (Z.leb_spec 2 c), (Z.leb_spec c 4); simpl;
          try reflexivity; lia.
    + destruct (e_type e); [contradiction|discriminate].
Qed.

(** The loop of lines 548-572 appends one element for each surviving entry,
    in the order of the registry, and drops the others. *)
Lemma foreach_finalize (source source_text : pystr) (context_len : Z)
  (new_result : registry) :
  Forall (fun it => entry_ok (snd it)) new_result ->
  forall acc, exists final,
    foreach new_result (finalize source source_text context_len) acc
    = Ret (acc ++ final) /\
    Forall2 (finalized_from source source_text context_len)
      (filter (fun it => survives (snd it)) new_result) final.
Proof.
  induction 1 as [|[pos e] reg He _ IH]; intros acc.
  - exists []. rewrite app_nil_r. split; [reflexivity|constructor].
  - cbn [foreach filter snd]. unfold finalize at 1.
    destruct (survives e) eqn:Hs.
    + destruct (resolve_type_ok e He) as (k & c & _ & _ & Hr).
      pose proof (context_eq source_text (e_ne e) pos context_len) as Hctx.
      rewrite Hr, Hctx. cbn [bind fst snd].
      match goal with
      | |- context [foreach reg _ (acc ++ [?o])] =>
          destruct (IH (acc ++ [o])) as (final & E & F2);
          exists (o :: final)
      end.
      rewrite E, <- app_assoc. split; [reflexivity|].
      constructor; [|assumption].
      do 5 eexists. split; [exact Hr|]. split; [exact Hctx|reflexivity].
    + cbn [bind]. apply IH.
Qed.

Lemma finalized_pos (source source_text : pystr) (context_len : Z)
  (items : registry) (final : list aggregated) :
  Forall2 (finalized_from source source_text context_len) items final ->
  map o_pos final = dict_keys items.
Proof.
  induction 1 as [|it o items final (t & c & l & r & n & _ & _ & ->) _ IH];
    [reflexivity|].
  simpl. now rewrite IH.
Qed.

(** ** Sorting *)

Section Sorting.
Context {A : Type} (key : A -> Z).

Lemma insert_by_In (x y : A) (l : list A) :
  In y (insert_by key x l) <-> y = x \/ In y l.
Proof.
  induction l as [|z l IH]; simpl; [intuition|].
  destruct (key x <=? key z); simpl; [intuition|].
  rewrite IH. intuition.
Qed.

Lemma py_sorted_In (y : A) (l : list A) :
  In y (py_sorted key l) <-> In y l.
Proof.
  induction l as [|x l IH]; simpl; [tauto|].
  rewrite insert_by_In, IH. intuition.
Qed.

Lemma insert_by_strict (x : A) (l : list A) :
  StronglySorted (fun a b => key a < key b) l ->
  ~ In (key x) (map key l) ->
  StronglySorted (fun a b => key a < key b) (insert_by key x l).
Proof.
  induction 1 as [|z l Hs IH Hz]; intros Hx; simpl.
  - repeat constructor.
  - simpl in Hx. destruct (Z.leb_spec (key x) (key z)) as [Hle|Hgt].
    + assert (key x < key z) by (assert (key z <> key x) by tauto; lia).
      constructor; [now constructor|].
      constructor; [assumption|].
      rewrite Forall_forall in *. intros w Hw. specialize (Hz w Hw). lia.
    + constructor; [apply IH; tauto|].
      rewrite Forall_forall in *. intros w Hw.
      apply (proj1 (insert_by_In x w l)) in Hw.
      destruct Hw as [->|Hw]; [lia|auto].
Qed.

Lemma py_sorted_strict (l : list A) :
  NoDup (map key l) ->
  StronglySorted (fun a b => key a < key b) (py_sorted key l).
Proof.
  induction l as [|x l IH]; simpl; intros H; [constructor|].
  inversion H as [|? ? Hx Hl]; subst.
  apply insert_by_strict; [now apply IH|].
  intros I. apply Hx. apply in_map_iff in I. destruct I as (y & E & I).
  apply (proj1 (py_sorted_In y l)) in I. rewrite <- E. apply in_map_iff.
  exists y. split; [reflexivity|assumption].
Qed.
End Sorting.

Lemma NoDup_keys_filter {V} (f : Z * V -> bool) (d : list (Z * V)) :
  NoDup (dict_keys d) -> NoDup (dict_keys (filter f d)).
Proof.
  induction d as [|[k v] d IH]; simpl; intros H; [constructor|].
  inversion H as [|? ? Hk Hd]; subst.
  destruct (f (k, v)); simpl; [|now apply IH].
  constructor; [|now apply IH].
  intros I. apply Hk. unfold dict_keys in *. apply in_map_iff in I.
  destruct I as (y & E & I). apply filter_In in I. rewrite <- E.
  apply in_map_iff. exists y. tauto.
Qed.

(** What [intergrate_results] returns on a merged registry. *)
Lemma intergrate_results_spec (result : backend_results)
  (source source_text : pystr) (context_len : Z) (new_result : registry) :
  merge result = Ret new_result ->
  exists final,
    intergrate_results result source source_text context_len
    = Ret (py_sorted o_pos final) /\
    Forall2 (finalized_from source source_text context_len)
      (filter (fun it => survives (snd it)) new_result) final.
Proof.
  intros Hm. pose proof (merge_spec result) as Hok. rewrite Hm in Hok.
  destruct Hok as ([_ Hf] & _).
  destruct (foreach_finalize source source_text context_len new_result Hf [])
    as (final & E & F2).
  exists final. unfold intergrate_results. rewrite Hm. cbn [bind].
  rewrite E. split; [reflexivity|assumption].
Qed.

(** C5: whatever the backend results are, the list [intergrate_results]
    returns is strictly ascending in 'pos', so no two of its elements share
    a position; it returns a list whenever the results hold a list for
    "stanford" and one for "spotlight", and raises TypeError otherwise. *)
Theorem output_strictly_ascending (result : backend_results)
  (source source_text : pystr) (context_len : Z) :
  match intergrate_results result source source_text context_len with
  | Ret final_result =>
      StronglySorted (fun a b => o_pos a < o_pos b) final_result /\
      NoDup (map o_pos final_result)
  | Raise e =>
      e = TypeError /\
      (dict_get pystr_eq_dec result stanford = None \/
       dict_get pystr_eq_dec result spotlight = None)
  end.
Proof.
  pose proof (merge_spec result) as Hm.
  destruct (merge result) as [new_result|e] eqn:Em.
  - destruct (intergrate_results_spec result source source_text context_len
                new_result Em) as (final & -> & F2).
    destruct Hm as ([Hk _] & _).
    assert (Hs : StronglySorted (fun a b => o_pos a < o_pos b)
                   (py_sorted o_pos final)).
    { apply py_sorted_strict. rewrite (finalized_pos _ _ _ _ _ F2).
      now apply NoDup_keys_filter. }
    split; [assumption|].
    clear -Hs. induction Hs as [|a l _ IH Ha]; simpl; constructor; auto.
    intros I. apply in_map_iff in I. destruct I as (b & E & I).
    rewrite Forall_forall in Ha. specialize (Ha b I). lia.
  - unfold intergrate_results. rewrite Em. exact Hm.
Qed.

(** ** Type resolution of the survivors *)

Lemma Forall2_In_l {A B} (R : A -> B -> Prop) (l : list A) (l' : list B)
  (a : A) :
  Forall2 R l l' -> In a l -> exists b, In b l' /\ R a b.
Proof.
  induction 1 as [|x y l l' Hxy _ IH]; [contradiction|].
  intros [->|I].
  - exists y. split; [now left|assumption].
  - destruct (IH I) as (b & Hb & Rb). exists b. split; [now right|assumption].
Qed.

Lemma Forall2_In_r {A B} (R : A -> B -> Prop) (l : list A) (l' : list B)
  (b : B) :
  Forall2 R l l' -> In b l' -> exists a, In a l /\ R a b.
Proof.
  induction 1 as [|x y l l' Hxy _ IH]; [contradiction|].
  intros [->|I].
  - exists x. split; [now left|assumption].
  - destruct (IH I) as (a & Ha & Ra). exists a. split; [now right|assumption].
Qed.

(** C4: for every entry of the merged registry that passes the filter, the
    returned list holds an element at its offset whose type and certainty are
    resolved as follows.  Let k be the histogram key [max] selects and c its
    count, the highest of the histogram (c is between 1 and 4).  If c is 1
    the type is the preferred type when the entry has one, else k, and the
    certainty is 1; if c is 2, 3 or 4 the type is k and the certainty is c. *)
Theorem type_resolution_of_survivors (result : backend_results)
  (source source_text : pystr) (context_len : Z) (new_result : registry)
  (pos : Z) (e : entry) :
  merge result = Ret new_result ->
  In (pos, e) new_result ->
  survives e = true ->
  exists final_result o k c,
    intergrate_results result source source_text context_len = Ret final_result /\
    In o final_result /\ o_pos o = pos /\
    o_types o = dict_keys (e_type e) /\
    highest_count (e_type e) k c /\
    1 <= c <= 4 /\
    (c = 1 ->
     o_type o = match e_pref_type e with Some p => p | None => k end /\
     o_type_certainty o = 1) /\
    (2 <= c <= 4 -> o_type o = k /\ o_type_certainty o = c).
Proof.
  intros Hm Hin Hs.
  destruct (intergrate_results_spec result source source_text context_len
              new_result Hm) as (final & E & F2).
  assert (He : entry_ok e).
  { pose proof (merge_spec result) as Hok. rewrite Hm in Hok.
    destruct Hok as ([_ Hf] & _). rewrite Forall_forall in Hf.
    apply (Hf _ Hin). }
  assert (Hfil : In (pos, e) (filter (fun it => survives (snd it)) new_result)).
  { apply filter_In. split; assumption. }
  destruct (Forall2_In_l _ _ _ _ F2 Hfil)
    as (o & Ho & t & c' & l & r & n & Hr & _ & ->).
  destruct (resolve_type_ok e He) as (k & c & Hh & Hc & Hr').
  simpl in Hr. rewrite Hr' in Hr. injection Hr as <- <-.
  eexists (py_sorted o_pos final), _, k, c.
  split; [eassumption|].
  split; [apply (proj2 (py_sorted_In o_pos _ final)); exact Ho|].
  cbn [o_pos o_types o_type o_type_certainty fst snd].
  split; [reflexivity|]. split; [reflexivity|].
  split; [assumption|]. split; [assumption|]. split.
  - intros ->. split; reflexivity.
  - intros H2. destruct (Z.eqb_spec c 1); [lia|]. split; reflexivity.
Qed.

(** The entity two backends agree on has the type "person", certainty 2. *)
Lemma type_resolution_of_survivors_witness :
  exists final_result o k c,
    intergrate_results sample_results (u "p") sample_text 5 = Ret final_result /\
    In o final_result /\ o_pos o = 37 /\
    highest_count (e_type sample_entry) k c /\
    (2 <= c <= 4 -> o_type o = k /\ o_type_certainty o = c).
Proof.
  destruct (type_resolution_of_survivors sample_results (u "p") sample_text 5
              [(37, sample_entry)] 37 sample_entry)
    as (final_result & o & k & c & E & Ho & Hp & _ & Hh & _ & _ & H2).
  - reflexivity.
  - now left.
  - reflexivity.
  - exists final_result, o, k, c. auto.
Defined.

(** ** The survival filter *)


(** C1 fails on the code: an entity that "spacy", "polyglot" and "flair" all
    report, and no seed backend, is merged into one entry with three sources
    and no preferred type, and the test [len(...) == 2] drops it. *)
Theorem three_corroborating_backends_dropped :
  merge corroborated_results = Ret [(37, corroborated_entry)] /\
  e_pref_type corroborated_entry = None /\
  len (e_ner_src corroborated_entry) = 3 /\
  survives corroborated_entry = false /\
  intergrate_results corroborated_results (u "p") sample_text 5 = Ret [].
Proof. repeat split. Qed.

(** ** The second seed pass *)

(** C2, as amended: for a spotlight entity whose offset is not in the
    registry, a new entry is created at that offset with count 1, the source
    list ["spotlight"], the histogram {type: 1} and the entity's type as
    preferred type; the other offsets are untouched. *)
Theorem spotlight_creates_seed_entry (new_result : registry) (res : res_value)
  (ne : raw_entity) :
  dict_get Z.eq_dec new_result (r_pos ne) = None ->
  exists new_result' res',
    spotlight_step (new_result, res) ne = Ret (new_result', res') /\
    dict_get Z.eq_dec new_result' (r_pos ne) = Some (seed_entry spotlight ne) /\
    forall pos, pos <> r_pos ne ->
                dict_get Z.eq_dec new_result' pos = dict_get Z.eq_dec new_result pos.
Proof.
  intros _. rewrite spotlight_step_eq. do 2 eexists.
  split; [reflexivity|]. split.
  - apply dict_get_set_same.
  - intros pos Hn. now apply dict_get_set_other.
Qed.

(** "spotlight" reports into the empty registry. *)
Lemma spotlight_creates_seed_entry_witness :
  exists new_result' res',
    spotlight_step ([], ResList) sample_entity = Ret (new_result', res') /\
    dict_get Z.eq_dec new_result' 37 = Some (seed_entry spotlight sample_entity).
Proof.
  destruct (spotlight_creates_seed_entry [] ResList sample_entity)
    as (nr & res & E & G & _).
  - reflexivity.
  - exists nr, res. split; [exact E|exact G].
Defined.

(** C2 as stated fails twice.  When "stanford" has put an entry at offset 37
    and "spotlight" reports the same offset, the entry is replaced by a new
    one with count 1 and the single source "spotlight", not incremented; and
    the entry created for a spotlight entity does carry a preferred type. *)
Lemma secondary_seed_counterexample :
  merge [(stanford, [sample_entity]); (spotlight, [sample_entity])]
  = Ret [(37, seed_entry spotlight sample_entity)]
  /\ fold_left stanford_step [sample_entity] ([], ResList)
     = ([(37, seed_entry stanford sample_entity)],
        ResDict (seed_entry stanford sample_entity))
  /\ e_count (seed_entry spotlight sample_entity)
     <> e_count (seed_entry stanford sample_entity) + 1
  /\ e_ner_src (seed_entry spotlight sample_entity)
     <> e_ner_src (seed_entry stanford sample_entity) ++ [spotlight]
  /\ merge [(stanford, []); (spotlight, [sample_entity])]
     = Ret [(37, seed_entry spotlight sample_entity)]
  /\ e_pref_type (seed_entry spotlight sample_entity) <> None.
Proof. repeat split; discriminate. Qed.

(** ** [manual_find] *)

(** [find_from] returns the first index at which [sub] occurs, shifted by
    [i], or -1 when [sub] occurs nowhere. *)
Lemma find_from_spec (s sub : pystr) (i : Z) :
  (find_from s sub i = -1 /\
   forall n, starts_with (skipn n s) sub = false)
  \/
  (exists n, find_from s sub i = i + Z.of_nat n /\
             (n <= length s)%nat /\
             starts_with (skipn n s) sub = true /\
             forall m, (m < n)%nat -> starts_with (skipn m s) sub = false).
Proof.
  revert i. induction s as [|c s IH]; intros i.
  - destruct sub as [|a sub].
    + right. exists 0%nat. simpl. repeat split; [lia|lia|]. intros m Hm. lia.
    + left. split; [reflexivity|]. intros n. now rewrite skipn_nil.
  - cbn [find_from]. destruct (starts_with (c :: s) sub) eqn:E.
    + right. exists 0%nat. cbn [skipn].
      split; [lia|]. split; [simpl; lia|]. split; [exact E|].
      intros m Hm. lia.
    + destruct (IH (i + 1)) as [[E1 Hn]|(n & E1 & Hl & Hn & Hm)].
      * left. split; [assumption|]. intros [|n]; [assumption|apply Hn].
      * right. exists (S n). repeat split.
        -- rewrite E1. lia.
        -- simpl. lia.
        -- assumption.
        -- intros [|m] Hlt; [assumption|]. apply Hm. lia.
Qed.

(** [find] is the index of the first occurrence, or -1. *)
Lemma find_first_occurrence (s sub : pystr) :
  (find s sub = -1 /\ forall j, ~ occurs_at s sub j)
  \/
  (occurs_at s sub (find s sub) /\
   forall j, occurs_at s sub j -> find s sub <= j).
Proof.
  unfold find, occurs_at.
  destruct (find_from_spec s sub 0) as [[E Hn]|(n & E & Hl & Hn & Hm)].
  - left. split; [assumption|]. intros j (_ & H & _). now rewrite Hn in H.
  - right. rewrite E. simpl. rewrite Nat2Z.id. split.
    + unfold len. repeat split; [lia|assumption|lia].
    + intros j (Hj & H & _).
      destruct (Z.le_gt_cases (Z.of_nat n) j); [assumption|].
      rewrite Hm in H by lia. discriminate.
Qed.

(** When the literal does not occur, the record has position -1, type
    "manual", empty contexts and the literal as "ne_context". *)
Lemma manual_find_absent (input_str source_text source : pystr)
  (context_len : Z) :
  find source_text input_str = -1 ->
  manual_find input_str source_text source context_len =
  Ret [(u "pos", VInt (-1)); (u "ne", VStr input_str);
       (u "source", VStr source); (u "type", VStr (u "manual"));
       (u "left_context", VStr []); (u "right_context", VStr []);
       (u "ne_context", VStr input_str)].
Proof. intros E. unfold manual_find. rewrite E. reflexivity. Qed.

(** C3 fails on the code: whenever the literal occurs in the text,
    [manual_find] raises KeyError('left_context') at line 594, where
    [result["left_context"]] is read before anything was stored under that
    key, and returns no record. *)
Theorem manual_find_raises_when_found (input_str source_text source : pystr)
  (context_len : Z) :
  find source_text input_str <> -1 ->
  manual_find input_str source_text source context_len
  = Raise (KeyError (KStr (u "left_context"))).
Proof.
  intros H. unfold manual_find.
  destruct (Z.eqb_spec (find source_text input_str) (-1)) as [E|_];
    [contradiction|].
  reflexivity.
Qed.

(** "Einstein" occurs at index 44 of the example text. *)
Lemma manual_find_raises_when_found_witness :
  find sample_text (u "Einstein") = 44 /\
  manual_find (u "Einstein") sample_text (u "p") 5
  = Raise (KeyError (KStr (u "left_context"))).
Proof.
  split; [reflexivity|].
  apply (manual_find_raises_when_found (u "Einstein") sample_text (u "p") 5).
  vm_compute. discriminate.
Defined.

(** ** Backend adapters *)

(** [Spacy] and [Spotlight] hand over a mapping whatever their engine does,
    with an empty list when the engine of [Spacy] fails at once and when
    every attempt of [Spotlight] fails. *)
Lemma Spacy_fail_open (lower : pystr -> pystr)
  (spacy_engine : pystr -> list (json * json) * option exn)
  (parsed_text : pystr) :
  exists l,
    Spacy lower spacy_engine parsed_text = Ret [(spacy, l)] /\
    (fst (spacy_engine parsed_text) = [] -> l = []).
Proof.
  unfold Spacy, Spacy_run, Spacy_join.
  destruct (spacy_engine parsed_text) as [ents raised]. cbn [fst].
  destruct (spacy_append lower ents raised) as [result raised'] eqn:E.
  eexists. split; [reflexivity|]. intros ->. cbn [spacy_append] in E.
  injection E as <- <-. now destruct raised.
Qed.

Lemma Spotlight_loop_fail_open (attempt : Z -> outcome (list raw_entity))
  (fuel : nat) (retry : Z) (self_result : option backend_results) :
  (fuel = 0%nat -> self_result = Some [(spotlight, [])]) ->
  exists l,
    Spotlight_loop attempt fuel retry self_result = Some [(spotlight, l)] /\
    ((forall n, retry <= n < retry + Z.of_nat fuel ->
                exists e, attempt n = Raise e) -> l = []).
Proof.
  revert retry self_result.
  induction fuel as [|fuel IH]; intros retry self_result H0.
  - exists []. split; [now apply H0|reflexivity].
  - cbn [Spotlight_loop]. destruct (attempt retry) as [result|e] eqn:E.
    + exists result. split; [reflexivity|]. intros Hf.
      destruct (Hf retry) as (e & He); [lia|]. congruence.
    + destruct (IH (retry + 1) (Some [(spotlight, [])])) as (l & El & Hl);
        [reflexivity|].
      exists l. split; [assumption|]. intros Hf. apply Hl.
      intros n Hn. apply Hf. lia.
Qed.

Lemma Spotlight_fail_open (attempt : Z -> outcome (list raw_entity)) :
  exists l,
    Spotlight attempt = Ret [(spotlight, l)] /\
    ((forall n, 0 <= n < 10 -> exists e, attempt n = Raise e) -> l = []).
Proof.
  unfold Spotlight, Spotlight_run.
  destruct (Spotlight_loop_fail_open attempt 10 0 None) as (l & E & H);
    [discriminate|].
  exists l. rewrite E. split; [reflexivity|exact H].
Qed.

(** C9 fails on the code: when [nlp_flair.predict] raises, [Flair.run] ends
    before it assigns [self.result], and [join] raises AttributeError to the
    dispatcher instead of returning {"flair": []}. *)
Theorem Flair_join_raises_when_predict_fails (lower : pystr -> pystr)
  (flair_engine : pystr -> outcome (list (list (option flair_span))))
  (parsed_text : pystr) (e : exn) :
  flair_engine parsed_text = Raise e ->
  Flair lower flair_engine parsed_text = Raise (AttributeError (u "result")).
Proof. intros E. unfold Flair, Flair_run. now rewrite E. Qed.

(** An engine that always fails. *)
Lemma Flair_join_raises_when_predict_fails_witness :
  Flair (fun s => s) (fun _ => Raise EngineError) sample_text
  = Raise (AttributeError (u "result")).
Proof.
  apply (Flair_join_raises_when_predict_fails (fun s => s)
           (fun _ => Raise EngineError) sample_text EngineError).
  reflexivity.
Defined.

(** * Further properties *)

(** ** [translate] *)

Lemma translate_cases (lower : pystr -> pystr) (input_str : pystr) :
  In (translate lower input_str)
     [u "organisation"; u "person"; u "other"; u "location"]
  \/ (translate lower input_str = lower input_str /\
      ~ In (lower input_str) [u "org"; u "per"; u "misc"; u "gpe"; u "loc"]).
Proof.
  unfold translate. cbv zeta.
  destruct (pystr_eq_dec (lower input_str) (u "org")); [left; simpl; tauto|].
  destruct (pystr_eq_dec (lower input_str) (u "per")); [left; simpl; tauto|].
  destruct (pystr_eq_dec (lower input_str) (u "misc")); [left; simpl; tauto|].
  destruct (pystr_eq_dec (lower input_str) (u "gpe")); [left; simpl; tauto|].
  destruct (pystr_eq_dec (lower input_str) (u "loc")); [left; simpl; tauto|].
  right. split; [reflexivity|]. simpl. intros H.
  decompose [or] H; try contradiction; congruence.
Qed.

(** X1: whatever the label, [translate] never returns one of the five short
    labels it rewrites. *)
Theorem translate_never_short (lower : pystr -> pystr) (input_str : pystr) :
  ~ In (translate lower input_str)
       [u "org"; u "per"; u "misc"; u "gpe"; u "loc"].
Proof.
  destruct (translate_cases lower input_str) as [Hc|[E Hn]].
  - generalize dependent (translate lower input_str). intros x Hx.
    simpl in Hx. decompose [or] Hx; try contradiction; subst;
      simpl; intros H; decompose [or] H; try contradiction; discriminate.
  - now rewrite E.
Qed.

(** X2: when [lower] leaves lower-case text as it is, translating a
    translated label changes nothing. *)
Theorem translate_idempotent (lower : pystr -> pystr) (input_str : pystr) :
  (forall x, lower (lower x) = lower x) ->
  (forall x, In x [u "organisation"; u "person"; u "other"; u "location"] ->
             lower x = x) ->
  translate lower (translate lower input_str) = translate lower input_str.
Proof.
  intros Hidem Hfix.
  destruct (translate_cases lower input_str) as [Hc|[E Hn]].
  - generalize dependent (translate lower input_str). intros x Hx.
    unfold translate. cbv zeta. rewrite (Hfix x Hx).
    simpl in Hx. decompose [or] Hx; try contradiction; subst; reflexivity.
  - rewrite E. unfold translate. cbv zeta. rewrite Hidem.
    destruct (pystr_eq_dec (lower input_str) (u "org")) as [e|_];
      [exfalso; apply Hn; rewrite e; simpl; tauto|].
    destruct (pystr_eq_dec (lower input_str) (u "per")) as [e|_];
      [exfalso; apply Hn; rewrite e; simpl; tauto|].
    destruct (pystr_eq_dec (lower input_str) (u "misc")) as [e|_];
      [exfalso; apply Hn; rewrite e; simpl; tauto|].
    destruct (pystr_eq_dec (lower input_str) (u "gpe")) as [e|_];
      [exfalso; apply Hn; rewrite e; simpl; tauto|].
    destruct (pystr_eq_dec (lower input_str) (u "loc")) as [e|_];
      [exfalso; apply Hn; rewrite e; simpl; tauto|].
    reflexivity.
Qed.

(** A label in capitals, with the identity for [lower]. *)
Lemma translate_idempotent_witness :
  translate (fun s => s) (translate (fun s => s) (u "loc"))
  = translate (fun s => s) (u "loc").
Proof.
  apply (translate_idempotent (fun s => s) (u "loc")).
  - reflexivity.
  - reflexivity.
Defined.

(** ** The offset loop *)

Lemma starts_with_nil (s : pystr) : starts_with s [] = true.
Proof. now destruct s. Qed.

Lemma starts_with_length (s sub : pystr) :
  starts_with s sub = true -> (length sub <= length s)%nat.
Proof.
  revert s. induction sub as [|a sub IH]; intros s H; simpl; [lia|].
  destruct s as [|b s]; [discriminate|]. simpl in *.
  apply andb_prop in H. destruct H as [_ H]. apply IH in H. lia.
Qed.

Lemma find_bounds (s sub : pystr) :
  -1 <= find s sub /\ (sub = [] -> find s sub = 0).
Proof.
  split.
  - destruct (find_first_occurrence s sub) as [[E _]|[(H & _) _]]; lia.
  - intros ->. unfold find. destruct s; reflexivity.
Qed.

(** The cursor never moves back. *)
Lemma find_advance (s ne : pystr) : 0 <= find s ne + len ne.
Proof.
  destruct (find_bounds s ne) as [H0 H1]. unfold len.
  destruct ne as [|c ne]; [rewrite H1 by reflexivity; simpl; lia|].
  simpl length. lia.
Qed.

Lemma locate_from_cursor (parsed_text : pystr) (result : list (pystr * pystr))
  (offset : Z) :
  Forall (fun e => offset - 1 <= r_pos e) (locate parsed_text offset result).
Proof.
  revert offset. induction result as [|[ne ty] rest IH]; intros offset;
    [constructor|].
  cbn [locate]. constructor.
  - cbn [r_pos]. destruct (find_bounds (slice_from parsed_text offset) ne). lia.
  - eapply Forall_impl; [|apply IH]. cbn beta. intros e He.
    pose proof (find_advance (slice_from parsed_text offset) ne). lia.
Qed.

Lemma locate_fields (parsed_text : pystr) (result : list (pystr * pystr))
  (offset : Z) :
  map (fun e => (r_ne e, r_type e)) (locate parsed_text offset result) = result.
Proof.
  revert offset. induction result as [|[ne ty] rest IH]; intros offset;
    [reflexivity|].
  cbn [locate map r_ne r_type]. now rewrite IH.
Qed.

(** X3: the offsets the loop assigns never fall more than one below the
    cursor it starts from; from cursor 0 they are at least -1. *)
Theorem locate_never_below_cursor (parsed_text : pystr)
  (result : list (pystr * pystr)) (offset : Z) :
  Forall (fun e => offset - 1 <= r_pos e) (locate parsed_text offset result) /\
  map (fun e => (r_ne e, r_type e)) (locate parsed_text offset result) = result.
Proof. split; [apply locate_from_cursor|apply locate_fields]. Qed.

Lemma skipn_skipn_add {A} (x y : nat) (l : list A) :
  skipn x (skipn y l) = skipn (y + x) l.
Proof.
  revert l. induction y as [|y IH]; intros l; [reflexivity|].
  destruct l; [now rewrite !skipn_nil|]. simpl. apply IH.
Qed.

(** An occurrence in [text[offset:]] is one in [text], shifted. *)
Lemma occurs_at_slice (text sub : pystr) (offset i : Z) :
  0 <= offset <= len text -> 0 <= i ->
  (occurs_at (slice_from text offset) sub i <-> occurs_at text sub (i + offset)).
Proof.
  intros Ho Hi. rewrite slice_from_nonneg by lia. unfold occurs_at, len in *.
  rewrite skipn_skipn_add, length_skipn.
  replace (Z.to_nat (i + offset)) with (Z.to_nat offset + Z.to_nat i)%nat by lia.
  split; intros (H1 & H2 & H3); (split; [lia|]); (split; [assumption|]); lia.
Qed.

Lemma occurs_at_end (s sub : pystr) (i : Z) :
  occurs_at s sub i -> i + len sub <= len s.
Proof.
  unfold occurs_at, len. intros (H1 & H2 & H3).
  apply starts_with_length in H2. rewrite length_skipn in H2. lia.
Qed.

(** X4: when the offsets the loop assigns are in order from the cursor, each
    entity after the end of the one before it, then every entity is at the
    first occurrence of its surface form at or after that end, and lies
    inside the text. *)
Theorem locate_in_order_first_occurrences (parsed_text : pystr)
  (result : list (pystr * pystr)) (offset : Z) :
  0 <= offset <= len parsed_text ->
  in_order offset (locate parsed_text offset result) ->
  first_occurrences parsed_text offset (locate parsed_text offset result).
Proof.
  revert offset. induction result as [|[ne ty] rest IH]; intros offset Ho;
    [constructor|].
  cbn [locate in_order first_occurrences r_pos r_ne]. intros [Hpos Hrest].
  set (pos := find (slice_from parsed_text offset) ne) in *.
  assert (Hfound : 0 <= pos) by lia.
  destruct (find_first_occurrence (slice_from parsed_text offset) ne)
    as [[E _]|[Hocc Hmin]]; [fold pos in E; lia|]. fold pos in Hocc, Hmin.
  assert (Hin : occurs_at parsed_text ne (pos + offset))
    by (apply occurs_at_slice; assumption).
  pose proof (occurs_at_end _ _ _ Hin) as Hend.
  split; [assumption|]. split; [assumption|]. split.
  - intros j Hj Hoj.
    assert (occurs_at (slice_from parsed_text offset) ne (j - offset)).
    { apply occurs_at_slice; try lia.
      now replace (j - offset + offset) with j by lia. }
    specialize (Hmin _ H). lia.
  - replace (pos + offset + len ne) with (offset + (pos + len ne)) in * by lia.
    apply IH; [|assumption]. unfold len in *. lia.
Qed.

(** Two names of the example text, in the order of the text. *)
Lemma locate_in_order_first_occurrences_witness :
  first_occurrences sample_text 0
    (locate sample_text 0 [(u "Albert", u "person"); (u "Einstein", u "person")]).
Proof.
  apply (locate_in_order_first_occurrences sample_text
           [(u "Albert", u "person"); (u "Einstein", u "person")] 0).
  - vm_compute. split; discriminate.
  - vm_compute. repeat split; discriminate.
Defined.

(** ** The retry loop of [Spotlight] and the [try] block of [Spacy] *)

Lemma Spotlight_loop_first_success
  (attempt : Z -> outcome (list raw_entity)) (fuel : nat) (retry : Z)
  (self_result : option backend_results) :
  (exists n l,
      retry <= n < retry + Z.of_nat fuel /\ attempt n = Ret l /\
      (forall m, retry <= m < n -> exists e, attempt m = Raise e) /\
      Spotlight_loop attempt fuel retry self_result = Some [(spotlight, l)])
  \/
  ((forall m, retry <= m < retry + Z.of_nat fuel ->
              exists e, attempt m = Raise e) /\
   Spotlight_loop attempt fuel retry self_result =
   match fuel with O => self_result | S _ => Some [(spotlight, [])] end).
Proof.
  revert retry self_result.
  induction fuel as [|fuel IH]; intros retry self_result.
  - right. split; [intros m Hm; lia|reflexivity].
  - cbn [Spotlight_loop]. destruct (attempt retry) as [l|e] eqn:E.
    + left. exists retry, l. repeat split; try lia; try assumption.
    + destruct (IH (retry + 1) (Some [(spotlight, [])]))
        as [(n & l & Hn & El & Hbefore & Hloop)|[Hall Hloop]].
      * left. exists n, l. repeat split; try lia; try assumption.
        intros m Hm. destruct (Z.eq_dec m retry) as [->|Hne]; [eauto|].
        apply Hbefore. lia.
      * right. split.
        -- intros m Hm. destruct (Z.eq_dec m retry) as [->|Hne]; [eauto|].
           apply Hall. lia.
        -- rewrite Hloop. now destruct fuel.
Qed.

(** X5: [Spotlight] never raises to its caller.  It hands over the entities
    of the first of at most ten attempts that does not raise, and an empty
    list when all ten raise. *)
Theorem Spotlight_first_success (attempt : Z -> outcome (list raw_entity)) :
  (exists n l,
      0 <= n < 10 /\ attempt n = Ret l /\
      (forall m, 0 <= m < n -> exists e, attempt m = Raise e) /\
      Spotlight attempt = Ret [(spotlight, l)])
  \/
  ((forall m, 0 <= m < 10 -> exists e, attempt m = Raise e) /\
   Spotlight attempt = Ret [(spotlight, [])]).
Proof.
  unfold Spotlight, Spotlight_run.
  destruct (Spotlight_loop_first_success attempt 10 0 None)
    as [(n & l & Hn & El & Hbefore & ->)|[Hall ->]].
  - left. exists n, l. repeat split; try assumption; lia.
  - right. split; [|reflexivity]. intros m Hm. apply Hall. lia.
Qed.

(** The third attempt is the first that answers. *)
Lemma Spotlight_first_success_witness :
  Spotlight (fun n => if n <? 2 then Raise EngineError else Ret [sample_entity])
  = Ret [(spotlight, [sample_entity])].
Proof.
  destruct (Spotlight_first_success
              (fun n => if n <? 2 then Raise EngineError else Ret [sample_entity]))
    as [(n & l & Hn & El & Hbefore & E)|[Hall E]].
  - rewrite E. destruct (n <? 2); [discriminate|]. now injection El as <-.
  - destruct (Hall 5) as (e & He); [lia|]. discriminate He.
Defined.

Lemma locate_any_prefix (parsed_text : pystr) (result : list (json * pystr)) :
  forall offset,
    locate_any parsed_text offset result
    = (map lift (locate parsed_text offset (str_prefix result))
       ++ map unlocated (skipn (length (str_prefix result)) result),
       match skipn (length (str_prefix result)) result with
       | [] => None
       | _ => Some TypeError
       end).
Proof.
  induction result as [|[ne ty] rest IH]; intros offset; [reflexivity|].
  destruct ne; try reflexivity.
  cbn [locate_any str_prefix locate length skipn map app].
  now rewrite IH.
Qed.







(** ** [max_class] on any histogram *)

(** X7: on a dict, [max_class] raises ValueError when the dict is empty and
    UnboundLocalError when its highest count is below 1 or above 4; otherwise
    it returns the highest count as certainty, with the key [max] selects,
    or with [pref_type] when that count is 1. *)
Theorem max_class_outcome (input_type : hist) (pref_type : pystr) :
  NoDup (dict_keys input_type) ->
  match max_class input_type pref_type with
  | Ret (mc, sure) =>
      exists k, highest_count input_type k sure /\ 1 <= sure <= 4 /\
                mc = (if sure =? 1 then pref_type else k)
  | Raise e =>
      (input_type = [] /\ e = ValueError) \/
      (exists k c, highest_count input_type k c /\ (c < 1 \/ 4 < c) /\
                   e = UnboundLocalError (u "sure"))
  end.
Proof.
  intros Hnd. destruct input_type as [|[k0 v0] items] eqn:Eh.
  - left. split; reflexivity.
  - rewrite <- Eh in *.
    destruct (py_max_key_highest input_type Hnd) as (k & c & Hh);
      [rewrite Eh; discriminate|].
    rewrite (max_class_spec input_type pref_type k c Hh).
    destruct (Z.eqb_spec c 1) as [->|N1].
    + exists k. split; [assumption|]. split; [lia|reflexivity].
    + destruct (Z.leb_spec 2 c), (Z.leb_spec c 4); simpl.
      * exists k. split; [assumption|]. split; [lia|].
        destruct (Z.eqb_spec c 1); [lia|reflexivity].
      * right. exists k, c. split; [assumption|]. split; [lia|reflexivity].
      * right. exists k, c. split; [assumption|]. split; [lia|reflexivity].
      * right. exists k, c. split; [assumption|]. split; [lia|reflexivity].
Qed.

(** The default arguments of [max_class]. *)
Lemma max_class_outcome_witness :
  match max_class [(u "LOC", 2); (u "MISC", 3)] (u "LOC") with
  | Ret (mc, sure) =>
      exists k, highest_count [(u "LOC", 2); (u "MISC", 3)] k sure /\
                1 <= sure <= 4 /\
                mc = (if sure =? 1 then u "LOC" else k)
  | Raise e =>
      ([(u "LOC", 2); (u "MISC", 3)] = [] /\ e = ValueError) \/
      (exists k c, highest_count [(u "LOC", 2); (u "MISC", 3)] k c /\
                   (c < 1 \/ 4 < c) /\ e = UnboundLocalError (u "sure"))
  end.
Proof.
  apply (max_class_outcome [(u "LOC", 2); (u "MISC", 3)] (u "LOC")).
  repeat constructor; simpl; intuition discriminate.
Defined.

(** ** The shape of the two contexts *)

Lemma lstrip_token_app (t rest : pystr) :
  token t -> lstrip (t ++ rest) = t ++ rest.
Proof.
  intros [Hne Ht]. destruct t as [|c t]; [contradiction|].
  inversion Ht as [|? ? Hc _]; subst. simpl. now rewrite Hc.
Qed.

Lemma token_rev (t : pystr) : token t -> token (rev t).
Proof.
  intros [Hne Ht]. split.
  - intros E. apply Hne. apply (f_equal (@rev char)) in E.
    now rewrite rev_involutive in E.
  - now apply Forall_rev.
Qed.

(** A string made of tokens joined by single spaces has no whitespace at
    either end. *)
Lemma strip_join (ts : list pystr) :
  Forall token ts -> strip (join space ts) = join space ts.
Proof.
  intros H. unfold strip, rstrip.
  destruct ts as [|t ts]; [reflexivity|].
  destruct (join_cons space t ts) as (post & E).
  inversion H as [|? ? Ht Hts]; subst.
  rewrite E, lstrip_token_app by assumption. rewrite <- E.
  destruct (@exists_last _ (t :: ts)) as (ts' & t' & E'); [discriminate|].
  rewrite E' in *. destruct (join_snoc space ts' t') as (pre & Ej).
  apply Forall_app in H. destruct H as [_ Hl].
  inversion Hl as [|? ? Ht' _]; subst.
  rewrite Ej, rev_app_distr, lstrip_token_app by now apply token_rev.
  now rewrite <- rev_app_distr, rev_involutive.
Qed.

(** X8: for every text, surface form, offset and window size, the left and
    the right context [context] returns are whitespace-normalised: no
    whitespace at either end, and tokens separated by single spaces. *)
Theorem context_normalised (text_org ne : pystr) (pos W : Z) :
  exists l r n,
    context text_org ne pos W = Ret (l, r, n) /\
    strip l = l /\ l = join space (split l) /\
    strip r = r /\ r = join space (split r).
Proof.
  rewrite context_eq. do 3 eexists. split; [reflexivity|].
  assert (Hl : Forall token
                 (slice_from (split (strip (slice_to text_org pos))) (- W)))
    by apply Forall_skipn, split_tokens.
  assert (Hr : Forall token
                 (slice_to (split (strip (slice_from text_org (pos + len ne)))) W))
    by apply Forall_firstn, split_tokens.
  unfold left_window, right_window.
  rewrite !split_join by assumption. rewrite !strip_join by assumption.
  repeat split.
Qed.

(** ** [manual_find] on a literal that does not occur *)

(** X9: [manual_find] returns a record exactly when the literal occurs
    nowhere in the text; the record then has the position -1, the type
    "manual", two empty contexts and the literal as "ne_context". *)
Theorem manual_find_returns_iff_absent (input_str source_text source : pystr)
  (context_len : Z) :
  ((exists r, manual_find input_str source_text source context_len = Ret r)
   <-> forall j, ~ occurs_at source_text input_str j) /\
  forall r,
    manual_find input_str source_text source context_len = Ret r ->
    r = [(u "pos", VInt (-1)); (u "ne", VStr input_str);
         (u "source", VStr source); (u "type", VStr (u "manual"));
         (u "left_context", VStr []); (u "right_context", VStr []);
         (u "ne_context", VStr input_str)].
Proof.
  assert (Hcases : find source_text input_str = -1 \/
                   find source_text input_str <> -1) by lia.
  split; [split|].
  - intros (r & Hr). destruct Hcases as [E|N].
    + destruct (find_first_occurrence source_text input_str)
        as [[_ Hno]|[(H0 & _) _]]; [assumption|lia].
    + unfold manual_find in Hr.
      destruct (Z.eqb_spec (find source_text input_str) (-1));
        [contradiction|discriminate].
  - intros Hno.
    destruct (find_first_occurrence source_text input_str)
      as [[E _]|[Hocc _]]; [|now apply Hno in Hocc].
    eexists. now apply manual_find_absent.
  - intros r Hr. destruct Hcases as [E|N].
    + rewrite (manual_find_absent _ _ _ _ E) in Hr. now injection Hr.
    + unfold manual_find in Hr.
      destruct (Z.eqb_spec (find source_text input_str) (-1));
        [contradiction|discriminate].
Qed.

(** "Newton" does not occur in the example text. *)
Lemma manual_find_returns_iff_absent_witness :
  exists r, manual_find (u "Newton") sample_text (u "p") 5 = Ret r.
Proof.
  apply (proj1 (manual_find_returns_iff_absent (u "Newton") sample_text (u "p") 5)).
  intros j Hj.
  destruct (find_first_occurrence sample_text (u "Newton"))
    as [[_ Hno]|[(H0 & _) _]]; [now apply (Hno j)|].
  vm_compute in H0. now apply H0.
Defined.

(** ** What the registry owes to the reports *)

Lemma In_dict_set {K V} (K_eq_dec : forall a b : K, {a = b} + {a <> b})
  (d : list (K * V)) (k k' : K) (v v' : V) :
  In (k', v') (dict_set K_eq_dec d k v) -> (k' = k /\ v' = v) \/ In (k', v') d.
Proof.
  induction d as [|[k0 v0] d IH]; simpl.
  - intros [[= <- <-]|[]]. now left.
  - destruct (K_eq_dec k k0) as [E|N]; simpl.
    + intros [[= <- <-]|I]; [now left|right; now right].
    + intros [E|I]; [right; now left|].
      destruct (IH I) as [H|H]; [now left|right; now right].
Qed.

Lemma registry_sound_set (result : backend_results) (new_result : registry)
  (pos : Z) (e : entry) :
  registry_sound result new_result -> entry_sound result pos e ->
  registry_sound result (dict_set Z.eq_dec new_result pos e).
Proof.
  intros H He pos' e' I. apply In_dict_set in I.
  destruct I as [[-> ->]|I]; [assumption|now apply H].
Qed.

Lemma seed_entry_sound (result : backend_results) (backend : pystr)
  (ne : raw_entity) (pref : option pystr) :
  In backend backends -> reported result backend ne ->
  (pref <> None -> In backend seeds) ->
  entry_sound result (r_pos ne)
    {| e_count := 1; e_ne := r_ne ne; e_ner_src := [backend];
       e_type := [(r_type ne, 1)]; e_pref_type := pref; e_alt_ne := None |}.
Proof.
  intros Hb Hr Hp. constructor; simpl.
  - reflexivity.
  - repeat constructor. tauto.
  - discriminate.
  - intros b [<-|[]]. split; [assumption|]. now exists ne.
  - exists backend, ne. auto.
  - intros t [<-|[]]. exists backend, ne. auto.
  - intros p E. exists backend. split; [reflexivity|]. apply Hp. congruence.
Qed.

Lemma hist_incr_key (h : hist) (t t0 : pystr) :
  In t (dict_keys (hist_incr h t0)) -> In t (dict_keys h) \/ t = t0.
Proof.
  unfold hist_incr. destruct (dict_get pystr_eq_dec h t0) eqn:E;
    rewrite dict_keys_set, E; [now left|].
  intros I. apply in_app_or in I. destruct I as [I|[<-|[]]]; auto.
Qed.

Lemma corroborated_entry_sound (result : backend_results) (e : entry)
  (parser : pystr) (ne : raw_entity) :
  entry_sound result (r_pos ne) e ->
  In parser backends -> reported result parser ne ->
  str_in parser (e_ner_src e) = false ->
  entry_sound result (r_pos ne)
    {| e_count := e_count e + 1; e_ne := e_ne e;
       e_ner_src := e_ner_src e ++ [parser];
       e_type := hist_incr (e_type e) (r_type ne);
       e_pref_type := e_pref_type e;
       e_alt_ne := if pystr_eq_dec (r_ne ne) (e_ne e)
                   then e_alt_ne e else Some (r_ne ne) |}.
Proof.
  intros [Hc Hn Ha Hs (b0 & ne0 & Hhd & Hne) Ht Hp] Hb Hr Hnot.
  apply str_in_false in Hnot.
  assert (Hhd' : hd_error (e_ner_src e ++ [parser]) = Some b0).
  { destruct (e_ner_src e); [discriminate|exact Hhd]. }
  constructor; simpl.
  - rewrite Hc. unfold len. rewrite length_app. simpl. lia.
  - apply NoDup_rev in Hn. rewrite <- (rev_involutive (e_ner_src e ++ [parser])).
    apply NoDup_rev. rewrite rev_app_distr. simpl.
    constructor; [now rewrite <- in_rev|assumption].
  - intros a. destruct (pystr_eq_dec (r_ne ne) (e_ne e)) as [E|N];
      [apply Ha|]. intros [= <-]. exact N.
  - intros b I. apply in_app_or in I. destruct I as [I|[<-|[]]];
      [now apply Hs|]. split; [assumption|]. now exists ne.
  - exists b0, ne0. split; assumption.
  - intros t I. apply hist_incr_key in I. destruct I as [I| ->].
    + destruct (Ht t I) as (b & ne' & Hb' & H'). exists b, ne'.
      split; [apply in_or_app; now left|assumption].
    + exists parser, ne. split; [apply in_or_app; right; now left|auto].
  - intros p E. destruct (Hp p E) as (b & Hb1 & Hb2). exists b.
    rewrite Hhd' . rewrite Hhd in Hb1. auto.
Qed.

Lemma registry_sound_get (result : backend_results) (new_result : registry)
  (pos : Z) (e : entry) :
  registry_sound result new_result ->
  dict_get Z.eq_dec new_result pos = Some e -> entry_sound result pos e.
Proof. intros H E. apply H. now apply dict_get_In in E. Qed.

Lemma stanford_pass_sound (result : backend_results) (l : list raw_entity)
  (st : registry * res_value) :
  (forall ne, In ne l -> reported result stanford ne) ->
  registry_sound result (fst st) ->
  registry_sound result (fst (fold_left stanford_step l st)).
Proof.
  revert st. induction l as [|ne l IH]; intros [nr res] Hl H; [assumption|].
  simpl fold_left. apply IH; [intros; apply Hl; now right|]. simpl.
  apply registry_sound_set; [assumption|].
  apply seed_entry_sound; [simpl; tauto|apply Hl; now left|simpl; tauto].
Qed.

Lemma spotlight_pass_sound (result : backend_results) (l : list raw_entity)
  (st st' : registry * res_value) :
  (forall ne, In ne l -> reported result spotlight ne) ->
  registry_sound result (fst st) ->
  foreach l spotlight_step st = Ret st' ->
  registry_sound result (fst st').
Proof.
  revert st. induction l as [|ne l IH]; intros [nr res] Hl H; cbn [foreach].
  - now intros [= <-].
  - rewrite spotlight_step_eq. simpl. apply IH; [intros; apply Hl; now right|].
    simpl. apply registry_sound_set; [assumption|].
    apply seed_entry_sound; [simpl; tauto|apply Hl; now left|simpl; tauto].
Qed.

Lemma parser_step_sound (result : backend_results) (parser : pystr)
  (new_result : registry) (ne : raw_entity) :
  In parser corroborating -> reported result parser ne ->
  registry_sound result new_result ->
  registry_sound result (parser_step parser new_result ne).
Proof.
  intros Hin Hr H. unfold parser_step.
  assert (Hb : In parser backends) by (apply in_or_app; now right).
  destruct (dict_get Z.eq_dec new_result (r_pos ne)) as [e|] eqn:E.
  - destruct (str_in parser (e_ner_src e)) eqn:Hs; [assumption|].
    apply registry_sound_set; [assumption|].
    apply corroborated_entry_sound; try assumption.
    eapply registry_sound_get; eassumption.
  - apply registry_sound_set; [assumption|].
    apply seed_entry_sound; try assumption. congruence.
Qed.

Lemma parser_pass_sound (result : backend_results) (new_result : registry)
  (parser : pystr) :
  In parser corroborating -> registry_sound result new_result ->
  registry_sound result (parser_pass result new_result parser).
Proof.
  intros Hin H. unfold parser_pass.
  destruct (dict_get pystr_eq_dec result parser) as [l|] eqn:E; [|assumption].
  assert (Hl : forall ne, In ne l -> reported result parser ne)
    by (intros ne I; now exists l).
  clear E. revert new_result H.
  induction l as [|ne l IH]; intros nr H; [assumption|].
  simpl. apply IH; [intros; apply Hl; now right|].
  apply parser_step_sound; try assumption. apply Hl. now left.
Qed.

Lemma merge_sound (result : backend_results) (new_result : registry) :
  merge result = Ret new_result -> registry_sound result new_result.
Proof.
  unfold merge.
  destruct (dict_get pystr_eq_dec result stanford) as [l1|] eqn:E1;
    cbn [iterate bind]; [|discriminate].
  match goal with
  | |- context [fold_left stanford_step l1 ?s] =>
      pose proof (stanford_pass_sound result l1 s) as H1;
      destruct (fold_left stanford_step l1 s) as [nr res]
  end.
  destruct (dict_get pystr_eq_dec result spotlight) as [l2|] eqn:E2;
    cbn [iterate bind]; [|discriminate].
  destruct (foreach l2 spotlight_step (nr, res)) as [[nr' res']|] eqn:E;
    cbn [bind]; [|discriminate].
  intros [= <-].
  assert (H2 : registry_sound result nr').
  { apply (spotlight_pass_sound result l2 (nr, res) (nr', res'));
      [intros ne I; now exists l2| |assumption].
    apply H1; [intros ne I; now exists l1|intros ? ? []]. }
  cbn [fold_left]. repeat apply parser_pass_sound; simpl; auto.
Qed.

(** Every returned element comes from a surviving, well-formed entry of the
    merged registry. *)
Lemma output_from_entry (result : backend_results)
  (source source_text : pystr) (context_len : Z)
  (out : list aggregated) (o : aggregated) :
  intergrate_results result source source_text context_len = Ret out ->
  In o out ->
  exists new_result e,
    merge result = Ret new_result /\
    In (o_pos o, e) new_result /\ survives e = true /\
    entry_ok e /\ entry_sound result (o_pos o) e /\
    finalized_from source source_text context_len (o_pos o, e) o.
Proof.
  intros Hout Ho. destruct (merge result) as [new_result|ex] eqn:Em.
  - destruct (intergrate_results_spec result source source_text context_len
                new_result Em) as (final & E & F2).
    rewrite E in Hout. injection Hout as <-.
    apply (proj1 (py_sorted_In o_pos o final)) in Ho.
    destruct (Forall2_In_r _ _ _ _ F2 Ho) as ([pos e] & Hin & Hfin).
    apply filter_In in Hin. destruct Hin as [Hin Hs].
    assert (Hpos : o_pos o = pos).
    { destruct Hfin as (t & c & l & r & n & _ & _ & ->). reflexivity. }
    subst pos. exists new_result, e.
    pose proof (merge_spec result) as Hok. rewrite Em in Hok.
    destruct Hok as ([_ Hf] & _). rewrite Forall_forall in Hf.
    split; [reflexivity|]. split; [assumption|]. split; [exact Hs|].
    split; [apply (Hf _ Hin)|]. split; [|assumption].
    now apply (merge_sound result new_result Em).
  - unfold intergrate_results in Hout. rewrite Em in Hout. discriminate.
Qed.

(** ** The returned elements *)

Lemma finalized_fields (source source_text : pystr) (context_len : Z)
  (pos : Z) (e : entry) (o : aggregated) :
  finalized_from source source_text context_len (pos, e) o ->
  o_count o = e_count e /\ o_ne o = e_ne e /\ o_ner_src o = e_ner_src e /\
  o_alt_ne o = e_alt_ne e /\ o_types o = dict_keys (e_type e) /\
  resolve_type e = Ret (o_type o, o_type_certainty o) /\
  context source_text (o_ne o) (o_pos o) context_len
  = Ret (o_left_context o, o_right_context o, o_ne_context o) /\
  o_source o = source.
Proof.
  intros (t & c & l & r & n & Hr & Hc & ->). simpl in *. repeat split; assumption.
Qed.

Lemma sources_at_most_four (e : entry) :
  entry_ok e -> 1 <= len (e_ner_src e) <= 4 /\ incl (tl (e_ner_src e)) corroborating.
Proof.
  intros [_ _ _ (first & rest & Es & Hnd & Hincl) _]. rewrite Es. unfold len.
  simpl. pose proof (NoDup_incl_length Hnd Hincl) as L. simpl in L.
  split; [lia|assumption].
Qed.

(** X10: in every returned element "count" is the length of "ner_src", which
    holds between one and four distinct names of the five backends; and
    "alt_ne", when present, differs from "ne". *)
Theorem output_count_is_sources (result : backend_results)
  (source source_text : pystr) (context_len : Z)
  (out : list aggregated) (o : aggregated) :
  intergrate_results result source source_text context_len = Ret out ->
  In o out ->
  o_count o = len (o_ner_src o) /\
  1 <= o_count o <= 4 /\
  NoDup (o_ner_src o) /\
  incl (o_ner_src o) backends /\
  (forall a, o_alt_ne o = Some a -> a <> o_ne o).
Proof.
  intros Hout Ho.
  destruct (output_from_entry _ _ _ _ _ _ Hout Ho)
    as (reg & e & _ & _ & _ & Hok & Hsound & Hfin).
  destruct (finalized_fields _ _ _ _ _ _ Hfin)
    as (-> & -> & -> & -> & _).
  destruct Hsound as [Hc Hn Ha Hs _ _ _].
  destruct (sources_at_most_four e Hok) as [Hlen _].
  split; [assumption|]. split; [lia|]. split; [assumption|].
  split; [|assumption]. intros b Hb. now apply Hs.
Qed.

Lemma output_count_is_sources_witness :
  o_count sample_output = len (o_ner_src sample_output) /\
  1 <= o_count sample_output <= 4.
Proof.
  destruct (output_count_is_sources sample_results (u "p") sample_text 5
              [sample_output] sample_output) as (H1 & H2 & _).
  - reflexivity.
  - now left.
  - split; assumption.
Defined.

(** X11: in every returned element "type" is one of "types", "types" has no
    duplicates, and "type_certainty" is between 1 and "count". *)
Theorem output_type_among_types (result : backend_results)
  (source source_text : pystr) (context_len : Z)
  (out : list aggregated) (o : aggregated) :
  intergrate_results result source source_text context_len = Ret out ->
  In o out ->
  In (o_type o) (o_types o) /\
  NoDup (o_types o) /\
  1 <= o_type_certainty o <= o_count o.
Proof.
  intros Hout Ho.
  destruct (output_from_entry _ _ _ _ _ _ Hout Ho)
    as (reg & e & _ & _ & _ & Hok & Hsound & Hfin).
  destruct (finalized_fields _ _ _ _ _ _ Hfin)
    as (-> & _ & _ & _ & -> & Hr & _).
  destruct (resolve_type_ok e Hok) as (k & c & Hh & Hc & Hr').
  rewrite Hr' in Hr. injection Hr as <- <-.
  destruct Hh as (_ & Hget & _).
  assert (Hk : In k (dict_keys (e_type e))).
  { apply dict_get_In in Hget. change k with (fst (k, c)). now apply in_map. }
  destruct Hok as [Hkeys Hcounts Htotal _ Hpref].
  split; [|split; [assumption|]].
  - destruct (Z.eqb_spec c 1); [|assumption].
    destruct (e_pref_type e) as [p|]; [|assumption].
    destruct (Hpref p eq_refl) as (c' & Hc').
    apply dict_get_In in Hc'. change p with (fst (p, c')). now apply in_map.
  - pose proof (count_le_sum _ _ _ Hcounts (dict_get_In _ _ _ _ Hget)).
    destruct Hsound as [Hcount _ _ _ _ _ _]. lia.
Qed.

Lemma output_type_among_types_witness :
  In (o_type sample_output) (o_types sample_output) /\
  1 <= o_type_certainty sample_output <= o_count sample_output.
Proof.
  destruct (output_type_among_types sample_results (u "p") sample_text 5
              [sample_output] sample_output) as (H1 & _ & H2).
  - reflexivity.
  - now left.
  - split; assumption.
Defined.

(** X12: nothing in a returned element is invented.  Its surface form "ne"
    was reported at its offset by the first backend of "ner_src"; every
    backend of "ner_src" reported an entity at that offset; and every type of
    "types" was reported at that offset by a backend of "ner_src". *)
Theorem output_was_reported (result : backend_results)
  (source source_text : pystr) (context_len : Z)
  (out : list aggregated) (o : aggregated) :
  intergrate_results result source source_text context_len = Ret out ->
  In o out ->
  (exists b ne, hd_error (o_ner_src o) = Some b /\ reported result b ne /\
                r_pos ne = o_pos o /\ r_ne ne = o_ne o) /\
  (forall b, In b (o_ner_src o) ->
             exists ne, reported result b ne /\ r_pos ne = o_pos o) /\
  (forall t, In t (o_types o) ->
             exists b ne, In b (o_ner_src o) /\ reported result b ne /\
                          r_pos ne = o_pos o /\ r_type ne = t).
Proof.
  intros Hout Ho.
  destruct (output_from_entry _ _ _ _ _ _ Hout Ho)
    as (reg & e & _ & _ & _ & _ & Hsound & Hfin).
  destruct (finalized_fields _ _ _ _ _ _ Hfin)
    as (_ & -> & -> & _ & -> & _).
  destruct Hsound as [_ _ _ Hs Hne Ht _].
  split; [assumption|]. split; [|assumption].
  intros b Hb. now apply Hs.
Qed.

Lemma output_was_reported_witness :
  exists b ne, hd_error (o_ner_src sample_output) = Some b /\
               reported sample_results b ne /\
               r_pos ne = o_pos sample_output /\ r_ne ne = o_ne sample_output.
Proof.
  destruct (output_was_reported sample_results (u "p") sample_text 5
              [sample_output] sample_output) as (H & _).
  - reflexivity.
  - now left.
  - exact H.
Defined.

(** ** Seeds survive, lone reports do not *)











(** X14: an offset that only one backend reports, and that backend is one
    of "spacy", "polyglot" and "flair", is not in the returned list. *)
Theorem lone_report_dropped (result : backend_results)
  (source source_text : pystr) (context_len : Z) (pos : Z) (b : pystr)
  (out : list aggregated) :
  In b corroborating ->
  (forall b' ne', In b' backends -> reported result b' ne' ->
                  r_pos ne' = pos -> b' = b) ->
  intergrate_results result source source_text context_len = Ret out ->
  ~ In pos (map o_pos out).
Proof.
  intros Hb Honly Hout Hin. apply in_map_iff in Hin.
  destruct Hin as (o & <- & Ho).
  destruct (output_from_entry _ _ _ _ _ _ Hout Ho)
    as (reg & e & _ & _ & Hsurv & _ & Hsound & _).
  destruct Hsound as [_ Hnd _ Hsrc _ _ Hpref].
  assert (Hall : forall b', In b' (e_ner_src e) -> b' = b).
  { intros b' Hb'. destruct (Hsrc b' Hb') as (Hback & ne' & Hr & Hp).
    now apply (Honly b' ne'). }
  unfold survives in Hsurv. apply orb_prop in Hsurv.
  destruct Hsurv as [Ht|Hlen].
  - destruct (e_pref_type e) as [p|] eqn:Ep; [|discriminate].
    destruct (Hpref p eq_refl) as (b0 & Hhd & Hseed).
    assert (Hb0 : b0 = b).
    { apply Hall. destruct (e_ner_src e); [discriminate|].
      injection Hhd as ->. now left. }
    subst b0. simpl in Hb, Hseed.
    destruct Hb as [<-|[<-|[<-|[]]]];
      destruct Hseed as [H|[H|[]]]; discriminate H.
  - apply Z.eqb_eq in Hlen. unfold len in Hlen.
    destruct (e_ner_src e) as [|b1 [|b2 [|b3 src]]]; simpl in Hlen; try lia.
    inversion Hnd as [|? ? Hn _]; subst. apply Hn. left.
    rewrite (Hall b1), (Hall b2); simpl; auto.
Qed.

(** Only "spacy" reports the entity of the example. *)
Lemma lone_report_dropped_witness :
  ~ In 37 (map o_pos []) /\
  intergrate_results [(stanford, []); (spotlight, []); (spacy, [sample_entity])]
    (u "p") sample_text 5 = Ret [].
Proof.
  split; [|reflexivity].
  apply (lone_report_dropped
           [(stanford, []); (spotlight, []); (spacy, [sample_entity])]
           (u "p") sample_text 5 37 spacy []).
  - now left.
  - intros b' ne' Hb' (l & El & Hl) _. simpl in Hb'.
    destruct Hb' as [<-|[<-|[<-|[<-|[<-|[]]]]]]; vm_compute in El;
      try discriminate El; injection El as <-; destruct Hl; reflexivity.
  - reflexivity.
Defined.

(** ** [Stanford] *)

Lemma connect_loop_true (connect : Z -> outcome unit) (fuel : nat) (retry : Z) :
  connect_loop connect fuel retry = true ->
  exists n, retry <= n < retry + Z.of_nat fuel /\ connect n = Ret tt.
Proof.
  revert retry. induction fuel as [|fuel IH]; intros retry; [discriminate|].
  cbn [connect_loop]. destruct (connect retry) as [[]|e] eqn:E.
  - intros _. exists retry. split; [lia|assumption].
  - intros H. destruct (IH _ H) as (n & Hn & Hc). exists n. split; [lia|assumption].
Qed.

(** X15: [Stanford] never raises to its caller.  It hands over an empty list
    when none of the ten connection attempts succeeds, and also when the
    exchange with the server, the reading of the tags or the offset loop
    raises after the connection was opened. *)
Theorem Stanford_fail_open (lower : pystr -> pystr)
  (stanford_connect : Z -> outcome unit)
  (stanford_exchange : pystr -> outcome (list xml_item))
  (parsed_text : pystr) :
  exists l,
    Stanford lower stanford_connect stanford_exchange parsed_text
    = Ret [(stanford, l)] /\
    ((forall n, 0 <= n < 10 -> exists e, stanford_connect n = Raise e) ->
     l = []) /\
    (forall e,
        Stanford_body lower stanford_exchange parsed_text
          (replace_char 10%N space parsed_text) = Raise e ->
        l = []).
Proof.
  unfold Stanford, Stanford_run, Stanford_join.
  destruct (connect_loop stanford_connect 10 0) eqn:Ec; cbn [negb].
  - destruct (Stanford_body lower stanford_exchange parsed_text
                (replace_char 10%N space parsed_text)) as [l|e] eqn:Eb.
    + exists l. split; [reflexivity|]. split; [|discriminate].
      intros Hall. apply connect_loop_true in Ec.
      destruct Ec as (n & Hn & Hc). destruct (Hall n) as (e & He); [lia|].
      congruence.
    + exists []. auto.
  - exists []. auto.
Qed.

(** The texts of the elements read so far, and the surface forms built from
    them: the same text once joined by spaces. *)
Lemma join_app_single (rs : list pystr) (x : pystr) :
  join space (rs ++ [x]) =
  match rs with [] => x | _ => join space rs ++ space ++ x end.
Proof.
  induction rs as [|a rs IH]; [reflexivity|].
  destruct rs as [|b rs]; [reflexivity|].
  change (join space ((a :: b :: rs) ++ [x]))
    with (a ++ space ++ join space ((b :: rs) ++ [x])).
  rewrite IH.
  change (join space (a :: b :: rs)) with (a ++ space ++ join space (b :: rs)).
  now rewrite <- !app_assoc.
Qed.

Lemma item_texts_app (pre : list xml_item) (item : xml_item) :
  item_texts (pre ++ [item]) =
  item_texts pre ++
  (if pystr_eq_dec (fst item) (u "root") then [] else [snd item]).
Proof.
  unfold item_texts. rewrite filter_app, map_app. simpl.
  now destruct (pystr_eq_dec (fst item) (u "root")).
Qed.

Lemma map_Some_app_inv (l : list (option pystr)) (x : option pystr)
  (rs : list pystr) :
  l ++ [x] = map Some rs ->
  exists rs0 a, rs = rs0 ++ [a] /\ l = map Some rs0 /\ x = Some a.
Proof.
  intros H. destruct rs as [|r rs] using rev_ind.
  - destruct l; discriminate.
  - rewrite map_app in H. simpl in H. apply app_inj_tail in H.
    destruct H as [-> ->]. now exists rs, r.
Qed.

Lemma map_Some_inj (a b : list pystr) : map Some a = map Some b -> a = b.
Proof.
  revert b. induction a as [|x a IH]; intros [|y b]; try discriminate.
  - reflexivity.
  - simpl. intros [= -> H]. f_equal. now apply IH.
Qed.

Lemma getitem_last_Ret {A} (l : list A) (x : A) :
  getitem l (-1) = Ret x -> l = removelast l ++ [x].
Proof.
  rewrite getitem_last. destruct l as [|a l'] using rev_ind; [discriminate|].
  rewrite rev_app_distr. simpl. intros [= ->]. now rewrite removelast_last.
Qed.

(** What the tag loop keeps: when every "ne" built so far is a string, the
    elements read so far all have a text, and both lists give the same text
    when joined by spaces. *)
Lemma tag_loop_joins (lower : pystr -> pystr) (items pre : list xml_item)
  (st st' : list tagged * pystr) :
  foreach items (stanford_tag_step lower) st = Ret st' ->
  (forall rs, map fst (fst st) = map Some rs ->
     exists ts, item_texts pre = map Some ts /\
                join space rs = join space ts /\
                (rs = [] <-> ts = []) /\ (length rs <= length ts)%nat) ->
  forall rs, map fst (fst st') = map Some rs ->
     exists ts, item_texts (pre ++ items) = map Some ts /\
                join space rs = join space ts /\
                (rs = [] <-> ts = []) /\ (length rs <= length ts)%nat.
Proof.
  revert pre st. induction items as [|item items IH]; intros pre [result p_tag].
  - cbn [foreach]. intros [= <-]. now rewrite app_nil_r.
  - cbn [foreach].
    destruct (stanford_tag_step lower (result, p_tag) item) as [st1|e] eqn:Es;
      [|discriminate].
    cbn [bind]. intros Hloop Hinv.
    replace (pre ++ item :: items) with ((pre ++ [item]) ++ items)
      by now rewrite <- app_assoc.
    apply (IH (pre ++ [item]) st1 Hloop). clear IH Hloop.
    rewrite item_texts_app. unfold stanford_tag_step in Es.
    destruct (pystr_eq_dec (fst item) (u "root")) as [Hroot|Hroot].
    { injection Es as <-. rewrite app_nil_r. exact Hinv. }
    destruct (getitem (split_on hyphen (fst item)) 1) as [tag|]; [|discriminate].
    cbn [bind] in Es.
    destruct (getitem (split_on hyphen (fst item)) 0) as [prefix|];
      [|discriminate].
    cbn [bind] in Es.
    destruct ((if pystr_eq_dec prefix (u "I") then true else false)
              && (if pystr_eq_dec p_tag tag then true else false)).
    + destruct (getitem result (-1)) as [[last_ne last_ty]|] eqn:El;
        [|discriminate].
      cbn [bind fst snd] in Es.
      destruct last_ne as [a|]; [|discriminate].
      destruct (snd item) as [x|]; [|discriminate].
      cbn [str_add bind] in Es. injection Es as <-.
      apply getitem_last_Ret in El. cbn [fst] in *.
      intros rs Hrs. unfold set_last in Hrs. rewrite map_app in Hrs.
      cbn [map fst] in Hrs.
      apply map_Some_app_inv in Hrs.
      destruct Hrs as (rs0 & a' & -> & Hrs0 & [= <-]).
      destruct (Hinv (rs0 ++ [a])) as (ts & Ht & Hj & Hnil & Hlen).
      { rewrite El, map_app, Hrs0, map_app. reflexivity. }
      exists (ts ++ [x]). rewrite Ht, map_app. split; [reflexivity|].
      assert (Hts : ts <> []).
      { intros E. apply Hnil in E. destruct rs0; discriminate. }
      split; [|split].
      * rewrite (join_app_single ts x). rewrite <- Hj.
        rewrite !join_app_single. destruct ts; [contradiction|].
        destruct rs0; now rewrite <- ?app_assoc.
      * split; intros E; [destruct rs0|destruct ts]; discriminate.
      * rewrite !length_app in *. simpl in *. lia.
    + injection Es as <-. cbn [fst] in *.
      intros rs Hrs. rewrite map_app in Hrs. cbn [map fst] in Hrs.
      apply map_Some_app_inv in Hrs.
      destruct Hrs as (rs0 & x & -> & Hrs0 & Hx).
      destruct (Hinv rs0 Hrs0) as (ts & Ht & Hj & Hnil & Hlen).
      exists (ts ++ [x]). rewrite Ht, Hx, map_app. split; [reflexivity|].
      split; [|split].
      * rewrite !join_app_single, Hj.
        destruct rs0, ts; try reflexivity.
        -- destruct Hnil as [Hn _]. specialize (Hn eq_refl). discriminate.
        -- destruct Hnil as [_ Hn]. specialize (Hn eq_refl). discriminate.
      * split; intros E; [destruct rs0|destruct ts]; discriminate.
      * rewrite !length_app. simpl. lia.
Qed.

Lemma locate_tagged_Ret (parsed_text : pystr) (result : list tagged)
  (offset : Z) (l : list raw_entity) :
  locate_tagged parsed_text offset result = Ret l ->
  map fst result = map Some (map r_ne l).
Proof.
  revert offset l. induction result as [|[[ne|] ty] rest IH]; intros offset l.
  - now intros [= <-].
  - cbn [locate_tagged].
    destruct (locate_tagged parsed_text
                (offset + (find (slice_from parsed_text offset) ne + len ne))
                rest) as [located|] eqn:E; [|discriminate].
    cbn [bind]. intros [= <-]. simpl. f_equal. now apply (IH _ _ E).
  - discriminate.
Qed.

(** X16: when everything after the connection succeeds, every element other
    than the root has a text, and the surface forms of the entities, joined
    by spaces, are those texts joined by spaces: merging the "I-" elements
    loses no text, adds none and keeps the order; there are at most as many
    entities as elements. *)
Theorem Stanford_body_keeps_text (lower : pystr -> pystr)
  (stanford_exchange : pystr -> outcome (list xml_item))
  (parsed_text text : pystr) (items : list xml_item) (l : list raw_entity) :
  stanford_exchange text = Ret items ->
  Stanford_body lower stanford_exchange parsed_text text = Ret l ->
  exists texts,
    item_texts items = map Some texts /\
    join space (map r_ne l) = join space texts /\
    (length l <= length texts)%nat.
Proof.
  intros Hex. unfold Stanford_body. rewrite Hex. cbn [bind].
  destruct (foreach items (stanford_tag_step lower) ([], [])) as [st|] eqn:Ef;
    [|discriminate].
  cbn [bind]. intros Hloc. apply locate_tagged_Ret in Hloc.
  destruct (tag_loop_joins lower items [] ([], []) st Ef) with (rs := map r_ne l)
    as (ts & Ht & Hj & _ & Hlen).
  - intros rs Hrs. destruct rs; [|discriminate].
    exists []. repeat split; auto.
  - assumption.
  - exists ts. rewrite length_map in Hlen. auto.
Qed.

(** The two elements of "Albert Einstein". *)
Lemma Stanford_body_keeps_text_witness :
  exists l texts,
    Stanford_body (fun s => s)
      (fun _ => Ret [(u "root", None); (u "B-PER", Some (u "Albert"));
                     (u "I-PER", Some (u "Einstein"))])
      sample_text sample_text = Ret l /\
    join space (map r_ne l) = join space texts /\
    texts = [u "Albert"; u "Einstein"].
Proof.
  eexists.
  destruct (Stanford_body_keeps_text (fun s => s)
              (fun _ => Ret [(u "root", None); (u "B-PER", Some (u "Albert"));
                             (u "I-PER", Some (u "Einstein"))])
              sample_text sample_text
              [(u "root", None); (u "B-PER", Some (u "Albert"));
               (u "I-PER", Some (u "Einstein"))]
              [mk_raw (u "Albert Einstein") 37 (u "PER")])
    as (texts & Ht & Hj & _).
  - reflexivity.
  - reflexivity.
  - exists texts. split; [reflexivity|]. split; [exact Hj|].
    apply map_Some_inj. rewrite <- Ht. reflexivity.
Defined.

(** ** [Polyglot] *)

Lemma starts_differ_snoc (l : list polyglot_entity) (a b : polyglot_entity) :
  starts_differ (l ++ [a]) -> pe_start a <> pe_start b ->
  starts_differ ((l ++ [a]) ++ [b]).
Proof.
  induction l as [|x l IH]; simpl; [tauto|].
  destruct l as [|y l]; simpl in *; [tauto|]. intros [H1 H2] Hab.
  split; [assumption|]. now apply IH.
Qed.

Lemma starts_differ_removelast (l : list polyglot_entity) (a : polyglot_entity) :
  starts_differ (l ++ [a]) -> starts_differ l.
Proof.
  induction l as [|x l IH]; simpl; [tauto|].
  destruct l as [|y l]; simpl in *; [tauto|]. intros [H1 H2].
  split; [assumption|]. now apply IH.
Qed.

Lemma starts_differ_replace_last (l : list polyglot_entity)
  (a b : polyglot_entity) :
  starts_differ (l ++ [a]) -> pe_start a = pe_start b ->
  starts_differ (l ++ [b]).
Proof.
  induction l as [|x l IH]; simpl; [tauto|].
  destruct l as [|y l]; simpl in *; [intros [H _] E; split; [congruence|exact I]|].
  intros [H1 H2] Hab. split; [assumption|]. now apply IH.
Qed.

(** What the buffer loop keeps from a non-empty buffer on. *)
Lemma polyglot_buffer_inv (entity_eqb : polyglot_entity -> polyglot_entity -> bool)
  (sent : list polyglot_entity) (buffer : list polyglot_entity)
  (last : polyglot_entity) :
  starts_differ (buffer ++ [last]) ->
  exists buffer' last',
    foreach sent (polyglot_buffer_step entity_eqb)
      (buffer ++ [last], pe_start last)
    = Ret (buffer' ++ [last'], pe_start last') /\
    starts_differ (buffer' ++ [last']) /\
    incl (buffer' ++ [last']) (buffer ++ [last] ++ sent).
Proof.
  revert buffer last. induction sent as [|entity sent IH]; intros buffer last H.
  - exists buffer, last. split; [reflexivity|]. split; [assumption|].
    rewrite app_nil_r. apply incl_refl.
  - cbn [foreach]. unfold polyglot_buffer_step at 1.
    destruct (existsb (fun e => entity_eqb e entity) (buffer ++ [last]));
      cbn [negb bind].
    + destruct (IH buffer last H) as (b' & l' & E & Hd & Hi).
      exists b', l'. split; [assumption|]. split; [assumption|].
      intros x Hx. apply Hi in Hx. rewrite !in_app_iff in *. simpl. tauto.
    + destruct (Z.eqb_spec (pe_start last) (pe_start entity)) as [Es|Es];
        cbn [negb bind].
      * assert (Hpop : pop (buffer ++ [last]) = Ret buffer).
        { unfold pop. rewrite removelast_last. now destruct buffer. }
        rewrite Hpop. cbn [bind]. rewrite Es.
        destruct (IH buffer entity) as (b' & l' & E & Hd & Hi).
        { eapply starts_differ_replace_last; eassumption. }
        exists b', l'. split; [assumption|]. split; [assumption|].
        intros x Hx. apply Hi in Hx. rewrite !in_app_iff in *. simpl in *. tauto.
      * destruct (IH (buffer ++ [last]) entity) as (b' & l' & E & Hd & Hi).
        { now apply starts_differ_snoc. }
        exists b', l'. split; [assumption|]. split; [assumption|].
        intros x Hx. apply Hi in Hx. rewrite !in_app_iff in *. simpl in *. tauto.
Qed.

(** X17: the buffer loop of one sentence raises exactly when the first
    entity of the sentence starts at -1, and then raises IndexError;
    otherwise it ends with a buffer of entities of the sentence in which no
    two adjacent entities start at the same place. *)
Theorem polyglot_buffer_starts_differ
  (entity_eqb : polyglot_entity -> polyglot_entity -> bool)
  (sent : list polyglot_entity) :
  match foreach sent (polyglot_buffer_step entity_eqb) ([], -1) with
  | Ret (entity_buffer, _) =>
      starts_differ entity_buffer /\ incl entity_buffer sent /\
      (sent <> [] -> entity_buffer <> []) /\
      (forall entity rest, sent = entity :: rest -> pe_start entity <> -1)
  | Raise e =>
      e = IndexError /\
      exists entity rest, sent = entity :: rest /\ pe_start entity = -1
  end.
Proof.
  destruct sent as [|entity sent].
  - simpl. repeat split; [apply incl_refl|tauto|discriminate].
  - cbn [foreach]. unfold polyglot_buffer_step at 1. cbn [existsb negb].
    destruct (Z.eqb_spec (-1) (pe_start entity)) as [Es|Es]; cbn [negb bind].
    + simpl. split; [reflexivity|]. now exists entity, sent.
    + destruct (polyglot_buffer_inv entity_eqb sent [] entity)
        as (b' & l' & E & Hd & Hi); [exact I|].
      cbn [app] in E |- *. rewrite E. split; [assumption|]. split; [exact Hi|].
      split; [intros _; now destruct b'|].
      intros entity' rest [= <- _] Hs. apply Es. now rewrite Hs.
Qed.

(** X18: [Polyglot] never raises to its caller, and hands over an empty list
    whenever something raises inside its [try] block: the engine, the
    buffer loop, the reading of an entity's words or of its tag. *)
Theorem Polyglot_fail_open (lower : pystr -> pystr)
  (polyglot_engine : pystr -> outcome (list (list polyglot_entity)))
  (entity_eqb : polyglot_entity -> polyglot_entity -> bool)
  (parsed_text : pystr) :
  exists l,
    Polyglot lower polyglot_engine entity_eqb parsed_text = Ret [(polyglot, l)] /\
    (forall e, polyglot_engine parsed_text = Raise e -> l = []) /\
    (forall e,
        Polyglot_body lower polyglot_engine entity_eqb parsed_text = Raise e ->
        l = []) /\
    Forall (fun ent => -1 <= r_pos ent) l.
Proof.
  unfold Polyglot, Polyglot_run, Polyglot_join. eexists.
  split; [reflexivity|]. split; [|split].
  - intros e He. unfold Polyglot_body. now rewrite He.
  - intros e He. now rewrite He.
  - unfold Polyglot_body.
    destruct (polyglot_engine parsed_text) as [sentences|]; [|constructor].
    cbn [bind].
    destruct (foreach sentences (polyglot_sentence_step entity_eqb) [])
      as [buffer_all|]; [|constructor].
    cbn [bind].
    destruct (foreach buffer_all (polyglot_result_step lower) [])
      as [result|]; [|constructor].
    cbn [bind]. apply (locate_from_cursor parsed_text result 0).
Qed.

(** ** Dispatch and aggregation *)

(** With a list for both seeds, [intergrate_results] returns, and in order. *)
Lemma intergrate_results_returns (result : backend_results)
  (source source_text : pystr) (context_len : Z) :
  dict_get pystr_eq_dec result stanford <> None ->
  dict_get pystr_eq_dec result spotlight <> None ->
  exists out,
    intergrate_results result source source_text context_len = Ret out /\
    StronglySorted (fun a b => o_pos a < o_pos b) out.
Proof.
  intros H1 H2. pose proof (merge_spec result) as Hm.
  destruct (merge result) as [new_result|e] eqn:Em;
    [|destruct Hm as (_ & [H|H]); contradiction].
  destruct (intergrate_results_spec result source source_text context_len
              new_result Em) as (final & -> & F2).
  destruct Hm as ([Hk _] & _). eexists. split; [reflexivity|].
  apply py_sorted_strict. rewrite (finalized_pos _ _ _ _ _ F2).
  now apply NoDup_keys_filter.
Qed.

(** The read of line 594 fails whenever the literal was found. *)
Lemma manual_find_found (input_str source_text source : pystr)
  (context_len : Z) :
  find source_text input_str <> -1 ->
  manual_find input_str source_text source context_len
  = Raise (KeyError (KStr (u "left_context"))).
Proof.
  intros H. unfold manual_find.
  now destruct (Z.eqb_spec (find source_text input_str) (-1)).
Qed.

(** *** What [Spotlight.run] makes of an answer *)

Section SpotlightAnswer.
Variable int_of : json -> outcome Z.

Lemma spotlight_items_made (items : list json) :
  forall acc l,
    Forall spotlight_made acc ->
    foreach items (spotlight_item int_of) acc = Ret l ->
    Forall spotlight_made l.
Proof.
  induction items as [|item items IH]; intros acc l Hacc; cbn [foreach].
  - now intros [= <-].
  - unfold spotlight_item at 1.
    destruct (json_get item (u "@surfaceForm")) as [form|e]; cbn [bind];
      [|discriminate].
    destruct (json_get item (u "@offset")) as [offset|e]; cbn [bind];
      [|discriminate].
    destruct (int_of offset) as [pos|e]; cbn [bind]; [|discriminate].
    apply IH. apply Forall_app. split; [assumption|].
    constructor; [|constructor]. split; [now exists pos|reflexivity].
Qed.

Lemma spotlight_resources_made (data : json) (l : list pyentity) :
  spotlight_resources int_of data = Ret l -> Forall spotlight_made l.
Proof.
  unfold spotlight_resources.
  destruct (json_truthy data); [|now intros [= <-]].
  destruct (json_get data (u "Resources")) as [resources|e]; cbn [bind];
    [|discriminate].
  destruct (json_truthy resources); [|now intros [= <-]].
  destruct (json_iter resources) as [items|e]; cbn [bind]; [|discriminate].
  now apply spotlight_items_made.
Qed.

Lemma Spotlight_json_loop_made (spotlight_get : Z -> outcome json)
  (fuel : nat) (retry : Z) (self_result : option results_any) :
  (fuel = 0%nat -> self_result = Some [(spotlight, [])]) ->
  exists l,
    Spotlight_json_loop int_of spotlight_get fuel retry self_result
    = Some [(spotlight, l)] /\
    Forall spotlight_made l.
Proof.
  revert retry self_result.
  induction fuel as [|fuel IH]; intros retry self_result H0.
  - exists []. split; [now apply H0|constructor].
  - cbn [Spotlight_json_loop].
    destruct (spotlight_get retry) as [data|e]; cbn [bind].
    + destruct (spotlight_resources int_of data) as [result|e] eqn:E.
      * exists result. split; [reflexivity|].
        now apply (spotlight_resources_made data).
      * destruct fuel; [now exists []|]. now apply IH.
    + destruct fuel; [now exists []|]. now apply IH.
Qed.

Lemma Spotlight_json_returns (spotlight_get : Z -> outcome json) :
  exists l,
    Spotlight_json int_of spotlight_get = Ret [(spotlight, l)] /\
    Forall spotlight_made l.
Proof.
  unfold Spotlight_json, Spotlight_json_run.
  destruct (Spotlight_json_loop_made spotlight_get 10 0 None) as (l & E & H);
    [discriminate|].
  exists l. rewrite E. now split.
Qed.
End SpotlightAnswer.

Lemma made_str_lift (l : list pyentity) :
  Forall spotlight_made l -> Forall str_form l ->
  exists typed, l = map lift typed.
Proof.
  induction l as [|[ne pos ty] l IH]; intros Hm Hs; [now exists []|].
  inversion Hm as [|? ? [(p & Hp) _] Hm']; subst.
  inversion Hs as [|? ? (s & Hne) Hs']; subst.
  destruct (IH Hm' Hs') as (typed & ->). cbn [p_ne p_pos] in *. subst.
  now exists (mk_raw s p ty :: typed).
Qed.

(** *** Entities with a string and an offset are aggregated as above *)

Lemma dict_get_lift (reg : registry) (pos : Z) :
  dict_get key_eq_dec (lift_registry reg) (Some pos)
  = option_map lift_entry (dict_get Z.eq_dec reg pos).
Proof.
  induction reg as [|[k e] reg IH]; [reflexivity|].
  cbn [lift_registry map dict_get fst snd]. fold (lift_registry reg).
  destruct (key_eq_dec (Some pos) (Some k)) as [E|N],
           (Z.eq_dec pos k) as [E'|N'].
  - reflexivity.
  - injection E as E. contradiction.
  - subst. contradiction.
  - exact IH.
Qed.

Lemma dict_set_lift (reg : registry) (pos : Z) (e : entry) :
  dict_set key_eq_dec (lift_registry reg) (Some pos) (lift_entry e)
  = lift_registry (dict_set Z.eq_dec reg pos e).
Proof.
  induction reg as [|[k e'] reg IH]; [reflexivity|].
  cbn [lift_registry map dict_set fst snd]. fold (lift_registry reg).
  destruct (key_eq_dec (Some pos) (Some k)) as [E|N],
           (Z.eq_dec pos k) as [E'|N'].
  - reflexivity.
  - injection E as E. contradiction.
  - subst. contradiction.
  - cbn [lift_registry map fst snd]. fold (lift_registry (dict_set Z.eq_dec reg pos e)).
    now rewrite IH.
Qed.

Lemma res_any_contains_lift (k : pykey) (res : res_value) :
  res_any_contains k (lift_res res) = res_contains k res.
Proof.
  destruct res as [|e]; [reflexivity|].
  unfold res_any_contains, res_contains, lift_res, entry_any_keys, entry_keys.
  cbn [lift_entry a_pref_type a_alt_ne].
  now destruct (e_pref_type e), (e_alt_ne e).
Qed.

Lemma stanford_pass_lift (l : list raw_entity) (reg : registry)
  (res : res_value) :
  fold_left stanford_step_any (map lift l) (lift_registry reg, lift_res res)
  = (lift_registry (fst (fold_left stanford_step l (reg, res))),
     lift_res (snd (fold_left stanford_step l (reg, res)))).
Proof.
  revert reg res. induction l as [|ne l IH]; intros reg res; [reflexivity|].
  cbn [map fold_left]. unfold stanford_step_any at 2, stanford_step at 2 4.
  change (seed_any stanford (lift ne))
    with (lift_entry (seed_entry stanford ne)).
  cbn [lift p_pos]. rewrite dict_set_lift.
  change (ResDictAny (lift_entry (seed_entry stanford ne)))
    with (lift_res (ResDict (seed_entry stanford ne))).
  apply IH.
Qed.

Lemma spotlight_step_any_lift (reg : registry) (res : res_value)
  (ne : raw_entity) :
  spotlight_step_any (lift_registry reg, lift_res res) (lift ne)
  = Ret (lift_registry (dict_set Z.eq_dec reg (r_pos ne)
                          (seed_entry spotlight ne)),
         lift_res (ResDict (seed_entry spotlight ne))).
Proof.
  unfold spotlight_step_any. cbn [lift p_pos].
  rewrite res_any_contains_lift, res_contains_int. cbn [negb].
  now rewrite <- dict_set_lift.
Qed.

Lemma spotlight_pass_lift (l : list raw_entity) (reg : registry)
  (res : res_value) :
  foreach (map lift l) spotlight_step_any (lift_registry reg, lift_res res)
  = match foreach l spotlight_step (reg, res) with
    | Ret st => Ret (lift_registry (fst st), lift_res (snd st))
    | Raise e => Raise e
    end.
Proof.
  revert reg res. induction l as [|ne l IH]; intros reg res; [reflexivity|].
  cbn [map foreach]. rewrite spotlight_step_eq, spotlight_step_any_lift.
  cbv zeta. cbn [bind]. apply IH.
Qed.

Lemma filter_keyed_lift (reg : registry) :
  filter keyed (lift_registry reg) = lift_registry reg.
Proof.
  induction reg as [|[k e] reg IH]; [reflexivity|].
  cbn [lift_registry map filter keyed fst]. fold (lift_registry reg).
  now rewrite IH.
Qed.

Lemma simulates_lift (reg : registry) : simulates (lift_registry reg) reg.
Proof.
  split; [apply filter_keyed_lift|]. apply Forall_forall.
  intros it Hit. unfold lift_registry in Hit. apply in_map_iff in Hit.
  destruct Hit as (x & <- & _). discriminate.
Qed.

Lemma dict_get_keyed (new_result : registry_any) (pos : Z) :
  dict_get key_eq_dec (filter keyed new_result) (Some pos)
  = dict_get key_eq_dec new_result (Some pos).
Proof.
  induction new_result as [|[[k|] e] d IH]; [reflexivity| |].
  - cbn [filter keyed fst dict_get].
    now destruct (key_eq_dec (Some pos) (Some k)).
  - cbn [filter keyed fst dict_get].
    now destruct (key_eq_dec (Some pos) None).
Qed.

Lemma filter_dict_set_keyed (new_result : registry_any) (pos : Z)
  (e : entry_any) :
  filter keyed (dict_set key_eq_dec new_result (Some pos) e)
  = dict_set key_eq_dec (filter keyed new_result) (Some pos) e.
Proof.
  induction new_result as [|[[k|] e'] d IH]; [reflexivity| |].
  - cbn [filter keyed fst dict_set].
    destruct (key_eq_dec (Some pos) (Some k)) as [E|N].
    + reflexivity.
    + cbn [filter keyed fst]. now rewrite IH.
  - cbn [filter keyed fst dict_set].
    destruct (key_eq_dec (Some pos) None) as [E|N]; [discriminate|].
    cbn [filter keyed fst]. exact IH.
Qed.

Lemma filter_dict_set_unkeyed (new_result : registry_any) (e : entry_any) :
  filter keyed (dict_set key_eq_dec new_result None e)
  = filter keyed new_result.
Proof.
  induction new_result as [|[[k|] e'] d IH]; [reflexivity| |].
  - cbn [filter keyed fst dict_set].
    destruct (key_eq_dec None (Some k)) as [E|N]; [discriminate|].
    cbn [filter keyed fst]. now rewrite IH.
  - cbn [filter keyed fst dict_set].
    now destruct (key_eq_dec None None).
Qed.

Section Simulation.
Variable eq_other : json -> json -> bool.

Lemma parser_step_sim (parser : pystr) (new_result : registry_any)
  (reg : registry) (ne : raw_entity) :
  simulates new_result reg ->
  simulates (parser_step_any eq_other parser new_result (lift ne))
    (parser_step parser reg ne).
Proof.
  intros [Hf HF]. unfold parser_step_any, parser_step. cbn [lift p_pos p_ne p_type].
  rewrite <- dict_get_keyed, Hf, dict_get_lift.
  destruct (dict_get Z.eq_dec reg (r_pos ne)) as [e|]; cbn [option_map].
  - cbn [lift_entry a_ner_src]. destruct (str_in parser (e_ner_src e));
      [now split|].
    match goal with
    | |- simulates (dict_set _ _ _ ?x) _ =>
        replace x with
          (lift_entry
             {| e_count := e_count e + 1;
                e_ne := e_ne e;
                e_ner_src := e_ner_src e ++ [parser];
                e_type := hist_incr (e_type e) (r_type ne);
                e_pref_type := e_pref_type e;
                e_alt_ne := if pystr_eq_dec (r_ne ne) (e_ne e)
                            then e_alt_ne e else Some (r_ne ne) |})
    end.
    + split.
      * now rewrite filter_dict_set_keyed, Hf, dict_set_lift.
      * apply Forall_dict_set; [assumption|discriminate].
    + unfold lift_entry. cbn [e_count e_ne e_ner_src e_type e_pref_type e_alt_ne
                                a_count a_ne a_alt_ne json_eqb].
      now destruct (pystr_eq_dec (r_ne ne) (e_ne e)).
  - match goal with
    | |- simulates (dict_set _ _ _ ?x) _ =>
        change x with
          (lift_entry
             {| e_count := 1;
                e_ne := r_ne ne;
                e_ner_src := [parser];
                e_type := [(r_type ne, 1)];
                e_pref_type := None;
                e_alt_ne := None |})
    end.
    split.
    + now rewrite filter_dict_set_keyed, Hf, dict_set_lift.
    + apply Forall_dict_set; [assumption|discriminate].
Qed.

Lemma parser_fold_sim (parser : pystr) (l : list raw_entity) :
  forall new_result reg,
    simulates new_result reg ->
    simulates (fold_left (parser_step_any eq_other parser) (map lift l) new_result)
      (fold_left (parser_step parser) l reg).
Proof.
  induction l as [|ne l IH]; intros new_result reg H; [exact H|].
  cbn [map fold_left]. apply IH. now apply parser_step_sim.
Qed.

(** An entry of spaCy without "pos" goes under the key None, which no
    other backend touches. *)
Lemma parser_step_unkeyed (new_result : registry_any) (reg : registry)
  (ne : pyentity) :
  p_pos ne = None -> simulates new_result reg ->
  simulates (parser_step_any eq_other spacy new_result ne) reg.
Proof.
  intros Hp [Hf HF]. unfold parser_step_any. rewrite Hp.
  destruct (dict_get key_eq_dec new_result None) as [e|] eqn:Eg.
  - apply dict_get_In in Eg. rewrite Forall_forall in HF.
    destruct (HF _ Eg eq_refl) as [_ Hsrc]. cbn [snd] in Hsrc. rewrite Hsrc.
    replace (str_in spacy [spacy]) with true by reflexivity.
    split; [assumption|now apply Forall_forall].
  - split.
    + now rewrite filter_dict_set_unkeyed.
    + apply Forall_dict_set; [assumption|]. now intros _.
Qed.

Lemma parser_fold_unkeyed (l : list pyentity) :
  Forall (fun e => p_pos e = None) l ->
  forall new_result reg,
    simulates new_result reg ->
    simulates (fold_left (parser_step_any eq_other spacy) l new_result) reg.
Proof.
  induction 1 as [|ne l Hne _ IH]; intros new_result reg H; [exact H|].
  cbn [fold_left]. apply IH. now apply parser_step_unkeyed.
Qed.

Lemma context_any_str (text_org s : pystr) (pos W : Z) :
  context_any text_org (JStr s) (Some pos) W
  = match context text_org s pos W with
    | Ret (l, r, n) => Ret (l, r, JStr n)
    | Raise e => Raise e
    end.
Proof.
  unfold context_any, context. cbn [json_len bind].
  destruct (getitem
              (join space
                 (slice_from (split (strip (slice_to text_org pos))) (- W)))
              (-1)) as [c|e];
    destruct (getitem
                (join space
                   (slice_to
                      (split (strip (slice_from text_org (pos + len s)))) W))
                0) as [d|e'];
    cbn [bind try_except];
    try destruct (char_in c CONTEXT_TOKENS);
    try destruct (char_in d CONTEXT_TOKENS);
    reflexivity.
Qed.

Lemma finalize_any_lift (source source_text : pystr) (context_len : Z)
  (acc : list aggregated) (pos : Z) (e : entry) :
  finalize_any source source_text context_len (map lift_out acc)
    (Some pos, lift_entry e)
  = match finalize source source_text context_len acc (pos, e) with
    | Ret l => Ret (map lift_out l)
    | Raise x => Raise x
    end.
Proof.
  unfold finalize_any, finalize.
  change (survives_any (lift_entry e)) with (survives e).
  destruct (survives e); [|reflexivity].
  change (resolve_type_any (lift_entry e)) with (resolve_type e).
  destruct (resolve_type e) as [ne_type|x]; cbn [bind]; [|reflexivity].
  cbn [lift_entry a_ne]. rewrite context_any_str.
  destruct (context source_text (e_ne e) pos context_len) as [[[l r] n]|x];
    cbn [bind]; [|reflexivity].
  now rewrite map_app.
Qed.

Lemma finalize_any_unkeyed (source source_text : pystr) (context_len : Z)
  (acc : list aggregated_any) (e : entry_any) :
  a_pref_type e = None -> a_ner_src e = [spacy] ->
  finalize_any source source_text context_len acc (None, e) = Ret acc.
Proof.
  intros Hp Hs. unfold finalize_any, survives_any. now rewrite Hp, Hs.
Qed.

Lemma foreach_finalize_sim (source source_text : pystr) (context_len : Z)
  (new_result : registry_any) :
  forall reg acc,
    simulates new_result reg ->
    foreach new_result (finalize_any source source_text context_len)
      (map lift_out acc)
    = match foreach reg (finalize source source_text context_len) acc with
      | Ret l => Ret (map lift_out l)
      | Raise x => Raise x
      end.
Proof.
  induction new_result as [|[[k|] e] d IH]; intros reg acc [Hf HF].
  - destruct reg; [reflexivity|discriminate].
  - cbn [filter keyed fst] in Hf. destruct reg as [|[p e0] reg];
      [discriminate|].
    cbn [lift_registry map fst snd] in Hf. injection Hf as -> -> Hf.
    inversion HF as [|? ? _ HF']; subst.
    cbn [foreach]. rewrite finalize_any_lift.
    destruct (finalize source source_text context_len acc (p, e0)) as [l|x];
      cbn [bind]; [|reflexivity].
    apply IH. now split.
  - cbn [filter keyed fst] in Hf.
    inversion HF as [|? ? Hhd HF']; subst.
    destruct (Hhd eq_refl) as [Hp Hs]. cbn [snd] in Hp, Hs.
    cbn [foreach]. rewrite finalize_any_unkeyed by assumption. cbn [bind].
    apply IH. now split.
Qed.

Lemma insert_by_lift (o : aggregated) (l : list aggregated) :
  insert_by pos_key (lift_out o) (map lift_out l)
  = map lift_out (insert_by o_pos o l).
Proof.
  induction l as [|y l IH]; [reflexivity|]. cbn [map insert_by].
  change (pos_key (lift_out o)) with (o_pos o).
  change (pos_key (lift_out y)) with (o_pos y).
  destruct (o_pos o <=? o_pos y); [reflexivity|].
  cbn [map]. now rewrite IH.
Qed.

Lemma sorted_any_lift (l : list aggregated) :
  sorted_any (map lift_out l) = Ret (map lift_out (py_sorted o_pos l)).
Proof.
  unfold sorted_any.
  replace (forallb has_pos (map lift_out l)) with true
    by (symmetry; apply forallb_forall; intros x Hx;
        apply in_map_iff in Hx; now destruct Hx as (o & <- & _)).
  f_equal. induction l as [|o l IH]; [reflexivity|].
  cbn [map py_sorted]. now rewrite IH, insert_by_lift.
Qed.

(** What the four joins of [index] hand over, with strings from spotlight,
    is aggregated as [intergrate_results] aggregates the entities that
    have an offset. *)
Lemma intergrate_results_sim (lp ln lt typed : list raw_entity)
  (ls : list pyentity) (source source_text : pystr) (context_len : Z) :
  spacy_shape ls typed ->
  intergrate_results_any eq_other
    [(polyglot, map lift lp); (spacy, ls); (spotlight, map lift lt);
     (stanford, map lift ln)] source source_text context_len
  = match intergrate_results
            [(polyglot, lp); (spacy, typed); (spotlight, lt); (stanford, ln)]
            source source_text context_len with
    | Ret out => Ret (map lift_out out)
    | Raise e => Raise e
    end.
Proof.
  intros Hshape. unfold intergrate_results_any, intergrate_results.
  unfold merge_any, merge.
  change (dict_get pystr_eq_dec
            [(polyglot, map lift lp); (spacy, ls); (spotlight, map lift lt);
             (stanford, map lift ln)] stanford) with (Some (map lift ln)).
  change (dict_get pystr_eq_dec
            [(polyglot, map lift lp); (spacy, ls); (spotlight, map lift lt);
             (stanford, map lift ln)] spotlight) with (Some (map lift lt)).
  change (dict_get pystr_eq_dec
            [(polyglot, lp); (spacy, typed); (spotlight, lt); (stanford, ln)]
            stanford) with (Some ln).
  change (dict_get pystr_eq_dec
            [(polyglot, lp); (spacy, typed); (spotlight, lt); (stanford, ln)]
            spotlight) with (Some lt).
  cbn [iterate bind].
  change (@nil (option Z * entry_any), ResListAny)
    with (lift_registry [], lift_res ResList).
  rewrite stanford_pass_lift.
  match goal with
  | |- context [fold_left stanford_step ln ?s] =>
      destruct (fold_left stanford_step ln s) as [reg1 res1]
  end.
  cbn [fst snd]. cbv beta iota. rewrite spotlight_pass_lift.
  destruct (foreach lt spotlight_step (reg1, res1)) as [[reg2 res2]|e];
    cbn [bind fst snd]; cbv beta iota; [|reflexivity].
  cbn [fold_left]. unfold parser_pass_any, parser_pass.
  change (dict_get pystr_eq_dec
            [(polyglot, map lift lp); (spacy, ls); (spotlight, map lift lt);
             (stanford, map lift ln)] spacy) with (Some ls).
  change (dict_get pystr_eq_dec
            [(polyglot, map lift lp); (spacy, ls); (spotlight, map lift lt);
             (stanford, map lift ln)] polyglot) with (Some (map lift lp)).
  change (dict_get pystr_eq_dec
            [(polyglot, map lift lp); (spacy, ls); (spotlight, map lift lt);
             (stanford, map lift ln)] flair) with (@None (list pyentity)).
  change (dict_get pystr_eq_dec
            [(polyglot, lp); (spacy, typed); (spotlight, lt); (stanford, ln)]
            spacy) with (Some typed).
  change (dict_get pystr_eq_dec
            [(polyglot, lp); (spacy, typed); (spotlight, lt); (stanford, ln)]
            polyglot) with (Some lp).
  change (dict_get pystr_eq_dec
            [(polyglot, lp); (spacy, typed); (spotlight, lt); (stanford, ln)]
            flair) with (@None (list raw_entity)).
  assert (Hsim : simulates
                   (fold_left (parser_step_any eq_other polyglot) (map lift lp)
                      (fold_left (parser_step_any eq_other spacy) ls
                         (lift_registry reg2)))
                   (fold_left (parser_step polyglot) lp
                      (fold_left (parser_step spacy) typed reg2))).
  { apply parser_fold_sim. destruct Hshape as (rest & -> & Hnone).
    rewrite fold_left_app. apply parser_fold_unkeyed; [assumption|].
    apply parser_fold_sim, simulates_lift. }
  change (@nil aggregated_any) with (map lift_out []).
  rewrite (foreach_finalize_sim _ _ _ _ _ _ Hsim).
  destruct (foreach
              (fold_left (parser_step polyglot) lp
                 (fold_left (parser_step spacy) typed reg2))
              (finalize source source_text context_len) []) as [final|e];
    cbn [bind]; [|reflexivity].
  apply sorted_any_lift.
Qed.
End Simulation.

Lemma StronglySorted_lift (out : list aggregated) :
  StronglySorted (fun a b => o_pos a < o_pos b) out ->
  StronglySorted pos_lt (map lift_out out).
Proof.
  induction 1 as [|o out _ IH Ho]; [constructor|].
  cbn [map]. constructor; [exact IH|].
  apply Forall_forall. intros x Hx. apply in_map_iff in Hx.
  destruct Hx as (y & <- & Hy). rewrite Forall_forall in Ho.
  exact (Ho y Hy).
Qed.

Lemma has_pos_lift (out : list aggregated) :
  Forall (fun a => has_pos a = true) (map lift_out out).
Proof.
  apply Forall_forall. intros x Hx. apply in_map_iff in Hx.
  now destruct Hx as (y & <- & _).
Qed.

Section Service.
Variable lower : pystr -> pystr.
Variable polyglot_engine : pystr -> outcome (list (list polyglot_entity)).
Variable entity_eqb : polyglot_entity -> polyglot_entity -> bool.
Variable spacy_engine : pystr -> list (json * json) * option exn.
Variable spotlight_get : pystr -> Z -> outcome json.
Variable stanford_connect : pystr -> Z -> outcome unit.
Variable stanford_exchange : pystr -> outcome (list xml_item).
Variable int_of : json -> outcome Z.
Variable eq_other : json -> json -> bool.
Variable content : Type.
Variable http_get : pystr -> nat -> outcome (Z * content).
Variable parse : content -> outcome (list xml_item).
Variable set_text : pystr -> outcome unit.

Lemma Stanford_returns (text : pystr) :
  exists l, Stanford lower (stanford_connect text) stanford_exchange text
            = Ret [(stanford, l)].
Proof.
  unfold Stanford, Stanford_run, Stanford_join.
  destruct (connect_loop (stanford_connect text) 10 0); cbn [negb];
    [|now eexists].
  destruct (Stanford_body lower stanford_exchange text
              (replace_char 10%N space text)); now eexists.
Qed.

Lemma Polyglot_returns (text : pystr) :
  exists l, Polyglot lower polyglot_engine entity_eqb text = Ret [(polyglot, l)].
Proof. unfold Polyglot, Polyglot_run, Polyglot_join. now eexists. Qed.

Lemma Spacy_returns (text : pystr) :
  exists ls typed,
    Spacy lower spacy_engine text = Ret [(spacy, ls)] /\
    spacy_shape ls typed.
Proof.
  unfold Spacy, Spacy_run, Spacy_join.
  destruct (spacy_engine text) as [ents raised].
  destruct (spacy_append lower ents raised) as [result [e|]].
  - eexists. exists []. split; [reflexivity|]. eexists.
    split; [reflexivity|].
    apply Forall_forall. intros x Hx. apply in_map_iff in Hx.
    now destruct Hx as (y & <- & _).
  - rewrite locate_any_prefix. cbn [fst]. eexists.
    exists (locate text 0 (str_prefix result)).
    split; [reflexivity|]. eexists. split; [reflexivity|].
    apply Forall_forall. intros x Hx. apply in_map_iff in Hx.
    now destruct Hx as (y & <- & _).
Qed.

(** The four joins of [index] return and fill the four keys. *)
Lemma dispatch_tasks (text : pystr) :
  exists lp ls lt ln typed,
    dispatch (tasks lower polyglot_engine entity_eqb spacy_engine
                spotlight_get stanford_connect stanford_exchange int_of text)
    = Ret [(polyglot, map lift lp); (spacy, ls); (spotlight, lt);
           (stanford, map lift ln)] /\
    spacy_shape ls typed /\
    Spotlight_json int_of (spotlight_get text) = Ret [(spotlight, lt)] /\
    Forall spotlight_made lt.
Proof.
  destruct (Polyglot_returns text) as (lp & Ep).
  destruct (Spacy_returns text) as (ls & typed & Es & Hs).
  destruct (Spotlight_json_returns int_of (spotlight_get text))
    as (lt & Et & Hm).
  destruct (Stanford_returns text) as (ln & En).
  exists lp, ls, lt, ln, typed. unfold dispatch, tasks.
  rewrite Ep, Es, Et, En. now split.
Qed.


(** X19: whatever the four engines of [index] do, each join returns, and
    the dispatcher's map holds the keys "polyglot", "spacy", "spotlight" and
    "stanford", in this order; every entity of spotlight has an integer
    offset and the type "other".  When moreover every surface form
    spotlight hands over is a string, the aggregation returns a list
    strictly ascending in 'pos', whose elements all have an offset: an
    entry of spaCy without "pos" never reaches it. *)
Theorem segment_dispatched (part text : pystr) (context_len : Z) :
  exists lp ls lt ln,
    dispatch (tasks lower polyglot_engine entity_eqb spacy_engine
                spotlight_get stanford_connect stanford_exchange int_of text)
    = Ret [(polyglot, lp); (spacy, ls); (spotlight, lt); (stanford, ln)] /\
    Forall spotlight_made lt /\
    (Forall str_form lt ->
     exists out,
       intergrate_results_any eq_other
         [(polyglot, lp); (spacy, ls); (spotlight, lt); (stanford, ln)]
         part text context_len = Ret out /\
       StronglySorted pos_lt out /\
       Forall (fun a => has_pos a = true) out).
Proof.
  destruct (dispatch_tasks text)
    as (lp & ls & lt & ln & typed & E & Hs & _ & Hm).
  exists (map lift lp), ls, lt, (map lift ln).
  split; [exact E|]. split; [exact Hm|]. intros Hstr.
  destruct (made_str_lift lt Hm Hstr) as (lt' & ->).
  rewrite (intergrate_results_sim eq_other lp ln lt' typed ls
             part text context_len Hs).
  destruct (intergrate_results_returns
              [(polyglot, lp); (spacy, typed); (spotlight, lt'); (stanford, ln)]
              part text context_len) as (out & -> & Hsorted);
    [discriminate|discriminate|].
  exists (map lift_out out). split; [reflexivity|].
  split; [now apply StronglySorted_lift|apply has_pos_lift].
Qed.




Lemma index_entities_found (m : pystr) (context_len : Z)
  (parsed_text : list (pystr * pystr)) (part text : pystr) :
  m <> [] -> In (part, text) parsed_text -> find text m <> -1 ->
  exists e,
    index_entities lower polyglot_engine entity_eqb spacy_engine
      spotlight_get stanford_connect stanford_exchange int_of eq_other
      (Some m) context_len parsed_text = Raise e /\
    (hd_error parsed_text = Some (part, text) ->
     e = KeyError (KStr (u "left_context"))).
Proof.
  intros Hm Hin Hfound. destruct m as [|c m]; [contradiction|].
  unfold index_entities.
  assert (H : forall st,
             exists e,
               foreach parsed_text
                 (index_part lower polyglot_engine entity_eqb spacy_engine
                    spotlight_get stanford_connect stanford_exchange int_of
                    eq_other (@Some pystr (c :: m)) context_len) st = Raise e /\
               (hd_error parsed_text = Some (part, text) ->
                e = KeyError (KStr (u "left_context")))).
  { induction parsed_text as [|p parts IH]; intros st; [contradiction|].
    cbn [foreach hd_error].
    destruct (Z.eq_dec (find (snd p) (c :: m)) (-1)) as [Ea|En].
    - assert (Hp : p <> (part, text)) by (intros ->; now apply Hfound).
      destruct Hin as [E|Hin]; [contradiction|].
      destruct (index_part lower polyglot_engine entity_eqb spacy_engine
                  spotlight_get stanford_connect stanford_exchange int_of
                  eq_other (@Some pystr (c :: m)) context_len st p) as [st1|e1];
        cbn [bind].
      + destruct (IH Hin st1) as (e & -> & _). exists e.
        split; [reflexivity|]. intros [= E]. contradiction.
      + exists e1. split; [reflexivity|]. intros [= E]. contradiction.
    - exists (KeyError (KStr (u "left_context"))).
      split; [|reflexivity].
      destruct st as [fresult result_all]. unfold index_part.
      now rewrite (manual_find_found _ _ _ _ En). }
  match goal with
  | |- context [foreach parsed_text _ ?s] => destruct (H s) as (e & E & He)
  end.
  exists e. now rewrite E.
Qed.

(** X21: a request for a literal, with a "context" argument that is absent
    or an integer, is not answered once [ocr_to_dict] returned a text in
    which the literal occurs: [index] raises, whatever the engines do.
    When the literal occurs in the first segment the exception is
    KeyError('left_context'), raised before any backend is started. *)
Theorem index_manual_found_raises (fuel : nat) (url m : pystr)
  (context_arg : option pystr) (parsed_text : list (pystr * pystr))
  (part text : pystr) :
  url <> [] -> m <> [] ->
  (forall c, context_arg = Some c -> c <> [] ->
             exists n, int_of (JStr c) = Ret n) ->
  ocr_to_dict content (http_get url) parse set_text fuel
  = Some (Ret parsed_text) ->
  In (part, text) parsed_text -> find text m <> -1 ->
  exists e,
    index lower polyglot_engine entity_eqb spacy_engine spotlight_get
      stanford_connect stanford_exchange int_of eq_other content http_get
      parse set_text fuel (Some url) (Some m) context_arg
    = Some (Raise e) /\
    (hd_error parsed_text = Some (part, text) ->
     e = KeyError (KStr (u "left_context"))).
Proof.
  intros Hu Hm Hc Hf Hin Hfound. unfold index.
  destruct url as [|c s]; [contradiction|].
  assert (Hrest : forall context_len,
    exists e,
      match ocr_to_dict content (http_get (c :: s)) parse set_text fuel with
      | None => None
      | Some (Raise _) => Some (Ret (FailedToFetch (c :: s)))
      | Some (Ret parsed_text) =>
          Some (fresult <-
                  index_entities lower polyglot_engine entity_eqb
                    spacy_engine spotlight_get stanford_connect
                    stanford_exchange int_of eq_other (Some m) context_len
                    parsed_text ;;
                Ret (Entities fresult parsed_text))
      end = Some (Raise e) /\
      (hd_error parsed_text = Some (part, text) ->
       e = KeyError (KStr (u "left_context")))).
  { intros context_len. rewrite Hf.
    destruct (index_entities_found m context_len parsed_text part text
                Hm Hin Hfound) as (e & -> & He).
    now exists e. }
  destruct context_arg as [[|c' s']|]; try apply Hrest.
  destruct (Hc (c' :: s') eq_refl) as (n & ->); [discriminate|].
  apply Hrest.
Qed.
End Service.

(** In the example spaCy fails after one entity and spotlight answers a
    string at its third attempt: the entity of spotlight is returned. *)
Lemma segment_dispatched_witness :
  exists out,
    intergrate_results_any (fun _ _ => false)
      (sample_dispatched (JStr (u "Albert Einstein"))) (u "p") sample_text 5
    = Ret out /\
    StronglySorted pos_lt out /\
    Forall (fun a => has_pos a = true) out.
Proof.
  destruct (segment_dispatched (fun s => s)
              (fun _ => Raise EngineError) (fun _ _ => false)
              (fun _ => ([(JStr (u "Albert Einstein"), JStr (u "per"))], Some EngineError))
              (fun _ n => if n <? 2 then Raise EngineError
                          else Ret (sample_answer (JStr (u "Albert Einstein"))))
              (fun _ _ => Raise EngineError) (fun _ => Raise EngineError)
              sample_int (fun _ _ => false) (u "p") sample_text 5)
    as (lp & ls & lt & ln & Ed & _ & H).
  assert (E' : dispatch (sample_tasks (JStr (u "Albert Einstein")) sample_text)
               = Ret (sample_dispatched (JStr (u "Albert Einstein"))))
    by reflexivity.
  unfold sample_tasks in E'. rewrite E' in Ed. unfold sample_dispatched in Ed.
  injection Ed as <- <- <- <-. apply H.
  repeat constructor. now eexists.
Defined.


(** "Einstein" occurs in the only segment. *)
Lemma index_manual_found_raises_witness :
  sample_index (JStr (u "Albert Einstein")) 60 (Some EXAMPLE_URL)
    (Some (u "Einstein")) (Some (u "3"))
  = Some (Raise (KeyError (KStr (u "left_context")))).
Proof.
  destruct (index_manual_found_raises (fun s => s)
              (fun _ => Raise EngineError) (fun _ _ => false)
              (fun _ => ([(JStr (u "Albert Einstein"), JStr (u "per"))], Some EngineError))
              (fun _ n => if n <? 2 then Raise EngineError
                          else Ret (sample_answer
                                      (JStr (u "Albert Einstein"))))
              (fun _ _ => Raise EngineError) (fun _ => Raise EngineError)
              sample_int (fun _ _ => false)
              (list xml_item)
              (fun _ k => Ret (if (k =? 1)%nat then 200 else 503,
                               [(u "p", Some sample_text)]))
              (fun c => Ret c) sample_set_text
              60 EXAMPLE_URL (u "Einstein") (Some (u "3"))
              [(u "p", sample_text)] (u "p") sample_text)
    as (e & E & He).
  - discriminate.
  - discriminate.
  - intros c [= <-] _. now exists 3.
  - reflexivity.
  - now left.
  - vm_compute. discriminate.
  - unfold sample_index. rewrite E. now rewrite He.
Defined.

(** *** A surface form without length *)

Lemma res_any_contains_int (z : Z) (res : res_any) :
  res_any_contains (KInt z) res = false.
Proof.
  destruct res as [|e]; [reflexivity|].
  unfold res_any_contains, entry_any_keys.
  now destruct (a_pref_type e), (a_alt_ne e).
Qed.

Lemma spotlight_step_any_eq (new_result : registry_any) (res : res_any)
  (ne : pyentity) :
  spotlight_step_any (new_result, res) ne
  = Ret (dict_set key_eq_dec new_result (p_pos ne) (seed_any spotlight ne),
         ResDictAny (seed_any spotlight ne)).
Proof.
  unfold spotlight_step_any. destruct (p_pos ne) as [pos|]; [|reflexivity].
  now rewrite res_any_contains_int.
Qed.

Lemma spotlight_pass_unsized (k : option Z) (ne : pyentity)
  (lt : list pyentity) :
  Forall spotlight_made lt ->
  (forall x, In x lt -> p_pos x = k -> unsized (p_ne x)) ->
  forall st,
    In ne lt /\ p_pos ne = k \/ unsized_seed_at k (fst st) ->
    exists st',
      foreach lt spotlight_step_any st = Ret st' /\
      unsized_seed_at k (fst st').
Proof.
  induction 1 as [|x lt [_ Hty] _ IH]; intros Hun [new_result res] Hst.
  - destruct Hst as [[[] _]|Hst]. now exists (new_result, res).
  - cbn [foreach]. rewrite spotlight_step_any_eq. cbn [bind].
    apply IH; [intros y Hy; apply Hun; now right|].
    cbn [fst] in *.
    destruct (key_eq_dec (p_pos x) k) as [E|N].
    + right. exists (seed_any spotlight x). rewrite <- E.
      rewrite dict_get_set_same. split; [reflexivity|].
      split; [apply Hun; [now left|exact E]|].
      cbn [seed_any a_pref_type]. now rewrite Hty.
    + destruct Hst as [[[->|Hin] Hk]|(e & Eg & He)].
      * contradiction.
      * now left.
      * right. exists e. split; [|exact He].
        rewrite dict_get_set_other; [exact Eg|]. intros C. now apply N.
Qed.

Section Unsized.
Variable eq_other : json -> json -> bool.

Lemma parser_step_unsized (k : option Z) (parser : pystr)
  (new_result : registry_any) (x : pyentity) :
  unsized_seed_at k new_result ->
  unsized_seed_at k (parser_step_any eq_other parser new_result x).
Proof.
  intros (e & Eg & Hu & Hp). unfold parser_step_any.
  destruct (key_eq_dec (p_pos x) k) as [E|N].
  - rewrite E, Eg. destruct (str_in parser (a_ner_src e)); [now exists e|].
    eexists. rewrite dict_get_set_same. split; [reflexivity|]. now split.
  - assert (Hk : forall v,
               dict_get key_eq_dec (dict_set key_eq_dec new_result (p_pos x) v) k
               = Some e).
    { intros v. rewrite dict_get_set_other; [exact Eg|].
      intros C. now apply N. }
    destruct (dict_get key_eq_dec new_result (p_pos x)) as [e'|].
    + destruct (str_in parser (a_ner_src e')); [now exists e|].
      exists e. now rewrite Hk.
    + exists e. now rewrite Hk.
Qed.

Lemma parser_pass_unsized (k : option Z) (result : results_any)
  (parsers : list pystr) :
  forall new_result,
    unsized_seed_at k new_result ->
    unsized_seed_at k (fold_left (parser_pass_any eq_other result) parsers
                         new_result).
Proof.
  induction parsers as [|parser parsers IH]; intros new_result H; [exact H|].
  cbn [fold_left]. apply IH. unfold parser_pass_any.
  destruct (dict_get pystr_eq_dec result parser) as [l|]; [|exact H].
  revert new_result H. induction l as [|x l IHl]; intros new_result H;
    [exact H|].
  cbn [fold_left]. apply IHl. now apply parser_step_unsized.
Qed.

Lemma finalize_any_unsized (source source_text : pystr) (context_len : Z)
  (acc : list aggregated_any) (k : option Z) (e : entry_any) :
  unsized (a_ne e) -> truthy (a_pref_type e) = true ->
  exists x,
    finalize_any source source_text context_len acc (k, e) = Raise x.
Proof.
  intros Hu Hp. unfold finalize_any, survives_any. rewrite Hp. cbn [orb].
  destruct (resolve_type_any e) as [ne_type|x]; cbn [bind]; [|now exists x].
  unfold context_any. rewrite Hu. cbn [bind]. now exists TypeError.
Qed.

(** X29: a surface form of spotlight that has no length (None when the
    resource has no "@surfaceForm", a number, a boolean) makes
    [intergrate_results] raise, whatever the other backends report: the
    entry of a seed always survives, and [context] takes [len] of its
    surface form. *)
Theorem unsized_surface_form_raises (result : results_any)
  (ln lt : list pyentity) (ne : pyentity) (source source_text : pystr)
  (context_len : Z) :
  dict_get pystr_eq_dec result stanford = Some ln ->
  dict_get pystr_eq_dec result spotlight = Some lt ->
  Forall spotlight_made lt ->
  In ne lt ->
  (forall x, In x lt -> p_pos x = p_pos ne -> unsized (p_ne x)) ->
  exists e,
    intergrate_results_any eq_other result source source_text context_len
    = Raise e.
Proof.
  intros Hln Hlt Hmade Hin Hun. unfold intergrate_results_any, merge_any.
  rewrite Hln, Hlt. cbn [iterate bind].
  match goal with
  | |- context [fold_left stanford_step_any ln ?s] =>
      destruct (fold_left stanford_step_any ln s) as [reg1 res1]
  end.
  destruct (spotlight_pass_unsized (p_pos ne) ne lt Hmade Hun (reg1, res1))
    as ([reg2 res2] & -> & H2); [now left|].
  cbn [bind fst] in *.
  pose proof (parser_pass_unsized (p_pos ne) result [spacy; polyglot; flair]
                reg2 H2) as (e & Eg & Hu & Hp).
  apply dict_get_In in Eg.
  destruct (foreach_raises_at
              (finalize_any source source_text context_len) _ _ Eg
              (fun s => finalize_any_unsized source source_text context_len
                          s (p_pos ne) e Hu Hp) [])
    as (x & ->).
  now exists x.
Qed.
End Unsized.

(** In the example, a resource of spotlight without "@surfaceForm". *)
Lemma unsized_surface_form_raises_witness :
  intergrate_results_any (fun _ _ => false) (sample_dispatched JNone)
    (u "p") sample_text 5
  = Raise TypeError.
Proof.
  destruct (unsized_surface_form_raises (fun _ _ => false)
              (sample_dispatched JNone) []
              [mk_pyentity JNone (Some 37) (u "other")]
              (mk_pyentity JNone (Some 37) (u "other"))
              (u "p") sample_text 5) as (e & E).
  - reflexivity.
  - reflexivity.
  - repeat constructor. now exists 37.
  - now left.
  - intros x [<-|[]] _. reflexivity.
  - rewrite E. assert (E' : intergrate_results_any (fun _ _ => false)
                              (sample_dispatched JNone) (u "p") sample_text 5
                            = Raise TypeError) by reflexivity.
    rewrite E in E'. exact E'.
Defined.

(** ** [ocr_to_dict] *)

Lemma In_replace_char (old c : char) (new s : pystr) :
  In c (replace_char old new s) -> (c <> old /\ In c s) \/ In c new.
Proof.
  unfold replace_char. intros H. apply in_flat_map in H.
  destruct H as (x & Hx & Hc). destruct (N.eqb_spec x old) as [->|N].
  - now right.
  - destruct Hc as [<-|[]]. left. split; assumption.
Qed.

Lemma replace_char_absent (old : char) (new s : pystr) :
  ~ In old s -> replace_char old new s = s.
Proof.
  unfold replace_char. induction s as [|c s IH]; [reflexivity|].
  intros H. simpl. destruct (N.eqb_spec c old) as [->|N].
  - exfalso. apply H. now left.
  - simpl. f_equal. apply IH. intros I. apply H. now right.
Qed.

Lemma escape_no_angle (text : pystr) :
  ~ In 60%N (escape text) /\ ~ In 62%N (escape text).
Proof.
  unfold escape. split; intros H.
  - apply In_replace_char in H. destruct H as [[H _]|H]; [now apply H|].
    simpl in H. decompose [or] H; try discriminate; contradiction.
  - apply In_replace_char in H. destruct H as [[_ H]|H].
    + apply In_replace_char in H. destruct H as [[H _]|H]; [now apply H|].
      simpl in H. decompose [or] H; try discriminate; contradiction.
    + simpl in H. decompose [or] H; try discriminate; contradiction.
Qed.

(** X22: an escaped text holds no '<' and no '>', and a text without '&',
    '<' and '>' is left as it is. *)
Theorem escape_removes_markup (text : pystr) :
  ~ In 60%N (escape text) /\ ~ In 62%N (escape text) /\
  (~ In 38%N text -> ~ In 60%N text -> ~ In 62%N text -> escape text = text).
Proof.
  destruct (escape_no_angle text) as [H1 H2].
  split; [assumption|]. split; [assumption|].
  intros Ha Hl Hg. unfold escape.
  now rewrite (replace_char_absent 38%N), (replace_char_absent 62%N),
    (replace_char_absent 60%N).
Qed.

(** A plain word from the example text. *)
Lemma escape_removes_markup_witness : escape (u "Einstein") = u "Einstein".
Proof.
  apply (escape_removes_markup (u "Einstein")); simpl;
    intros H; decompose [or] H; try discriminate; contradiction.
Defined.

Lemma ocr_append_get (parsed_text : list (pystr * list pystr))
  (key text k : pystr) :
  dict_get pystr_eq_dec (ocr_append parsed_text key text) k =
  if pystr_eq_dec k key
  then Some (match dict_get pystr_eq_dec parsed_text key with
             | Some texts => texts
             | None => []
             end ++ [text])
  else dict_get pystr_eq_dec parsed_text k.
Proof.
  unfold ocr_append.
  destruct (dict_get pystr_eq_dec parsed_text key) as [texts|] eqn:E.
  - rewrite E. destruct (pystr_eq_dec k key) as [->|N].
    + apply dict_get_set_same.
    + now apply dict_get_set_other.
  - rewrite dict_get_set_same. destruct (pystr_eq_dec k key) as [->|N].
    + apply dict_get_set_same.
    + now rewrite !dict_get_set_other by assumption.
Qed.

Lemma filed_app (texts : list pystr) (text : pystr) :
  filed (texts ++ [text]) =
  Some (match filed texts with Some l => l | None => [] end ++ [text]).
Proof. destruct texts; reflexivity. Qed.

Lemma escaped_texts_snoc (k : pystr) (pre : list xml_item) (item : xml_item) :
  escaped_texts k (pre ++ [item]) =
  escaped_texts k pre ++
  match snd item with
  | Some (c :: text) =>
      if pystr_eq_dec
           (if pystr_eq_dec (fst item) (u "title") then u "title" else u "p") k
      then [escape (c :: text)] else []
  | _ => []
  end.
Proof.
  unfold escaped_texts. rewrite flat_map_app. cbn [flat_map].
  now rewrite app_nil_r.
Qed.

Lemma dict_get_map_values {V W} (f : V -> W) (d : list (pystr * V)) (k : pystr) :
  dict_get pystr_eq_dec (map (fun kv => (fst kv, f (snd kv))) d) k
  = option_map f (dict_get pystr_eq_dec d k).
Proof.
  induction d as [|[k' v] d IH]; [reflexivity|]. simpl.
  now destruct (pystr_eq_dec k k').
Qed.

Lemma escaped_texts_other (items : list xml_item) (key : pystr) :
  key <> u "title" -> key <> u "p" -> escaped_texts key items = [].
Proof.
  intros Ht Hp. induction items as [|item items IH] using rev_ind;
    [reflexivity|].
  rewrite escaped_texts_snoc, IH.
  destruct (snd item) as [[|c text]|]; try reflexivity.
  destruct (pystr_eq_dec (fst item) (u "title")).
  - destruct (pystr_eq_dec (u "title") key) as [E|_];
      [symmetry in E; contradiction|reflexivity].
  - destruct (pystr_eq_dec (u "p") key) as [E|_];
      [symmetry in E; contradiction|reflexivity].
Qed.

Section OcrCollect.
Variable set_text : pystr -> outcome unit.

Lemma ocr_escape_spec (text : pystr) :
  match ocr_escape set_text text with
  | Ret t => assignable set_text text /\ t = escape text
  | Raise _ => ~ assignable set_text text
  end.
Proof.
  unfold ocr_escape, assignable, escape.
  destruct (set_text (replace_char 38%N (u "&amp;") text)) as [[]|e1];
    cbn [bind]; [|intros (H & _); discriminate H].
  destruct (set_text (replace_char 62%N (u "&gt;")
                        (replace_char 38%N (u "&amp;") text))) as [[]|e2];
    cbn [bind]; [|intros (_ & H & _); discriminate H].
  destruct (set_text (replace_char 60%N (u "&lt;")
                        (replace_char 62%N (u "&gt;")
                           (replace_char 38%N (u "&amp;") text)))) as [[]|e3];
    cbn [bind]; [|intros (_ & _ & H); discriminate H].
  auto.
Qed.

Lemma ocr_append_filed (parsed_text : list (pystr * list pystr))
  (pre : list xml_item) (item : xml_item) (c : char) (text : pystr) :
  (forall k, dict_get pystr_eq_dec parsed_text k = filed (escaped_texts k pre)) ->
  snd item = Some (c :: text) ->
  forall k,
    dict_get pystr_eq_dec
      (ocr_append parsed_text
         (if pystr_eq_dec (fst item) (u "title") then u "title" else u "p")
         (escape (c :: text))) k
    = filed (escaped_texts k (pre ++ [item])).
Proof.
  intros H Es k. rewrite escaped_texts_snoc, Es, ocr_append_get.
  set (key := if pystr_eq_dec (fst item) (u "title") then u "title" else u "p").
  destruct (pystr_eq_dec k key) as [->|N].
  - destruct (pystr_eq_dec key key); [|contradiction].
    now rewrite filed_app, <- H.
  - destruct (pystr_eq_dec key k) as [E|_]; [symmetry in E; contradiction|].
    rewrite app_nil_r. apply H.
Qed.

Lemma ocr_step_get (parsed_text : list (pystr * list pystr))
  (pre : list xml_item) (item : xml_item) :
  (forall k, dict_get pystr_eq_dec parsed_text k = filed (escaped_texts k pre)) ->
  match ocr_step set_text parsed_text item with
  | Ret d =>
      (forall c text, snd item = Some (c :: text) ->
                      assignable set_text (c :: text)) /\
      forall k, dict_get pystr_eq_dec d k
                = filed (escaped_texts k (pre ++ [item]))
  | Raise e =>
      exists c text,
        snd item = Some (c :: text) /\
        ocr_escape set_text (c :: text) = Raise e
  end.
Proof.
  intros H. unfold ocr_step.
  destruct (snd item) as [[|c text]|] eqn:Es.
  - split; [discriminate|]. intros k.
    rewrite escaped_texts_snoc, Es, app_nil_r. apply H.
  - pose proof (ocr_escape_spec (c :: text)) as Hs.
    pose proof (ocr_append_filed parsed_text pre item c text H Es) as Hg.
    destruct (ocr_escape set_text (c :: text)) as [t|e] eqn:Ee; cbn [bind];
      [|now exists c, text].
    destruct Hs as [Ha ->].
    destruct (pystr_eq_dec (fst item) (u "title"));
      (split; [intros c' text' [= <- <-]; exact Ha|exact Hg]).
  - split; [discriminate|]. intros k.
    rewrite escaped_texts_snoc, Es, app_nil_r. apply H.
Qed.

Lemma ocr_foreach_get (items pre : list xml_item)
  (parsed_text : list (pystr * list pystr)) :
  (forall k, dict_get pystr_eq_dec parsed_text k = filed (escaped_texts k pre)) ->
  texts_assignable set_text pre ->
  match foreach items (ocr_step set_text) parsed_text with
  | Ret d =>
      texts_assignable set_text (pre ++ items) /\
      forall k, dict_get pystr_eq_dec d k
                = filed (escaped_texts k (pre ++ items))
  | Raise e =>
      exists before item c text after,
        pre ++ items = before ++ item :: after /\
        snd item = Some (c :: text) /\
        ocr_escape set_text (c :: text) = Raise e /\
        texts_assignable set_text before
  end.
Proof.
  revert pre parsed_text. induction items as [|item items IH];
    intros pre parsed_text H Hpre.
  - cbn [foreach]. rewrite app_nil_r. now split.
  - cbn [foreach]. pose proof (ocr_step_get parsed_text pre item H) as Hs.
    destruct (ocr_step set_text parsed_text item) as [d|e]; cbn [bind].
    + destruct Hs as [Ha Hd].
      replace (pre ++ item :: items) with ((pre ++ [item]) ++ items)
        by now rewrite <- app_assoc.
      apply IH; [exact Hd|].
      apply Forall_app. split; [exact Hpre|]. now constructor.
    + destruct Hs as (c & text & Es & Ee).
      now exists pre, item, c, text, items.
Qed.

Lemma ocr_collect_get (items : list xml_item) :
  match ocr_collect set_text items with
  | Ret parsed_text =>
      texts_assignable set_text items /\
      forall key,
        dict_get pystr_eq_dec parsed_text key
        = option_map (@concat char) (filed (escaped_texts key items))
  | Raise e =>
      exists before item c text after,
        items = before ++ item :: after /\
        snd item = Some (c :: text) /\
        ocr_escape set_text (c :: text) = Raise e /\
        texts_assignable set_text before
  end.
Proof.
  unfold ocr_collect.
  pose proof (ocr_foreach_get items [] [] (fun k => eq_refl)) as H.
  cbn [app] in H.
  destruct (foreach items (ocr_step set_text) []) as [d|e]; cbn [bind].
  - destruct H as [Ha Hd]; [constructor|]. split; [exact Ha|]. intros key.
    rewrite dict_get_map_values. f_equal. apply Hd.
  - apply H. constructor.
Qed.

(** X23: [ocr_to_dict] builds its dict exactly when lxml accepts every
    string that lines 733-735 assign.  The dict then holds, under "title",
    the escaped texts of the elements tagged "title", in document order,
    joined without separator, and under "p" those of all other elements;
    elements without text are skipped, a key without any text is missing,
    and there is no other key.  Otherwise the exception of the first
    refused assignment leaves [ocr_to_dict]. *)
Theorem ocr_collect_texts (items : list xml_item) :
  match ocr_collect set_text items with
  | Ret parsed_text =>
      texts_assignable set_text items /\
      (forall key,
         dict_get pystr_eq_dec parsed_text key
         = option_map (@concat char) (filed (escaped_texts key items))) /\
      (forall key, key <> u "title" -> key <> u "p" ->
                   dict_get pystr_eq_dec parsed_text key = None)
  | Raise e =>
      exists before item c text after,
        items = before ++ item :: after /\
        snd item = Some (c :: text) /\
        ~ assignable set_text (c :: text) /\
        ocr_escape set_text (c :: text) = Raise e /\
        texts_assignable set_text before
  end.
Proof.
  pose proof (ocr_collect_get items) as H.
  destruct (ocr_collect set_text items) as [parsed_text|e].
  - destruct H as [Ha Hd]. split; [exact Ha|]. split; [exact Hd|].
    intros key Ht Hp. now rewrite Hd, escaped_texts_other.
  - destruct H as (before & item & c & text & after & Ei & Es & Ee & Hb).
    exists before, item, c, text, after.
    split; [exact Ei|]. split; [exact Es|]. split; [|now split].
    pose proof (ocr_escape_spec (c :: text)) as Hs. now rewrite Ee in Hs.
Qed.

(** X24: no text of the dict [ocr_to_dict] returns holds a '<' or a '>'. *)
Theorem ocr_collect_no_markup (items : list xml_item)
  (parsed_text : list (pystr * pystr)) (key text : pystr) :
  ocr_collect set_text items = Ret parsed_text ->
  dict_get pystr_eq_dec parsed_text key = Some text ->
  ~ In 60%N text /\ ~ In 62%N text.
Proof.
  intros Ec. pose proof (ocr_collect_get items) as Hc. rewrite Ec in Hc.
  destruct Hc as [_ Hd]. rewrite Hd.
  assert (H : forall c, In c (concat (escaped_texts key items)) ->
                        exists t, In c (escape t)).
  { intros c Hc. apply in_concat in Hc. destruct Hc as (t & Ht & Hc).
    unfold escaped_texts in Ht. apply in_flat_map in Ht.
    destruct Ht as (item & _ & Ht).
    destruct (snd item) as [[|c0 t0]|]; try contradiction.
    destruct (pystr_eq_dec _ key); [|contradiction].
    destruct Ht as [<-|[]]. eauto. }
  destruct (escaped_texts key items) as [|t ts] eqn:E; [discriminate|].
  cbn [filed option_map]. intros [= <-].
  split; intros Hc; destruct (H _ Hc) as (t' & Ht');
    destruct (escape_no_angle t') as [H1 H2]; contradiction.
Qed.
End OcrCollect.

(** A title and two paragraphs; a backspace in a text is refused. *)
Lemma ocr_collect_texts_witness :
  (exists parsed_text,
     ocr_collect sample_set_text sample_items = Ret parsed_text /\
     dict_get pystr_eq_dec parsed_text (u "p") = Some (u "a&lt;bc") /\
     dict_get pystr_eq_dec parsed_text (u "text") = None) /\
  exists (item : xml_item) c text,
    snd item = Some (c :: text) /\
    ocr_escape sample_set_text (c :: text) = Raise ValueError /\
    ocr_collect sample_set_text [(u "p", Some [97; 8]%N)] = Raise ValueError.
Proof.
  split.
  - pose proof (ocr_collect_texts sample_set_text sample_items) as H.
    assert (E : ocr_collect sample_set_text sample_items
                = Ret [(u "title", u "EERSTE"); (u "p", u "a&lt;bc")])
      by reflexivity.
    rewrite E in H. destruct H as (_ & Hd & Ho). eexists.
    split; [exact E|]. split; [reflexivity|]. apply Ho; discriminate.
  - pose proof (ocr_collect_texts sample_set_text [(u "p", Some [97; 8]%N)])
      as H.
    assert (E : ocr_collect sample_set_text [(u "p", Some [97; 8]%N)]
                = Raise ValueError) by reflexivity.
    rewrite E in H.
    destruct H as (b & item & c & text & a & _ & Es & _ & Ee & _).
    now exists item, c, text.
Defined.

Lemma ocr_collect_no_markup_witness :
  ~ In 60%N (u "a&lt;bc") /\ ~ In 62%N (u "a&lt;bc").
Proof.
  apply (ocr_collect_no_markup sample_set_text sample_items
           [(u "title", u "EERSTE"); (u "p", u "a&lt;bc")] (u "p"));
    reflexivity.
Defined.

Section FetchLoop.
Variable content : Type.
Variable http_get : nat -> outcome (Z * content).
Variable parse : content -> outcome (list xml_item).
Variable set_text : pystr -> outcome unit.

Lemma fetch_loop_answers (d : nat) :
  (forall n, exists req, http_get n = Ret req) ->
  forall k, (k + d = 50)%nat ->
  exists n req,
    (k <= n <= 50)%nat /\ http_get n = Ret req /\
    (fst req = 200 \/ n = 50%nat) /\
    (forall m, (k <= m < n)%nat ->
               exists r, http_get m = Ret r /\ fst r <> 200) /\
    forall fuel, (50 - k < fuel)%nat ->
                 fetch_loop content http_get fuel k (Z.of_nat k) = Some req.
Proof.
  intros Hall. induction d as [|d IH]; intros k Hk.
  - destruct (Hall k) as (req & E). exists k, req.
    split; [lia|]. split; [assumption|]. split; [right; lia|].
    split; [intros m Hm; lia|]. intros [|fuel] Hf; [lia|].
    cbn [fetch_loop]. rewrite E.
    replace (50 <? Z.of_nat k + 1) with true
      by (symmetry; apply Z.ltb_lt; lia).
    now rewrite orb_true_r.
  - destruct (Hall k) as (req & E).
    destruct (Z.eq_dec (fst req) 200) as [E200|N200].
    + exists k, req. split; [lia|]. split; [assumption|]. split; [now left|].
      split; [intros m Hm; lia|]. intros [|fuel] Hf; [lia|].
      cbn [fetch_loop]. rewrite E, E200. reflexivity.
    + destruct (IH (S k)) as (n & req' & Hn & E' & Hend & Hbefore & Hloop);
        [lia|].
      exists n, req'. split; [lia|]. split; [assumption|].
      split; [assumption|]. split.
      * intros m Hm. destruct (Nat.eq_dec m k) as [->|Hne]; [eauto|].
        apply Hbefore. lia.
      * intros [|fuel] Hf; [lia|]. cbn [fetch_loop]. rewrite E.
        replace (fst req =? 200) with false
          by (symmetry; now apply Z.eqb_neq).
        replace (50 <? Z.of_nat k + 1) with false
          by (symmetry; apply Z.ltb_ge; lia).
        cbn [orb]. replace (Z.of_nat k + 1) with (Z.of_nat (S k)) by lia.
        apply Hloop. lia.
Qed.

(** X25: when no call of [requests.get] raises, [ocr_to_dict] ends after at
    most 51 calls, and parses the content of the first answer with status
    200, or of the 51st answer when none of the first 51 has that status. *)
Theorem ocr_to_dict_ends :
  (forall n, exists req, http_get n = Ret req) ->
  exists n req,
    (n <= 50)%nat /\ http_get n = Ret req /\
    (fst req = 200 \/ n = 50%nat) /\
    (forall m, (m < n)%nat -> exists r, http_get m = Ret r /\ fst r <> 200) /\
    forall fuel, (50 < fuel)%nat ->
      ocr_to_dict content http_get parse set_text fuel
      = Some (items <- parse (snd req) ;; ocr_collect set_text items).
Proof.
  intros Hall.
  destruct (fetch_loop_answers 50 Hall 0 eq_refl)
    as (n & req & Hn & E & Hend & Hbefore & Hloop).
  exists n, req. split; [lia|]. split; [assumption|]. split; [assumption|].
  split; [intros m Hm; apply Hbefore; lia|].
  intros fuel Hf. unfold ocr_to_dict.
  change 0 with (Z.of_nat 0). rewrite Hloop by lia. reflexivity.
Qed.

(** X26: when every call of [requests.get] raises, the loop of
    [ocr_to_dict] never ends: no number of calls is enough. *)
Theorem ocr_to_dict_never_ends :
  (forall n, exists e, http_get n = Raise e) ->
  forall fuel, ocr_to_dict content http_get parse set_text fuel = None.
Proof.
  intros Hall fuel. unfold ocr_to_dict.
  assert (H : forall call retry,
             fetch_loop content http_get fuel call retry = None).
  { induction fuel as [|fuel IH]; intros call retry; [reflexivity|].
    cbn [fetch_loop]. destruct (Hall call) as (e & ->). apply IH. }
  now rewrite H.
Qed.
End FetchLoop.

(** The second answer has the status 200. *)
Lemma ocr_to_dict_ends_witness :
  exists (n : nat) (req : Z * list xml_item),
    (n <= 50)%nat /\
    ocr_to_dict (list xml_item)
      (fun k => Ret (if (k =? 1)%nat then 200 else 503, [(u "p", Some (u "c"))]))
      (fun c => Ret c) sample_set_text 60
    = Some (items <- Ret (snd req) ;; ocr_collect sample_set_text items).
Proof.
  destruct (ocr_to_dict_ends (list xml_item)
              (fun k => Ret (if (k =? 1)%nat then 200 else 503,
                             [(u "p", Some (u "c"))]))
              (fun c => Ret c) sample_set_text)
    as (n & req & Hn & E & _ & _ & Hloop).
  - intros n. eexists. reflexivity.
  - exists n, req. split; [assumption|]. apply Hloop. lia.
Defined.

(** A server that cannot be reached. *)
Lemma ocr_to_dict_never_ends_witness :
  ocr_to_dict (list xml_item) (fun _ => Raise EngineError) (fun c => Ret c)
    sample_set_text 1000
  = None.
Proof.
  apply (ocr_to_dict_never_ends (list xml_item)
           (fun _ => Raise EngineError) (fun c => Ret c) sample_set_text).
  intros n. now exists EngineError.
Defined.

(** ** Which backends are counted at an offset *)

Lemma sources_at_set (new_result : registry) (p pos : Z) (e : entry) :
  sources_at (dict_set Z.eq_dec new_result p e) pos =
  if p =? pos then e_ner_src e else sources_at new_result pos.
Proof.
  unfold sources_at. destruct (Z.eqb_spec p pos) as [->|N].
  - now rewrite dict_get_set_same.
  - rewrite dict_get_set_other; [reflexivity|]. intros E. now apply N.
Qed.

Lemma stanford_pass_sources (l : list raw_entity) (st : registry * res_value)
  (pos : Z) :
  sources_at (fst (fold_left stanford_step l st)) pos =
  if existsb (fun ne => r_pos ne =? pos) l then [stanford]
  else sources_at (fst st) pos.
Proof.
  revert st. induction l as [|ne l IH]; intros [nr res]; [reflexivity|].
  cbn [fold_left existsb]. rewrite IH. cbn [stanford_step fst].
  rewrite sources_at_set. cbn [e_ner_src].
  now destruct (existsb (fun ne0 => r_pos ne0 =? pos) l), (r_pos ne =? pos).
Qed.

Lemma spotlight_pass_sources (l : list raw_entity)
  (st st' : registry * res_value) (pos : Z) :
  foreach l spotlight_step st = Ret st' ->
  sources_at (fst st') pos =
  if existsb (fun ne => r_pos ne =? pos) l then [spotlight]
  else sources_at (fst st) pos.
Proof.
  revert st. induction l as [|ne l IH]; intros [nr res]; cbn [foreach].
  - now intros [= <-].
  - rewrite spotlight_step_eq. simpl bind. intros E. rewrite (IH _ E).
    cbn [fst existsb]. rewrite sources_at_set. cbn [e_ner_src].
    now destruct (existsb (fun ne0 => r_pos ne0 =? pos) l), (r_pos ne =? pos).
Qed.

Lemma parser_step_sources (parser : pystr) (new_result : registry)
  (ne : raw_entity) (pos : Z) :
  sources_at (parser_step parser new_result ne) pos =
  if r_pos ne =? pos then add_source parser (sources_at new_result pos)
  else sources_at new_result pos.
Proof.
  unfold parser_step, add_source.
  destruct (dict_get Z.eq_dec new_result (r_pos ne)) as [e|] eqn:E.
  - destruct (str_in parser (e_ner_src e)) eqn:Hs.
    + destruct (Z.eqb_spec (r_pos ne) pos) as [<-|N]; [|reflexivity].
      unfold sources_at. now rewrite E, Hs.
    + rewrite sources_at_set. cbn [e_ner_src].
      destruct (Z.eqb_spec (r_pos ne) pos) as [<-|N]; [|reflexivity].
      unfold sources_at. now rewrite E, Hs.
  - rewrite sources_at_set. cbn [e_ner_src].
    destruct (Z.eqb_spec (r_pos ne) pos) as [<-|N]; [|reflexivity].
    unfold sources_at. now rewrite E.
Qed.

Lemma add_source_idem (parser : pystr) (sources : list pystr) :
  add_source parser (add_source parser sources) = add_source parser sources.
Proof.
  unfold add_source. destruct (str_in parser sources) eqn:E; [now rewrite E|].
  unfold str_in. destruct (in_dec pystr_eq_dec parser (sources ++ [parser]))
    as [_|N]; [reflexivity|].
  exfalso. apply N, in_or_app. right. now left.
Qed.

Lemma parser_pass_sources (result : backend_results) (new_result : registry)
  (parser : pystr) (pos : Z) :
  sources_at (parser_pass result new_result parser) pos =
  if reports result parser pos
  then add_source parser (sources_at new_result pos)
  else sources_at new_result pos.
Proof.
  unfold parser_pass, reports.
  destruct (dict_get pystr_eq_dec result parser) as [l|]; [|reflexivity].
  revert new_result. induction l as [|ne l IH]; intros nr; [reflexivity|].
  cbn [fold_left existsb]. rewrite IH, parser_step_sources.
  destruct (r_pos ne =? pos), (existsb (fun ne0 => r_pos ne0 =? pos) l);
    cbn [orb]; try reflexivity. apply add_source_idem.
Qed.

Lemma merge_sources_at (result : backend_results) (new_result : registry)
  (pos : Z) :
  merge result = Ret new_result ->
  sources_at new_result pos = counted_sources result pos.
Proof.
  unfold merge.
  destruct (dict_get pystr_eq_dec result stanford) as [l1|] eqn:E1;
    cbn [iterate bind]; [|discriminate].
  match goal with
  | |- context [fold_left stanford_step l1 ?s] =>
      pose proof (stanford_pass_sources l1 s pos) as H1;
      destruct (fold_left stanford_step l1 s) as [nr res]
  end.
  destruct (dict_get pystr_eq_dec result spotlight) as [l2|] eqn:E2;
    cbn [iterate bind]; [|discriminate].
  destruct (foreach l2 spotlight_step (nr, res)) as [[nr' res']|] eqn:E;
    cbn [bind]; [|discriminate].
  intros [= <-].
  pose proof (spotlight_pass_sources l2 _ _ pos E) as H2.
  cbn [fst] in H1, H2.
  cbn [fold_left]. rewrite !parser_pass_sources, H2, H1.
  unfold counted_sources, corroborating. cbn [filter fst].
  assert (R1 : reports result stanford pos
               = existsb (fun ne => r_pos ne =? pos) l1)
    by (unfold reports; now rewrite E1).
  assert (R2 : reports result spotlight pos
               = existsb (fun ne => r_pos ne =? pos) l2)
    by (unfold reports; now rewrite E2).
  rewrite R1, R2.
  destruct (existsb (fun ne => r_pos ne =? pos) l1),
    (existsb (fun ne => r_pos ne =? pos) l2),
    (reports result spacy pos), (reports result polyglot pos),
    (reports result flair pos); reflexivity.
Qed.

(** X27: after the three passes the "ner_src" of the entry at an offset is:
    "spotlight" when spotlight reports the offset, else "stanford" when
    stanford does; followed by those of "spacy", "polyglot" and "flair", in
    this order, that report the offset.  There is no entry at an offset no
    backend reports. *)
Theorem merged_sources (result : backend_results) (new_result : registry)
  (pos : Z) :
  merge result = Ret new_result ->
  sources_at new_result pos = counted_sources result pos /\
  (dict_get Z.eq_dec new_result pos = None <-> counted_sources result pos = []).
Proof.
  intros Hm. pose proof (merge_sources_at result new_result pos Hm) as Hs.
  split; [assumption|]. rewrite <- Hs. unfold sources_at.
  destruct (dict_get Z.eq_dec new_result pos) as [e|] eqn:E; [|tauto].
  pose proof (merge_spec result) as Hok. rewrite Hm in Hok.
  destruct Hok as (Hreg & _).
  destruct (registry_ok_get _ _ _ Hreg E) as [_ _ _ (first & rest & Es & _) _].
  rewrite Es. split; discriminate.
Qed.

(** Both seeds and "spacy" report the entity of the example. *)
Lemma merged_sources_witness :
  sources_at [(37, {| e_count := 2;
                      e_ne := u "Albert Einstein";
                      e_ner_src := [spotlight; spacy];
                      e_type := [(u "person", 2)];
                      e_pref_type := Some (u "person");
                      e_alt_ne := None |})] 37
  = [spotlight; spacy].
Proof.
  apply (merged_sources
           [(stanford, [sample_entity]); (spotlight, [sample_entity]);
            (spacy, [sample_entity])]).
  reflexivity.
Defined.


